(** * GLS: resource handles, renderbuffers and the camera utility

    A shallow embedding of these pieces of the GLS headers:

    - [gls::object] (include/gls/objects/object.hpp), the move-only RAII
      wrapper around one OpenGL name, and [gls::sync]
      (include/gls/objects/sync.hpp), which manages its fence by hand;
    - [gls::renderbuffer] (include/gls/objects/renderbuffer.hpp);
    - [gls::buffer] (include/gls/objects/buffer.hpp);
    - [gls::query] (include/gls/objects/query.hpp);
    - the extents of [gls::texture] (include/gls/objects/texture.hpp);
    - [gls::camera<T>] (include/gls/utilities/camera.hpp).

    The camera is a template over its scalar type [T], and it is embedded
    twice.

    [Camera] embeds it at the real numbers: [+], [*], [/], [std::sqrt],
    [std::sin], [std::cos] and [std::tan] are the operations of [R], and
    [==] is equality of reals.  Rounding, infinities and NaN are outside
    that model; a division by zero, which the source leaves unchecked, has
    the value the library of reals gives it ([x / 0 = 0]), and no
    statement relies on that value except to observe that it is not a
    unit vector.  This model carries the statements on the flags, on the
    caches and on exact angles.

    [CameraT] embeds the same source over an arbitrary arithmetic, of
    which nothing is assumed, with the binary64 numbers of IEEE 754 as an
    instance.  What is proved there of every arithmetic holds of
    [camera<float>] and [camera<double>] with their rounding, their
    infinities and their NaN, as long as each operation of [T] is a
    function of its operands. *)

From Stdlib Require Import Reals Lra Psatz List ZArith Bool Lia Permutation
  Factorial.
From Stdlib Require PrimFloat Uint63.
Import ListNotations.

(** ** The camera: data *)

Module Camera.

Local Open Scope R_scope.

(** [typedef T value_type] *)
Definition value_type : Type := R.

(** [std::array<value_type, 3>] *)
Record vector_type : Type := vec { vec0 : R; vec1 : R; vec2 : R }.

(** [std::array<value_type, 4>] *)
Record quaternion_type : Type :=
  quat { quat0 : R; quat1 : R; quat2 : R; quat3 : R }.

(** [std::array<value_type, 16>]; the field [matN] is the element [m[N]]. *)
Record matrix_type : Type := mat {
  mat0 : R; mat1 : R; mat2 : R; mat3 : R;
  mat4 : R; mat5 : R; mat6 : R; mat7 : R;
  mat8 : R; mat9 : R; mat10 : R; mat11 : R;
  mat12 : R; mat13 : R; mat14 : R; mat15 : R }.

(** [constexpr static value_type pi = 3.14159265359] *)
Definition pi : R := 314159265359 / 100000000000.

(** [operator==] on scalars and on [std::array] (element by element). *)
Definition value_eq (x y : R) : bool :=
  if Req_dec_T x y then true else false.

Definition vector_eq (v w : vector_type) : bool :=
  value_eq (vec0 v) (vec0 w) && value_eq (vec1 v) (vec1 w)
  && value_eq (vec2 v) (vec2 w).

(** The data members of [camera], in the order of the class. *)
Record camera : Type := Build_camera {
  m_projection : matrix_type;
  m_view : matrix_type;
  m_matrix : matrix_type;
  m_position : vector_type;
  m_direction : vector_type;
  m_up : vector_type;
  m_fov : R;
  m_aspect : R;
  m_near : R;
  m_far : R;
  m_projection_dirty : bool;
  m_view_dirty : bool;
  m_matrix_dirty : bool }.

(** Assignments to single members. *)
Definition assign_projection (p : matrix_type) (c : camera) : camera :=
  Build_camera p (m_view c) (m_matrix c) (m_position c) (m_direction c)
    (m_up c) (m_fov c) (m_aspect c) (m_near c) (m_far c)
    (m_projection_dirty c) (m_view_dirty c) (m_matrix_dirty c).

Definition assign_view (v : matrix_type) (c : camera) : camera :=
  Build_camera (m_projection c) v (m_matrix c) (m_position c) (m_direction c)
    (m_up c) (m_fov c) (m_aspect c) (m_near c) (m_far c)
    (m_projection_dirty c) (m_view_dirty c) (m_matrix_dirty c).

Definition assign_matrix (m : matrix_type) (c : camera) : camera :=
  Build_camera (m_projection c) (m_view c) m (m_position c) (m_direction c)
    (m_up c) (m_fov c) (m_aspect c) (m_near c) (m_far c)
    (m_projection_dirty c) (m_view_dirty c) (m_matrix_dirty c).

Definition assign_position (p : vector_type) (c : camera) : camera :=
  Build_camera (m_projection c) (m_view c) (m_matrix c) p (m_direction c)
    (m_up c) (m_fov c) (m_aspect c) (m_near c) (m_far c)
    (m_projection_dirty c) (m_view_dirty c) (m_matrix_dirty c).

Definition assign_direction (d : vector_type) (c : camera) : camera :=
  Build_camera (m_projection c) (m_view c) (m_matrix c) (m_position c) d
    (m_up c) (m_fov c) (m_aspect c) (m_near c) (m_far c)
    (m_projection_dirty c) (m_view_dirty c) (m_matrix_dirty c).

Definition assign_up (u : vector_type) (c : camera) : camera :=
  Build_camera (m_projection c) (m_view c) (m_matrix c) (m_position c)
    (m_direction c) u (m_fov c) (m_aspect c) (m_near c) (m_far c)
    (m_projection_dirty c) (m_view_dirty c) (m_matrix_dirty c).

Definition assign_fov (x : R) (c : camera) : camera :=
  Build_camera (m_projection c) (m_view c) (m_matrix c) (m_position c)
    (m_direction c) (m_up c) x (m_aspect c) (m_near c) (m_far c)
    (m_projection_dirty c) (m_view_dirty c) (m_matrix_dirty c).

Definition assign_aspect (x : R) (c : camera) : camera :=
  Build_camera (m_projection c) (m_view c) (m_matrix c) (m_position c)
    (m_direction c) (m_up c) (m_fov c) x (m_near c) (m_far c)
    (m_projection_dirty c) (m_view_dirty c) (m_matrix_dirty c).

Definition assign_near (x : R) (c : camera) : camera :=
  Build_camera (m_projection c) (m_view c) (m_matrix c) (m_position c)
    (m_direction c) (m_up c) (m_fov c) (m_aspect c) x (m_far c)
    (m_projection_dirty c) (m_view_dirty c) (m_matrix_dirty c).

Definition assign_far (x : R) (c : camera) : camera :=
  Build_camera (m_projection c) (m_view c) (m_matrix c) (m_position c)
    (m_direction c) (m_up c) (m_fov c) (m_aspect c) (m_near c) x
    (m_projection_dirty c) (m_view_dirty c) (m_matrix_dirty c).

Definition assign_projection_dirty (b : bool) (c : camera) : camera :=
  Build_camera (m_projection c) (m_view c) (m_matrix c) (m_position c)
    (m_direction c) (m_up c) (m_fov c) (m_aspect c) (m_near c) (m_far c)
    b (m_view_dirty c) (m_matrix_dirty c).

Definition assign_view_dirty (b : bool) (c : camera) : camera :=
  Build_camera (m_projection c) (m_view c) (m_matrix c) (m_position c)
    (m_direction c) (m_up c) (m_fov c) (m_aspect c) (m_near c) (m_far c)
    (m_projection_dirty c) b (m_matrix_dirty c).

Definition assign_matrix_dirty (b : bool) (c : camera) : camera :=
  Build_camera (m_projection c) (m_view c) (m_matrix c) (m_position c)
    (m_direction c) (m_up c) (m_fov c) (m_aspect c) (m_near c) (m_far c)
    (m_projection_dirty c) (m_view_dirty c) b.

(** ** The camera: private helpers *)

Definition vector_length (v : vector_type) : R :=
  sqrt (vec0 v * vec0 v + vec1 v * vec1 v + vec2 v * vec2 v).

Definition vector_normalize (v : vector_type) : vector_type :=
  let length := vector_length v in
  vec (vec0 v / length) (vec1 v / length) (vec2 v / length).

Definition vector_dot (v w : vector_type) : R :=
  vec0 v * vec0 w + vec1 v * vec1 w + vec2 v * vec2 w.

Definition vector_cross (v w : vector_type) : vector_type :=
  vec (vec1 v * vec2 w - vec2 v * vec1 w)
      (vec2 v * vec0 w - vec0 v * vec2 w)
      (vec0 v * vec1 w - vec1 v * vec0 w).

Definition quaternion_length (q : quaternion_type) : R :=
  sqrt (quat0 q * quat0 q + quat1 q * quat1 q + quat2 q * quat2 q
        + quat3 q * quat3 q).

Definition quaternion_normalize (q : quaternion_type) : quaternion_type :=
  let length := quaternion_length q in
  quat (quat0 q / length) (quat1 q / length) (quat2 q / length)
       (quat3 q / length).

Definition quaternion_conjugate (q : quaternion_type) : quaternion_type :=
  quat (- quat0 q) (- quat1 q) (- quat2 q) (quat3 q).

Definition quaternion_multiply (q r : quaternion_type) : quaternion_type :=
  quat
    (quat0 q * quat3 r + quat3 q * quat0 r + quat1 q * quat2 r - quat2 q * quat1 r)
    (quat1 q * quat3 r + quat3 q * quat1 r + quat2 q * quat0 r - quat0 q * quat2 r)
    (quat2 q * quat3 r + quat3 q * quat2 r + quat0 q * quat1 r - quat1 q * quat0 r)
    (quat3 q * quat3 r - quat0 q * quat0 r - quat1 q * quat1 r - quat2 q * quat2 r).

Definition matrix_mult (m n : matrix_type) : matrix_type :=
  mat
    (mat0 m * mat0 n + mat4 m * mat1 n + mat8 m * mat2 n + mat12 m * mat3 n)
    (mat1 m * mat0 n + mat5 m * mat1 n + mat9 m * mat2 n + mat13 m * mat3 n)
    (mat2 m * mat0 n + mat6 m * mat1 n + mat10 m * mat2 n + mat14 m * mat3 n)
    (mat3 m * mat0 n + mat7 m * mat1 n + mat11 m * mat2 n + mat15 m * mat3 n)
    (mat0 m * mat4 n + mat4 m * mat5 n + mat8 m * mat6 n + mat12 m * mat7 n)
    (mat1 m * mat4 n + mat5 m * mat5 n + mat9 m * mat6 n + mat13 m * mat7 n)
    (mat2 m * mat4 n + mat6 m * mat5 n + mat10 m * mat6 n + mat14 m * mat7 n)
    (mat3 m * mat4 n + mat7 m * mat5 n + mat11 m * mat6 n + mat15 m * mat7 n)
    (mat0 m * mat8 n + mat4 m * mat9 n + mat8 m * mat10 n + mat12 m * mat11 n)
    (mat1 m * mat8 n + mat5 m * mat9 n + mat9 m * mat10 n + mat13 m * mat11 n)
    (mat2 m * mat8 n + mat6 m * mat9 n + mat10 m * mat10 n + mat14 m * mat11 n)
    (mat3 m * mat8 n + mat7 m * mat9 n + mat11 m * mat10 n + mat15 m * mat11 n)
    (mat0 m * mat12 n + mat4 m * mat13 n + mat8 m * mat14 n + mat12 m * mat15 n)
    (mat1 m * mat12 n + mat5 m * mat13 n + mat9 m * mat14 n + mat13 m * mat15 n)
    (mat2 m * mat12 n + mat6 m * mat13 n + mat10 m * mat14 n + mat14 m * mat15 n)
    (mat3 m * mat12 n + mat7 m * mat13 n + mat11 m * mat14 n + mat15 m * mat15 n).

(** ** The camera: constructors

    The three cached matrices are declared without an initialiser, so a
    constructor leaves them indeterminate; their initial contents are the
    arguments [p0], [v0] and [m0].  The other members take their default
    member initialisers unless the constructor sets them. *)

Definition camera_default (p0 v0 m0 : matrix_type) : camera :=
  Build_camera p0 v0 m0
    (vec 0 0 0) (vec 0 0 (-1)) (vec 0 1 0)
    (pi * 90 / 180) 1 1 1000
    true true true.

Definition camera_projection (p0 v0 m0 : matrix_type)
    (fov aspect near_distance far_distance : R) : camera :=
  Build_camera p0 v0 m0
    (vec 0 0 0) (vec 0 0 (-1)) (vec 0 1 0)
    fov aspect near_distance far_distance
    true true true.

Definition camera_full (p0 v0 m0 : matrix_type)
    (fov aspect near_distance far_distance : R)
    (position direction up : vector_type) : camera :=
  Build_camera p0 v0 m0
    position (vector_normalize direction) (vector_normalize up)
    fov aspect near_distance far_distance
    true true true.

(** ** The camera: getters and setters of the parameters *)

Definition get_fov (c : camera) : R := m_fov c.
Definition get_aspect (c : camera) : R := m_aspect c.
Definition get_near_distance (c : camera) : R := m_near c.
Definition get_far_distance (c : camera) : R := m_far c.
Definition get_position (c : camera) : vector_type := m_position c.
Definition get_direction (c : camera) : vector_type := m_direction c.
Definition get_up (c : camera) : vector_type := m_up c.

Definition set_fov (fov : R) (c : camera) : camera :=
  if value_eq (m_fov c) fov then c
  else assign_matrix_dirty true
         (assign_projection_dirty true (assign_fov fov c)).

Definition set_aspect (aspect : R) (c : camera) : camera :=
  if value_eq (m_aspect c) aspect then c
  else assign_matrix_dirty true
         (assign_projection_dirty true (assign_aspect aspect c)).

Definition set_near_distance (near_distance : R) (c : camera) : camera :=
  if value_eq (m_near c) near_distance then c
  else assign_matrix_dirty true
         (assign_projection_dirty true (assign_near near_distance c)).

Definition set_far_distance (far_distance : R) (c : camera) : camera :=
  if value_eq (m_far c) far_distance then c
  else assign_matrix_dirty true
         (assign_projection_dirty true (assign_far far_distance c)).

Definition set_position (position : vector_type) (c : camera) : camera :=
  if vector_eq (m_position c) position then c
  else assign_matrix_dirty true
         (assign_view_dirty true (assign_position position c)).

Definition set_direction (direction : vector_type) (c : camera) : camera :=
  let new_direction := vector_normalize direction in
  if vector_eq (m_direction c) new_direction then c
  else assign_matrix_dirty true
         (assign_view_dirty true (assign_direction new_direction c)).

Definition set_up (up : vector_type) (c : camera) : camera :=
  let new_up := vector_normalize up in
  if vector_eq (m_up c) new_up then c
  else assign_matrix_dirty true
         (assign_view_dirty true (assign_up new_up c)).

(** ** The camera: movement and rotation *)

Definition move (offset : vector_type) (c : camera) : camera :=
  set_position
    (vec (vec0 (m_position c) + vec0 offset)
         (vec1 (m_position c) + vec1 offset)
         (vec2 (m_position c) + vec2 offset)) c.

Definition move_relative (offset : vector_type) (c : camera) : camera :=
  let right_vector :=
    vector_normalize (vector_cross (m_direction c) (m_up c)) in
  let delta :=
    vec (- vec0 (m_direction c) * vec2 offset)
        (- vec1 (m_direction c) * vec2 offset)
        (- vec2 (m_direction c) * vec2 offset) in
  let delta :=
    vec (vec0 delta
         + (vec0 (m_up c) * vec1 offset - vec0 right_vector * vec0 offset))
        (vec1 delta
         + (vec1 (m_up c) * vec1 offset - vec1 right_vector * vec0 offset))
        (vec2 delta
         + (vec2 (m_up c) * vec1 offset - vec2 right_vector * vec0 offset)) in
  move delta c.

(** [q * v * conjugate(q)], the product both [rotate] and
    [set_orientation_taitbryan] write out at each use. *)
Definition sandwich (rotation v : quaternion_type) : quaternion_type :=
  quaternion_multiply (quaternion_multiply rotation v)
    (quaternion_conjugate rotation).

Definition rotate (rotation : quaternion_type) (c : camera) : camera :=
  let direction :=
    quat (vec0 (m_direction c)) (vec1 (m_direction c)) (vec2 (m_direction c))
      0 in
  let direction := sandwich rotation direction in
  let c :=
    assign_direction
      (vector_normalize
         (vec (quat0 direction) (quat1 direction) (quat2 direction))) c in
  let up := quat (vec0 (m_up c)) (vec1 (m_up c)) (vec2 (m_up c)) 0 in
  let up := sandwich rotation up in
  let c :=
    assign_up (vector_normalize (vec (quat0 up) (quat1 up) (quat2 up))) c in
  assign_matrix_dirty true (assign_view_dirty true c).

Definition rotate_axis (axis : vector_type) (angle : R) (c : camera)
    : camera :=
  let rotation :=
    quat (vec0 axis * sin (angle / 2))
         (vec1 axis * sin (angle / 2))
         (vec2 axis * sin (angle / 2))
         (cos (angle / 2)) in
  rotate rotation c.

Definition set_orientation_taitbryan (yaw pitch roll : R) (c : camera)
    : camera :=
  let direction := quat 0 0 (-1) 0 in
  let direction :=
    let rotation := quat 0 (sin (- yaw / 2)) 0 (cos (- yaw / 2)) in
    quaternion_normalize (sandwich rotation direction) in
  let right :=
    vector_normalize
      (vector_cross (vec 0 1 0)
         (vec (quat0 direction) (quat1 direction) (quat2 direction))) in
  let direction :=
    let rotation :=
      quat (vec0 right * sin (pitch / 2))
           (vec1 right * sin (pitch / 2))
           (vec2 right * sin (pitch / 2))
           (cos (pitch / 2)) in
    sandwich rotation direction in
  let c :=
    assign_direction
      (vector_normalize
         (vec (quat0 direction) (quat1 direction) (quat2 direction))) c in
  let up_vector :=
    vector_normalize (vector_cross (m_direction c) right) in
  let up_quaternion :=
    quat (vec0 up_vector) (vec1 up_vector) (vec2 up_vector) 0 in
  let up_quaternion :=
    let rotation :=
      quat (vec0 (m_direction c) * sin (roll / 2))
           (vec1 (m_direction c) * sin (roll / 2))
           (vec2 (m_direction c) * sin (roll / 2))
           (cos (roll / 2)) in
    sandwich rotation up_quaternion in
  let c :=
    assign_up
      (vector_normalize
         (vec (quat0 up_quaternion) (quat1 up_quaternion)
            (quat2 up_quaternion))) c in
  assign_matrix_dirty true (assign_view_dirty true c).

(** ** The camera: lazy recomputation

    [update] is a [const] member that writes the [mutable] caches and
    flags, so it is a function from the camera to the camera.  To speak of
    what a call recomputes, each of its three guarded blocks also reports
    that it ran. *)

Inductive recomputation : Type :=
  | projection_recomputed
  | view_recomputed
  | matrix_recomputed.

(** The block under "Update projection matrix". *)
Definition update_projection (c : camera) : camera * list recomputation :=
  if m_projection_dirty c then
    let c :=
      assign_projection
        (mat (1 / (m_aspect c * tan (m_fov c / 2))) 0 0 0
             0 (1 / tan (m_fov c / 2)) 0 0
             0 0 (- (m_far c + m_near c) / (m_far c - m_near c)) (-1)
             0 0 (- (2 * m_far c * m_near c) / (m_far c - m_near c)) 0) c in
    (assign_projection_dirty false c, [projection_recomputed])
  else (c, []).

(** The block under "Update view matrix". *)
Definition update_view (c : camera) : camera * list recomputation :=
  if m_view_dirty c then
    let d := m_direction c in
    let s := vector_normalize (vector_cross (m_direction c) (m_up c)) in
    let u := vector_cross s d in
    let c :=
      assign_view
        (mat (vec0 s) (vec0 u) (- vec0 d) 0
             (vec1 s) (vec1 u) (- vec1 d) 0
             (vec2 s) (vec2 u) (- vec2 d) 0
             0 0 0 1) c in
    let c :=
      assign_view
        (matrix_mult (m_view c)
           (mat 1 0 0 0
                0 1 0 0
                0 0 1 0
                (- vec0 (m_position c)) (- vec1 (m_position c))
                (- vec2 (m_position c)) 1)) c in
    (assign_view_dirty false c, [view_recomputed])
  else (c, []).

(** The block under "Update complete matrix". *)
Definition update_matrix (c : camera) : camera * list recomputation :=
  if m_matrix_dirty c then
    let c := assign_matrix (matrix_mult (m_projection c) (m_view c)) c in
    (assign_matrix_dirty false c, [matrix_recomputed])
  else (c, []).

Definition update (c : camera) : camera * list recomputation :=
  let '(c, t1) := update_projection c in
  let '(c, t2) := update_view c in
  let '(c, t3) := update_matrix c in
  (c, t1 ++ t2 ++ t3).

(** What a matrix query yields: the matrix returned by reference, the
    camera as the call leaves it, and what the call recomputed. *)
Record query : Type := Build_query {
  returned : matrix_type;
  after : camera;
  recomputed : list recomputation }.

Definition get_view (c : camera) : query :=
  let '(c, t) := update c in Build_query (m_view c) c t.

Definition get_projection (c : camera) : query :=
  let '(c, t) := update c in Build_query (m_projection c) c t.

Definition get_matrix (c : camera) : query :=
  let '(c, t) := update c in Build_query (m_matrix c) c t.

(** ** The camera: sequences of calls *)

(** The three constructors. *)
Inductive construction : Type :=
  | construct_default
  | construct_projection (fov aspect near_distance far_distance : R)
  | construct_full (fov aspect near_distance far_distance : R)
      (position direction up : vector_type).

Definition construct (p0 v0 m0 : matrix_type) (k : construction) : camera :=
  match k with
  | construct_default => camera_default p0 v0 m0
  | construct_projection f a n fr => camera_projection p0 v0 m0 f a n fr
  | construct_full f a n fr p d u => camera_full p0 v0 m0 f a n fr p d u
  end.

(** The public member functions that can change the object (the matrix
    queries change the mutable caches). *)
Inductive call : Type :=
  | call_set_fov (fov : R)
  | call_set_aspect (aspect : R)
  | call_set_near_distance (near_distance : R)
  | call_set_far_distance (far_distance : R)
  | call_set_position (position : vector_type)
  | call_set_direction (direction : vector_type)
  | call_set_up (up : vector_type)
  | call_move (offset : vector_type)
  | call_move_relative (offset : vector_type)
  | call_rotate (rotation : quaternion_type)
  | call_rotate_axis (axis : vector_type) (angle : R)
  | call_set_orientation_taitbryan (yaw pitch roll : R)
  | call_get_view
  | call_get_projection
  | call_get_matrix.

Definition exec (c : camera) (k : call) : camera :=
  match k with
  | call_set_fov x => set_fov x c
  | call_set_aspect x => set_aspect x c
  | call_set_near_distance x => set_near_distance x c
  | call_set_far_distance x => set_far_distance x c
  | call_set_position v => set_position v c
  | call_set_direction v => set_direction v c
  | call_set_up v => set_up v c
  | call_move v => move v c
  | call_move_relative v => move_relative v c
  | call_rotate q => rotate q c
  | call_rotate_axis v a => rotate_axis v a c
  | call_set_orientation_taitbryan y p r => set_orientation_taitbryan y p r c
  | call_get_view => after (get_view c)
  | call_get_projection => after (get_projection c)
  | call_get_matrix => after (get_matrix c)
  end.

Definition run (c : camera) (ks : list call) : camera := fold_left exec ks c.

(** ** The camera: notions used to state its properties *)

Definition squared_length (v : vector_type) : R :=
  vec0 v * vec0 v + vec1 v * vec1 v + vec2 v * vec2 v.

Definition squared_norm (q : quaternion_type) : R :=
  quat0 q * quat0 q + quat1 q * quat1 q + quat2 q * quat2 q
  + quat3 q * quat3 q.

(** The first three elements of a quaternion, which [rotate] and
    [set_orientation_taitbryan] copy into a vector. *)
Definition vector_part (q : quaternion_type) : vector_type :=
  vec (quat0 q) (quat1 q) (quat2 q).

(** The quaternion [{ axis * sin( angle / 2 ), cos( angle / 2 ) }]. *)
Definition axis_angle (axis : vector_type) (angle : R) : quaternion_type :=
  quat (vec0 axis * sin (angle / 2))
       (vec1 axis * sin (angle / 2))
       (vec2 axis * sin (angle / 2))
       (cos (angle / 2)).

(** The values the local variables of [set_orientation_taitbryan] take:
    [direction] after the first block, [right], the vector stored in
    [m_direction] and the vector stored in [m_up]. *)
Definition taitbryan_yawed (yaw : R) : quaternion_type :=
  quaternion_normalize
    (sandwich (quat 0 (sin (- yaw / 2)) 0 (cos (- yaw / 2)))
       (quat 0 0 (-1) 0)).

Definition taitbryan_right (yaw : R) : vector_type :=
  vector_normalize
    (vector_cross (vec 0 1 0) (vector_part (taitbryan_yawed yaw))).

Definition taitbryan_direction (yaw pitch : R) : vector_type :=
  vector_normalize
    (vector_part
       (sandwich (axis_angle (taitbryan_right yaw) pitch)
          (taitbryan_yawed yaw))).

Definition taitbryan_up (yaw pitch roll : R) : vector_type :=
  let up_vector :=
    vector_normalize
      (vector_cross (taitbryan_direction yaw pitch) (taitbryan_right yaw)) in
  vector_normalize
    (vector_part
       (sandwich (axis_angle (taitbryan_direction yaw pitch) roll)
          (quat (vec0 up_vector) (vec1 up_vector) (vec2 up_vector) 0))).

(** The position the specification expects of [move_relative]: the offset
    read as distances to the right, upwards and backwards. *)
Definition move_relative_expected (offset : vector_type) (c : camera)
    : vector_type :=
  let right := vector_normalize (vector_cross (m_direction c) (m_up c)) in
  vec (vec0 (m_position c) + vec0 offset * vec0 right
       + vec1 offset * vec0 (m_up c) - vec2 offset * vec0 (m_direction c))
      (vec1 (m_position c) + vec0 offset * vec1 right
       + vec1 offset * vec1 (m_up c) - vec2 offset * vec1 (m_direction c))
      (vec2 (m_position c) + vec0 offset * vec2 right
       + vec1 offset * vec2 (m_up c) - vec2 offset * vec2 (m_direction c)).

(** The three matrix queries. *)
Definition queries : list (camera -> query) :=
  [get_view; get_projection; get_matrix].

(** A matrix to stand for indeterminate cache contents in examples. *)
Definition matrix_zero : matrix_type :=
  mat 0 0 0 0 0 0 0 0 0 0 0 0 0 0 0 0.

(** ** The camera: further notions

    The matrices [update] computes, as functions of the parameters: the
    right-hand sides of its first two assignments. *)
Definition projection_of (c : camera) : matrix_type :=
  mat (1 / (m_aspect c * tan (m_fov c / 2))) 0 0 0
      0 (1 / tan (m_fov c / 2)) 0 0
      0 0 (- (m_far c + m_near c) / (m_far c - m_near c)) (-1)
      0 0 (- (2 * m_far c * m_near c) / (m_far c - m_near c)) 0.

Definition view_of (c : camera) : matrix_type :=
  let d := m_direction c in
  let s := vector_normalize (vector_cross (m_direction c) (m_up c)) in
  let u := vector_cross s d in
  matrix_mult
    (mat (vec0 s) (vec0 u) (- vec0 d) 0
         (vec1 s) (vec1 u) (- vec1 d) 0
         (vec2 s) (vec2 u) (- vec2 d) 0
         0 0 0 1)
    (mat 1 0 0 0
         0 1 0 0
         0 0 1 0
         (- vec0 (m_position c)) (- vec1 (m_position c))
         (- vec2 (m_position c)) 1).

(** No cache that is marked clean is stale. *)
Definition current (c : camera) : Prop :=
  (m_projection_dirty c = false -> m_projection c = projection_of c) /\
  (m_view_dirty c = false -> m_view c = view_of c) /\
  (m_matrix_dirty c = false ->
   m_projection_dirty c = false /\ m_view_dirty c = false /\
   m_matrix c = matrix_mult (projection_of c) (view_of c)).


End Camera.

(** * The camera over its template parameter

    [gls::camera<T>] is a template over the type [T] of its scalars.  The
    module [Camera] above embeds it at the real numbers, which is exact
    for what does not depend on rounding.  What follows embeds the same
    source over an arbitrary arithmetic: a type with the operations the
    source applies to [T], of which nothing is assumed.  A statement
    proved over every arithmetic holds of [camera<float>] and
    [camera<double>] with their rounding, their infinities and their NaN,
    whose [==] is not reflexive. *)

Module Scalar.

(** The operations of [T] the source uses: the conversion of an integer
    literal, the constant [pi], [+], [-], [*], [/], unary [-],
    [std::sqrt] and [==]. *)
Record arithmetic : Type := Build_arithmetic {
  scalar : Type;
  of_int : Z -> scalar;
  pi : scalar;
  plus : scalar -> scalar -> scalar;
  minus : scalar -> scalar -> scalar;
  times : scalar -> scalar -> scalar;
  divide : scalar -> scalar -> scalar;
  negate : scalar -> scalar;
  square_root : scalar -> scalar;
  equal : scalar -> scalar -> bool }.

Arguments of_int {a} n%_Z.
Arguments pi {a}.
Arguments plus {a} x y.
Arguments minus {a} x y.
Arguments times {a} x y.
Arguments divide {a} x y.
Arguments negate {a} x.
Arguments square_root {a} x.
Arguments equal {a} x y.

(** [std::sin], [std::cos] and [std::tan] on [T], as the C library of the
    platform computes them. *)
Class library (A : arithmetic) : Type := Build_library {
  sine : scalar A -> scalar A;
  cosine : scalar A -> scalar A;
  tangent : scalar A -> scalar A }.

Declare Scope scalar_scope.
Delimit Scope scalar_scope with scalar.
Notation "x + y" := (plus x y) : scalar_scope.
Notation "x - y" := (minus x y) : scalar_scope.
Notation "x * y" := (times x y) : scalar_scope.
Notation "x / y" := (divide x y) : scalar_scope.
Notation "- x" := (negate x) : scalar_scope.
Notation "x == y" := (equal x y) (at level 70, no associativity)
  : scalar_scope.

(** The idealised arithmetic of the real numbers, with the real
    functions for the library. *)
Definition real_equal (x y : R) : bool :=
  if Req_dec_T x y then true else false.

Definition reals : arithmetic :=
  Build_arithmetic R IZR (314159265359 / 100000000000)%R
    Rplus Rminus Rmult Rdiv Ropp sqrt real_equal.

#[export] Instance real_library : library reals :=
  Build_library reals sin cos tan.

Import PrimFloat.

(** [double]: the binary64 numbers of IEEE 754 with round to nearest
    even.  [pi] is the double nearest to 3.14159265359, and
    [int_to_double] converts an integer literal of the source, which is
    less than 2^63 in magnitude. *)
Definition int_to_double (n : Z) : PrimFloat.float :=
  match n with
  | Z0 => PrimFloat.zero
  | Zpos _ => PrimFloat.of_uint63 (Uint63.of_Z n)
  | Zneg _ => PrimFloat.opp (PrimFloat.of_uint63 (Uint63.of_Z (- n)))
  end.

Definition binary64 : arithmetic :=
  Build_arithmetic PrimFloat.float int_to_double 0x1.921fb54442eeap+1%float
    PrimFloat.add PrimFloat.sub PrimFloat.mul PrimFloat.div PrimFloat.opp
    PrimFloat.sqrt PrimFloat.eqb.

(** [std::abs( x - y ) <= tolerance] on doubles. *)
Definition within (tolerance x y : PrimFloat.float) : bool :=
  PrimFloat.leb (PrimFloat.abs (PrimFloat.sub x y)) tolerance.

End Scalar.

Module CameraT.

Import Scalar.

Local Open Scope scalar_scope.

Section Over.

Context {A : arithmetic}.

(** [std::array<value_type, 3>] *)
Record vector_type : Type :=
  vec { vec0 : scalar A; vec1 : scalar A; vec2 : scalar A }.

(** [std::array<value_type, 4>] *)
Record quaternion_type : Type :=
  quat { quat0 : scalar A; quat1 : scalar A; quat2 : scalar A;
         quat3 : scalar A }.

(** [std::array<value_type, 16>]; the field [matN] is the element [m[N]]. *)
Record matrix_type : Type := mat {
  mat0 : scalar A; mat1 : scalar A; mat2 : scalar A; mat3 : scalar A;
  mat4 : scalar A; mat5 : scalar A; mat6 : scalar A; mat7 : scalar A;
  mat8 : scalar A; mat9 : scalar A; mat10 : scalar A; mat11 : scalar A;
  mat12 : scalar A; mat13 : scalar A; mat14 : scalar A; mat15 : scalar A }.

(** [operator==] on [std::array]: element by element. *)
Definition vector_eq (v w : vector_type) : bool :=
  (vec0 v == vec0 w) && (vec1 v == vec1 w) && (vec2 v == vec2 w).

(** The data members of [camera], in the order of the class. *)
Record camera : Type := Build_camera {
  m_projection : matrix_type;
  m_view : matrix_type;
  m_matrix : matrix_type;
  m_position : vector_type;
  m_direction : vector_type;
  m_up : vector_type;
  m_fov : scalar A;
  m_aspect : scalar A;
  m_near : scalar A;
  m_far : scalar A;
  m_projection_dirty : bool;
  m_view_dirty : bool;
  m_matrix_dirty : bool }.

(** Assignments to single members. *)
Definition assign_projection (p : matrix_type) (c : camera) : camera :=
  Build_camera p (m_view c) (m_matrix c) (m_position c) (m_direction c)
    (m_up c) (m_fov c) (m_aspect c) (m_near c) (m_far c)
    (m_projection_dirty c) (m_view_dirty c) (m_matrix_dirty c).

Definition assign_view (v : matrix_type) (c : camera) : camera :=
  Build_camera (m_projection c) v (m_matrix c) (m_position c) (m_direction c)
    (m_up c) (m_fov c) (m_aspect c) (m_near c) (m_far c)
    (m_projection_dirty c) (m_view_dirty c) (m_matrix_dirty c).

Definition assign_matrix (m : matrix_type) (c : camera) : camera :=
  Build_camera (m_projection c) (m_view c) m (m_position c) (m_direction c)
    (m_up c) (m_fov c) (m_aspect c) (m_near c) (m_far c)
    (m_projection_dirty c) (m_view_dirty c) (m_matrix_dirty c).

Definition assign_position (p : vector_type) (c : camera) : camera :=
  Build_camera (m_projection c) (m_view c) (m_matrix c) p (m_direction c)
    (m_up c) (m_fov c) (m_aspect c) (m_near c) (m_far c)
    (m_projection_dirty c) (m_view_dirty c) (m_matrix_dirty c).

Definition assign_direction (d : vector_type) (c : camera) : camera :=
  Build_camera (m_projection c) (m_view c) (m_matrix c) (m_position c) d
    (m_up c) (m_fov c) (m_aspect c) (m_near c) (m_far c)
    (m_projection_dirty c) (m_view_dirty c) (m_matrix_dirty c).

Definition assign_up (u : vector_type) (c : camera) : camera :=
  Build_camera (m_projection c) (m_view c) (m_matrix c) (m_position c)
    (m_direction c) u (m_fov c) (m_aspect c) (m_near c) (m_far c)
    (m_projection_dirty c) (m_view_dirty c) (m_matrix_dirty c).

Definition assign_fov (x : scalar A) (c : camera) : camera :=
  Build_camera (m_projection c) (m_view c) (m_matrix c) (m_position c)
    (m_direction c) (m_up c) x (m_aspect c) (m_near c) (m_far c)
    (m_projection_dirty c) (m_view_dirty c) (m_matrix_dirty c).

Definition assign_aspect (x : scalar A) (c : camera) : camera :=
  Build_camera (m_projection c) (m_view c) (m_matrix c) (m_position c)
    (m_direction c) (m_up c) (m_fov c) x (m_near c) (m_far c)
    (m_projection_dirty c) (m_view_dirty c) (m_matrix_dirty c).

Definition assign_near (x : scalar A) (c : camera) : camera :=
  Build_camera (m_projection c) (m_view c) (m_matrix c) (m_position c)
    (m_direction c) (m_up c) (m_fov c) (m_aspect c) x (m_far c)
    (m_projection_dirty c) (m_view_dirty c) (m_matrix_dirty c).

Definition assign_far (x : scalar A) (c : camera) : camera :=
  Build_camera (m_projection c) (m_view c) (m_matrix c) (m_position c)
    (m_direction c) (m_up c) (m_fov c) (m_aspect c) (m_near c) x
    (m_projection_dirty c) (m_view_dirty c) (m_matrix_dirty c).

Definition assign_projection_dirty (b : bool) (c : camera) : camera :=
  Build_camera (m_projection c) (m_view c) (m_matrix c) (m_position c)
    (m_direction c) (m_up c) (m_fov c) (m_aspect c) (m_near c) (m_far c)
    b (m_view_dirty c) (m_matrix_dirty c).

Definition assign_view_dirty (b : bool) (c : camera) : camera :=
  Build_camera (m_projection c) (m_view c) (m_matrix c) (m_position c)
    (m_direction c) (m_up c) (m_fov c) (m_aspect c) (m_near c) (m_far c)
    (m_projection_dirty c) b (m_matrix_dirty c).

Definition assign_matrix_dirty (b : bool) (c : camera) : camera :=
  Build_camera (m_projection c) (m_view c) (m_matrix c) (m_position c)
    (m_direction c) (m_up c) (m_fov c) (m_aspect c) (m_near c) (m_far c)
    (m_projection_dirty c) (m_view_dirty c) b.

(** The private helpers.  A sum of several terms is taken from left to
    right, as the expression of the source is. *)
Definition vector_length (v : vector_type) : scalar A :=
  square_root (vec0 v * vec0 v + vec1 v * vec1 v + vec2 v * vec2 v).

Definition vector_normalize (v : vector_type) : vector_type :=
  let length := vector_length v in
  vec (vec0 v / length) (vec1 v / length) (vec2 v / length).

Definition vector_dot (v w : vector_type) : scalar A :=
  vec0 v * vec0 w + vec1 v * vec1 w + vec2 v * vec2 w.

Definition vector_cross (v w : vector_type) : vector_type :=
  vec (vec1 v * vec2 w - vec2 v * vec1 w)
      (vec2 v * vec0 w - vec0 v * vec2 w)
      (vec0 v * vec1 w - vec1 v * vec0 w).

Definition quaternion_length (q : quaternion_type) : scalar A :=
  square_root
    (quat0 q * quat0 q + quat1 q * quat1 q + quat2 q * quat2 q
     + quat3 q * quat3 q).

Definition quaternion_normalize (q : quaternion_type) : quaternion_type :=
  let length := quaternion_length q in
  quat (quat0 q / length) (quat1 q / length) (quat2 q / length)
       (quat3 q / length).

Definition quaternion_conjugate (q : quaternion_type) : quaternion_type :=
  quat (- quat0 q) (- quat1 q) (- quat2 q) (quat3 q).

Definition quaternion_multiply (q r : quaternion_type) : quaternion_type :=
  quat
    (quat0 q * quat3 r + quat3 q * quat0 r + quat1 q * quat2 r - quat2 q * quat1 r)
    (quat1 q * quat3 r + quat3 q * quat1 r + quat2 q * quat0 r - quat0 q * quat2 r)
    (quat2 q * quat3 r + quat3 q * quat2 r + quat0 q * quat1 r - quat1 q * quat0 r)
    (quat3 q * quat3 r - quat0 q * quat0 r - quat1 q * quat1 r - quat2 q * quat2 r).

Definition matrix_mult (m n : matrix_type) : matrix_type :=
  mat
    (mat0 m * mat0 n + mat4 m * mat1 n + mat8 m * mat2 n + mat12 m * mat3 n)
    (mat1 m * mat0 n + mat5 m * mat1 n + mat9 m * mat2 n + mat13 m * mat3 n)
    (mat2 m * mat0 n + mat6 m * mat1 n + mat10 m * mat2 n + mat14 m * mat3 n)
    (mat3 m * mat0 n + mat7 m * mat1 n + mat11 m * mat2 n + mat15 m * mat3 n)
    (mat0 m * mat4 n + mat4 m * mat5 n + mat8 m * mat6 n + mat12 m * mat7 n)
    (mat1 m * mat4 n + mat5 m * mat5 n + mat9 m * mat6 n + mat13 m * mat7 n)
    (mat2 m * mat4 n + mat6 m * mat5 n + mat10 m * mat6 n + mat14 m * mat7 n)
    (mat3 m * mat4 n + mat7 m * mat5 n + mat11 m * mat6 n + mat15 m * mat7 n)
    (mat0 m * mat8 n + mat4 m * mat9 n + mat8 m * mat10 n + mat12 m * mat11 n)
    (mat1 m * mat8 n + mat5 m * mat9 n + mat9 m * mat10 n + mat13 m * mat11 n)
    (mat2 m * mat8 n + mat6 m * mat9 n + mat10 m * mat10 n + mat14 m * mat11 n)
    (mat3 m * mat8 n + mat7 m * mat9 n + mat11 m * mat10 n + mat15 m * mat11 n)
    (mat0 m * mat12 n + mat4 m * mat13 n + mat8 m * mat14 n + mat12 m * mat15 n)
    (mat1 m * mat12 n + mat5 m * mat13 n + mat9 m * mat14 n + mat13 m * mat15 n)
    (mat2 m * mat12 n + mat6 m * mat13 n + mat10 m * mat14 n + mat14 m * mat15 n)
    (mat3 m * mat12 n + mat7 m * mat13 n + mat11 m * mat14 n + mat15 m * mat15 n).

(** The default member initialisers of the position and the orientation:
    [{ 0, 0, 0 }], [{ 0, 0, -1 }] and [{ 0, 1, 0 }]. *)
Definition default_position : vector_type :=
  vec (of_int 0) (of_int 0) (of_int 0).

Definition default_direction : vector_type :=
  vec (of_int 0) (of_int 0) (of_int (-1)).

Definition default_up : vector_type :=
  vec (of_int 0) (of_int 1) (of_int 0).

(** The constructors.  The three cached matrices have no initialiser, so
    a constructor leaves them indeterminate: their contents are the
    arguments [p0], [v0] and [m0]. *)
Definition camera_default (p0 v0 m0 : matrix_type) : camera :=
  Build_camera p0 v0 m0
    default_position default_direction default_up
    (pi * of_int 90 / of_int 180) (of_int 1) (of_int 1) (of_int 1000)
    true true true.

Definition camera_projection (p0 v0 m0 : matrix_type)
    (fov aspect near_distance far_distance : scalar A) : camera :=
  Build_camera p0 v0 m0
    default_position default_direction default_up
    fov aspect near_distance far_distance
    true true true.

Definition camera_full (p0 v0 m0 : matrix_type)
    (fov aspect near_distance far_distance : scalar A)
    (position direction up : vector_type) : camera :=
  Build_camera p0 v0 m0
    position (vector_normalize direction) (vector_normalize up)
    fov aspect near_distance far_distance
    true true true.

(** Getters and setters of the parameters. *)
Definition get_fov (c : camera) : scalar A := m_fov c.
Definition get_aspect (c : camera) : scalar A := m_aspect c.
Definition get_near_distance (c : camera) : scalar A := m_near c.
Definition get_far_distance (c : camera) : scalar A := m_far c.
Definition get_position (c : camera) : vector_type := m_position c.
Definition get_direction (c : camera) : vector_type := m_direction c.
Definition get_up (c : camera) : vector_type := m_up c.

Definition set_fov (fov : scalar A) (c : camera) : camera :=
  if m_fov c == fov then c
  else assign_matrix_dirty true
         (assign_projection_dirty true (assign_fov fov c)).

Definition set_aspect (aspect : scalar A) (c : camera) : camera :=
  if m_aspect c == aspect then c
  else assign_matrix_dirty true
         (assign_projection_dirty true (assign_aspect aspect c)).

Definition set_near_distance (near_distance : scalar A) (c : camera)
    : camera :=
  if m_near c == near_distance then c
  else assign_matrix_dirty true
         (assign_projection_dirty true (assign_near near_distance c)).

Definition set_far_distance (far_distance : scalar A) (c : camera)
    : camera :=
  if m_far c == far_distance then c
  else assign_matrix_dirty true
         (assign_projection_dirty true (assign_far far_distance c)).

Definition set_position (position : vector_type) (c : camera) : camera :=
  if vector_eq (m_position c) position then c
  else assign_matrix_dirty true
         (assign_view_dirty true (assign_position position c)).

Definition set_direction (direction : vector_type) (c : camera) : camera :=
  let new_direction := vector_normalize direction in
  if vector_eq (m_direction c) new_direction then c
  else assign_matrix_dirty true
         (assign_view_dirty true (assign_direction new_direction c)).

Definition set_up (up : vector_type) (c : camera) : camera :=
  let new_up := vector_normalize up in
  if vector_eq (m_up c) new_up then c
  else assign_matrix_dirty true
         (assign_view_dirty true (assign_up new_up c)).

(** Movement and rotation. *)
Definition move (offset : vector_type) (c : camera) : camera :=
  set_position
    (vec (vec0 (m_position c) + vec0 offset)
         (vec1 (m_position c) + vec1 offset)
         (vec2 (m_position c) + vec2 offset)) c.

Definition move_relative (offset : vector_type) (c : camera) : camera :=
  let right_vector :=
    vector_normalize (vector_cross (m_direction c) (m_up c)) in
  let delta :=
    vec ((- vec0 (m_direction c)) * vec2 offset)
        ((- vec1 (m_direction c)) * vec2 offset)
        ((- vec2 (m_direction c)) * vec2 offset) in
  let delta :=
    vec (vec0 delta
         + (vec0 (m_up c) * vec1 offset - vec0 right_vector * vec0 offset))
        (vec1 delta
         + (vec1 (m_up c) * vec1 offset - vec1 right_vector * vec0 offset))
        (vec2 delta
         + (vec2 (m_up c) * vec1 offset - vec2 right_vector * vec0 offset)) in
  move delta c.

(** [quaternion_multiply( quaternion_multiply( rotation, v ),
    quaternion_conjugate( rotation ) )], which [rotate] and
    [set_orientation_taitbryan] write out at each use. *)
Definition sandwich (rotation v : quaternion_type) : quaternion_type :=
  quaternion_multiply (quaternion_multiply rotation v)
    (quaternion_conjugate rotation).

Definition rotate (rotation : quaternion_type) (c : camera) : camera :=
  let direction :=
    quat (vec0 (m_direction c)) (vec1 (m_direction c)) (vec2 (m_direction c))
      (of_int 0) in
  let direction := sandwich rotation direction in
  let c :=
    assign_direction
      (vector_normalize
         (vec (quat0 direction) (quat1 direction) (quat2 direction))) c in
  let up :=
    quat (vec0 (m_up c)) (vec1 (m_up c)) (vec2 (m_up c)) (of_int 0) in
  let up := sandwich rotation up in
  let c :=
    assign_up (vector_normalize (vec (quat0 up) (quat1 up) (quat2 up))) c in
  assign_matrix_dirty true (assign_view_dirty true c).

Context {L : library A}.

Definition rotate_axis (axis : vector_type) (angle : scalar A) (c : camera)
    : camera :=
  let rotation :=
    quat (vec0 axis * sine (angle / of_int 2))
         (vec1 axis * sine (angle / of_int 2))
         (vec2 axis * sine (angle / of_int 2))
         (cosine (angle / of_int 2)) in
  rotate rotation c.

Definition set_orientation_taitbryan (yaw pitch roll : scalar A)
    (c : camera) : camera :=
  let direction := quat (of_int 0) (of_int 0) (of_int (-1)) (of_int 0) in
  let direction :=
    let rotation :=
      quat (of_int 0) (sine ((- yaw) / of_int 2)) (of_int 0)
        (cosine ((- yaw) / of_int 2)) in
    quaternion_normalize (sandwich rotation direction) in
  let right :=
    vector_normalize
      (vector_cross (vec (of_int 0) (of_int 1) (of_int 0))
         (vec (quat0 direction) (quat1 direction) (quat2 direction))) in
  let direction :=
    let rotation :=
      quat (vec0 right * sine (pitch / of_int 2))
           (vec1 right * sine (pitch / of_int 2))
           (vec2 right * sine (pitch / of_int 2))
           (cosine (pitch / of_int 2)) in
    sandwich rotation direction in
  let c :=
    assign_direction
      (vector_normalize
         (vec (quat0 direction) (quat1 direction) (quat2 direction))) c in
  let up_vector :=
    vector_normalize (vector_cross (m_direction c) right) in
  let up_quaternion :=
    quat (vec0 up_vector) (vec1 up_vector) (vec2 up_vector) (of_int 0) in
  let up_quaternion :=
    let rotation :=
      quat (vec0 (m_direction c) * sine (roll / of_int 2))
           (vec1 (m_direction c) * sine (roll / of_int 2))
           (vec2 (m_direction c) * sine (roll / of_int 2))
           (cosine (roll / of_int 2)) in
    sandwich rotation up_quaternion in
  let c :=
    assign_up
      (vector_normalize
         (vec (quat0 up_quaternion) (quat1 up_quaternion)
            (quat2 up_quaternion))) c in
  assign_matrix_dirty true (assign_view_dirty true c).

(** Lazy recomputation.  [update] is a [const] member that writes the
    [mutable] caches and flags; each of its three guarded blocks also
    reports that it ran. *)
Inductive recomputation : Type :=
  | projection_recomputed
  | view_recomputed
  | matrix_recomputed.

(** The matrices the first two blocks of [update] assign, as functions of
    the parameters. *)
Definition projection_of (c : camera) : matrix_type :=
  mat (of_int 1 / (m_aspect c * tangent (m_fov c / of_int 2)))
        (of_int 0) (of_int 0) (of_int 0)
      (of_int 0) (of_int 1 / tangent (m_fov c / of_int 2))
        (of_int 0) (of_int 0)
      (of_int 0) (of_int 0)
        ((- (m_far c + m_near c)) / (m_far c - m_near c)) (of_int (-1))
      (of_int 0) (of_int 0)
        ((- (of_int 2 * m_far c * m_near c)) / (m_far c - m_near c))
        (of_int 0).

Definition view_of (c : camera) : matrix_type :=
  let d := m_direction c in
  let s := vector_normalize (vector_cross (m_direction c) (m_up c)) in
  let u := vector_cross s d in
  matrix_mult
    (mat (vec0 s) (vec0 u) (- vec0 d) (of_int 0)
         (vec1 s) (vec1 u) (- vec1 d) (of_int 0)
         (vec2 s) (vec2 u) (- vec2 d) (of_int 0)
         (of_int 0) (of_int 0) (of_int 0) (of_int 1))
    (mat (of_int 1) (of_int 0) (of_int 0) (of_int 0)
         (of_int 0) (of_int 1) (of_int 0) (of_int 0)
         (of_int 0) (of_int 0) (of_int 1) (of_int 0)
         (- vec0 (m_position c)) (- vec1 (m_position c))
         (- vec2 (m_position c)) (of_int 1)).

(** The block under "Update projection matrix". *)
Definition update_projection (c : camera) : camera * list recomputation :=
  if m_projection_dirty c then
    let c :=
      assign_projection
        (mat (of_int 1 / (m_aspect c * tangent (m_fov c / of_int 2)))
               (of_int 0) (of_int 0) (of_int 0)
             (of_int 0) (of_int 1 / tangent (m_fov c / of_int 2))
               (of_int 0) (of_int 0)
             (of_int 0) (of_int 0)
               ((- (m_far c + m_near c)) / (m_far c - m_near c))
               (of_int (-1))
             (of_int 0) (of_int 0)
               ((- (of_int 2 * m_far c * m_near c)) / (m_far c - m_near c))
               (of_int 0)) c in
    (assign_projection_dirty false c, [projection_recomputed])
  else (c, []).

(** The block under "Update view matrix". *)
Definition update_view (c : camera) : camera * list recomputation :=
  if m_view_dirty c then
    let d := m_direction c in
    let s := vector_normalize (vector_cross (m_direction c) (m_up c)) in
    let u := vector_cross s d in
    let c :=
      assign_view
        (mat (vec0 s) (vec0 u) (- vec0 d) (of_int 0)
             (vec1 s) (vec1 u) (- vec1 d) (of_int 0)
             (vec2 s) (vec2 u) (- vec2 d) (of_int 0)
             (of_int 0) (of_int 0) (of_int 0) (of_int 1)) c in
    let c :=
      assign_view
        (matrix_mult (m_view c)
           (mat (of_int 1) (of_int 0) (of_int 0) (of_int 0)
                (of_int 0) (of_int 1) (of_int 0) (of_int 0)
                (of_int 0) (of_int 0) (of_int 1) (of_int 0)
                (- vec0 (m_position c)) (- vec1 (m_position c))
                (- vec2 (m_position c)) (of_int 1))) c in
    (assign_view_dirty false c, [view_recomputed])
  else (c, []).

(** The block under "Update complete matrix". *)
Definition update_matrix (c : camera) : camera * list recomputation :=
  if m_matrix_dirty c then
    let c := assign_matrix (matrix_mult (m_projection c) (m_view c)) c in
    (assign_matrix_dirty false c, [matrix_recomputed])
  else (c, []).

Definition update (c : camera) : camera * list recomputation :=
  let '(c, t1) := update_projection c in
  let '(c, t2) := update_view c in
  let '(c, t3) := update_matrix c in
  (c, t1 ++ t2 ++ t3).

(** What a matrix query yields: the matrix returned by reference, the
    camera as the call leaves it, and what the call recomputed. *)
Record query : Type := Build_query {
  returned : matrix_type;
  after : camera;
  recomputed : list recomputation }.

Definition get_view (c : camera) : query :=
  let '(c, t) := update c in Build_query (m_view c) c t.

Definition get_projection (c : camera) : query :=
  let '(c, t) := update c in Build_query (m_projection c) c t.

Definition get_matrix (c : camera) : query :=
  let '(c, t) := update c in Build_query (m_matrix c) c t.

Definition queries : list (camera -> query) :=
  [get_view; get_projection; get_matrix].

(** Sequences of calls: the three constructors and the public member
    functions that can change the object. *)
Inductive construction : Type :=
  | construct_default
  | construct_projection (fov aspect near_distance far_distance : scalar A)
  | construct_full (fov aspect near_distance far_distance : scalar A)
      (position direction up : vector_type).

Definition construct (p0 v0 m0 : matrix_type) (k : construction) : camera :=
  match k with
  | construct_default => camera_default p0 v0 m0
  | construct_projection f a n fr => camera_projection p0 v0 m0 f a n fr
  | construct_full f a n fr p d u => camera_full p0 v0 m0 f a n fr p d u
  end.

Inductive call : Type :=
  | call_set_fov (fov : scalar A)
  | call_set_aspect (aspect : scalar A)
  | call_set_near_distance (near_distance : scalar A)
  | call_set_far_distance (far_distance : scalar A)
  | call_set_position (position : vector_type)
  | call_set_direction (direction : vector_type)
  | call_set_up (up : vector_type)
  | call_move (offset : vector_type)
  | call_move_relative (offset : vector_type)
  | call_rotate (rotation : quaternion_type)
  | call_rotate_axis (axis : vector_type) (angle : scalar A)
  | call_set_orientation_taitbryan (yaw pitch roll : scalar A)
  | call_get_view
  | call_get_projection
  | call_get_matrix.

Definition exec (c : camera) (k : call) : camera :=
  match k with
  | call_set_fov x => set_fov x c
  | call_set_aspect x => set_aspect x c
  | call_set_near_distance x => set_near_distance x c
  | call_set_far_distance x => set_far_distance x c
  | call_set_position v => set_position v c
  | call_set_direction v => set_direction v c
  | call_set_up v => set_up v c
  | call_move v => move v c
  | call_move_relative v => move_relative v c
  | call_rotate q => rotate q c
  | call_rotate_axis v a => rotate_axis v a c
  | call_set_orientation_taitbryan y p r => set_orientation_taitbryan y p r c
  | call_get_view => after (get_view c)
  | call_get_projection => after (get_projection c)
  | call_get_matrix => after (get_matrix c)
  end.

Definition run (c : camera) (ks : list call) : camera := fold_left exec ks c.

(** ** Notions used to state the properties *)

(** The element [m[i]] of a matrix. *)
Definition element (m : matrix_type) (i : nat) : scalar A :=
  match i with
  | 0 => mat0 m | 1 => mat1 m | 2 => mat2 m | 3 => mat3 m
  | 4 => mat4 m | 5 => mat5 m | 6 => mat6 m | 7 => mat7 m
  | 8 => mat8 m | 9 => mat9 m | 10 => mat10 m | 11 => mat11 m
  | 12 => mat12 m | 13 => mat13 m | 14 => mat14 m | _ => mat15 m
  end%nat.

(** The matrix with the elements [f 0], ..., [f 15]. *)
Definition tabulate (f : nat -> scalar A) : matrix_type :=
  mat (f 0%nat) (f 1%nat) (f 2%nat) (f 3%nat) (f 4%nat) (f 5%nat) (f 6%nat)
    (f 7%nat) (f 8%nat) (f 9%nat) (f 10%nat) (f 11%nat) (f 12%nat)
    (f 13%nat) (f 14%nat) (f 15%nat).

(** The product of two 4x4 matrices as the specification computes it on
    its own, for matrices stored by columns: the element in row [r] and
    column [c] of a matrix [m] is [m[4 * c + r]], and the element of the
    product in row [r] and column [c] is the sum over [k = 0, 1, 2, 3] of
    the products of the element of [m] in row [r], column [k] and the
    element of [n] in row [k], column [c], added in this order. *)
Definition entry (m : matrix_type) (r c : nat) : scalar A :=
  element m (4 * c + r)%nat.

Definition product (m n : matrix_type) : matrix_type :=
  tabulate (fun i =>
    let r := (i mod 4)%nat in
    let c := (i / 4)%nat in
    entry m r 0 * entry n 0 c + entry m r 1 * entry n 1 c
    + entry m r 2 * entry n 2 c + entry m r 3 * entry n 3 c).

(** A matrix to stand for indeterminate cache contents in examples. *)
Definition matrix_zero : matrix_type :=
  tabulate (fun _ => of_int 0).

(** No cache that is marked clean is stale, and a clean combined matrix
    is the product of clean projection and view matrices. *)
Definition current (c : camera) : Prop :=
  (m_projection_dirty c = false -> m_projection c = projection_of c) /\
  (m_view_dirty c = false -> m_view c = view_of c) /\
  (m_matrix_dirty c = false ->
   m_projection_dirty c = false /\ m_view_dirty c = false /\
   m_matrix c = matrix_mult (m_projection c) (m_view c)).



End Over.

Arguments vector_type : clear implicits.
Arguments quaternion_type : clear implicits.
Arguments matrix_type : clear implicits.
Arguments camera : clear implicits.
Arguments query : clear implicits.
Arguments construction : clear implicits.
Arguments call : clear implicits.

End CameraT.

(** ** The camera on doubles: notions used to state what goes wrong *)

Module CameraDouble.

Import Scalar CameraT PrimFloat.

(** Vectors and quaternions of doubles. *)
Definition vector (x y z : float) : vector_type binary64 :=
  vec (A := binary64) x y z.


(** The matrix that scales space by a factor. *)
Definition scaling (x : float) : matrix_type binary64 :=
  mat (A := binary64) x zero zero zero zero x zero zero zero zero x zero
    zero zero zero one.

(** The double nearest to 1e-5. *)
Definition tolerance : float := 0x1.4f8b588e368f1p-17%float.


End CameraDouble.

(** ** The resource handle [gls::object<Generator, Deleter>]

    A run of a program that uses handles is a state: the [m_name] of every
    handle constructed so far, in order of construction ([None] once its
    destructor has run), and the arguments the [Deleter] was called with,
    oldest first.  A handle is referred to by its position.  Using a
    handle that was never constructed, or whose lifetime has ended, has no
    defined behaviour and is the error [None]. *)

Module Object.

Local Open Scope Z_scope.

(** [GLuint], an unsigned 32-bit integer; no arithmetic is done on it. *)
Definition GLuint : Type := Z.

Record state : Type := Build_state {
  objects : list (option GLuint);
  deleted : list GLuint }.

Definition initial : state := Build_state [] [].

(** State and error. *)
Definition M (A : Type) : Type := state -> option (A * state).

Definition ret {A : Type} (a : A) : M A := fun s => Some (a, s).

Definition bind {A B : Type} (m : M A) (k : A -> M B) : M B :=
  fun s => match m s with
           | Some (a, s') => k a s'
           | None => None
           end.

Notation "x <- m ;; k" := (bind m (fun x => k))
  (at level 61, m at next level, right associativity).
Notation "m ;;; k" := (bind m (fun _ => k))
  (at level 61, right associativity).

Fixpoint update_at {A : Type} (i : nat) (x : A) (l : list A) : list A :=
  match l, i with
  | [], _ => []
  | _ :: t, O => x :: t
  | h :: t, S j => h :: update_at j x t
  end.

(** Reading and writing the member [m_name] of a live handle. *)
Definition load (this : nat) : M GLuint :=
  fun s => match nth_error (objects s) this with
           | Some (Some n) => Some (n, s)
           | _ => None
           end.

Definition store (this : nat) (n : GLuint) : M unit :=
  fun s => match nth_error (objects s) this with
           | Some (Some _) =>
               Some (tt, Build_state (update_at this (Some n) (objects s))
                           (deleted s))
           | _ => None
           end.

(** Storage for one more handle, its [m_name] initialised to [n]. *)
Definition allocate (n : GLuint) : M nat :=
  fun s => Some (length (objects s),
                 Build_state (objects s ++ [Some n]) (deleted s)).

(** The end of the lifetime of a handle. *)
Definition release (this : nat) : M unit :=
  fun s => match nth_error (objects s) this with
           | Some (Some _) =>
               Some (tt, Build_state (update_at this None (objects s))
                           (deleted s))
           | _ => None
           end.

(** [Deleter( 1, &n )]: the call is recorded. *)
Definition Deleter (n : GLuint) : M unit :=
  fun s => Some (tt, Build_state (objects s) (deleted s ++ [n])).

(** [std::swap( m_name, other.m_name )] *)
Definition swap (this other : nat) : M unit :=
  a <- load this ;;
  b <- load other ;;
  store this b ;;;
  store other a.

(** [object()]: [Generator( 1, &m_name )] writes the name [generated],
    chosen by the GL. *)
Definition default_construct (generated : GLuint) : M nat :=
  allocate generated.

(** [~object()] *)
Definition destroy (this : nat) : M unit :=
  n <- load this ;;
  Deleter n ;;;
  release this.

(** [object( object&& other )] *)
Definition move_construct (other : nat) : M nat :=
  this <- allocate 0 ;;
  swap this other ;;;
  ret this.

(** [object& operator=( object&& other )] *)
Definition move_assign (this other : nat) : M unit :=
  swap this other.

(** [GLuint name() const] *)
Definition name (this : nat) : M GLuint := load this.

(** Sequences of operations on handles. *)
Inductive op : Type :=
  | Move_construct (other : nat)
  | Move_assign (this other : nat)
  | Destroy (this : nat).

Definition step (o : op) : M unit :=
  match o with
  | Move_construct other => move_construct other ;;; ret tt
  | Move_assign this other => move_assign this other
  | Destroy this => destroy this
  end.

Fixpoint steps (os : list op) : M unit :=
  match os with
  | [] => ret tt
  | o :: os' => step o ;;; steps os'
  end.

Definition alive (s : state) (this : nat) : bool :=
  match nth_error (objects s) this with
  | Some (Some _) => true
  | _ => false
  end.

(** The destructor of a handle, run only if its lifetime has not ended
    before. *)
Definition destroy_if_alive (this : nat) : M unit :=
  fun s => if alive s this then destroy this s else Some (tt, s).

(** The destruction of every handle that is still alive among the first
    [n], the last constructed first. *)
Fixpoint destroy_first (n : nat) : M unit :=
  match n with
  | O => ret tt
  | S i => destroy_if_alive i ;;; destroy_first i
  end.

Definition destroy_all : M unit :=
  fun s => destroy_first (length (objects s)) s.

(** A whole run: one handle is constructed, the operations [os] are
    performed, and every handle left is destroyed. *)
Definition lifetime (generated : GLuint) (os : list op) : M unit :=
  default_construct generated ;;;
  steps os ;;;
  destroy_all.

(** The names held by the live handles. *)
Fixpoint live_names (l : list (option GLuint)) : list GLuint :=
  match l with
  | [] => []
  | Some n :: t => n :: live_names t
  | None :: t => live_names t
  end.

(** Which handles are alive, by position. *)
Definition liveness (s : state) : list bool :=
  map (fun o : option GLuint =>
         match o with Some _ => true | None => false end) (objects s).

(** Whether every operation of a sequence is applied to handles that are
    alive when it is reached, given which handles are alive at the start.
    A move-construction adds a live handle, a destruction ends the life of
    one. *)
Fixpoint well_formed (os : list op) (live : list bool) : bool :=
  match os with
  | [] => true
  | Move_construct other :: os' =>
      nth other live false && well_formed os' (live ++ [true])
  | Move_assign this other :: os' =>
      nth this live false && nth other live false && well_formed os' live
  | Destroy this :: os' =>
      nth this live false && well_formed os' (update_at this false live)
  end.

(** What [name()] returns for a handle in a state, if the handle is
    alive. *)
Definition held (s : state) (this : nat) : option GLuint :=
  option_map fst (name this s).

(** Every name a state knows of: those the live handles hold and those
    the [Deleter] was called with. *)
Definition names (s : state) : list GLuint :=
  live_names (objects s) ++ deleted s.


(** ** The fence [gls::sync] (include/gls/objects/sync.hpp)

    A fence holds one [GLsync], zero until [insert] is called; its move
    operations and its destructor are written as those of [gls::object],
    with [glDeleteSync] as the [Deleter]. *)

(** [sync()] *)
Definition sync_construct : M nat := allocate 0.

(** [~sync()] *)
Definition sync_destroy (this : nat) : M unit := destroy this.

(** [sync( sync&& other )] *)
Definition sync_move_construct (other : nat) : M nat := move_construct other.

(** [sync& operator=( sync&& other )] *)
Definition sync_move_assign (this other : nat) : M unit :=
  move_assign this other.

(** [void insert()]: [glDeleteSync( m_sync )], then [m_sync] becomes the
    fence [created] that [glFenceSync] returns. *)
Definition insert (this : nat) (created : GLuint) : M unit :=
  n <- load this ;;
  Deleter n ;;;
  store this created.

(** ** Programs that construct any number of handles and fences *)
Inductive command : Type :=
  | Construct (generated : GLuint)
  | Sync_construct
  | Insert (this : nat) (created : GLuint)
  | Apply (o : op).

Definition perform (k : command) : M unit :=
  match k with
  | Construct generated => default_construct generated ;;; ret tt
  | Sync_construct => sync_construct ;;; ret tt
  | Insert this created => insert this created
  | Apply o => step o
  end.

Fixpoint performs (ks : list command) : M unit :=
  match ks with
  | [] => ret tt
  | k :: ks' => perform k ;;; performs ks'
  end.

(** The names the GL hands out during a program, in order. *)
Fixpoint handed_out (ks : list command) : list GLuint :=
  match ks with
  | [] => []
  | Construct generated :: ks' => generated :: handed_out ks'
  | Insert _ created :: ks' => created :: handed_out ks'
  | _ :: ks' => handed_out ks'
  end.

(** Which handles are alive after an operation. *)
Definition liveness_after (o : op) (live : list bool) : list bool :=
  match o with
  | Move_construct _ => live ++ [true]
  | Move_assign _ _ => live
  | Destroy this => update_at this false live
  end.

(** Whether every command of a program is applied to handles that are
    alive when it is reached. *)
Fixpoint proper (ks : list command) (live : list bool) : bool :=
  match ks with
  | [] => true
  | Construct _ :: ks' => proper ks' (live ++ [true])
  | Sync_construct :: ks' => proper ks' (live ++ [true])
  | Insert this _ :: ks' => nth this live false && proper ks' live
  | Apply o :: ks' => well_formed [o] live && proper ks' (liveness_after o live)
  end.

End Object.

(** ** [gls::renderbuffer]

    The part of the GL the constructor talks to: the two limits it
    queries, the next unused renderbuffer name, the current binding and
    the storage allocated so far. *)

Module Renderbuffer.

Local Open Scope Z_scope.

Definition GLuint : Type := Z.
Definition GLsizei : Type := Z.
Definition GLenum : Type := Z.

Record context : Type := Build_context {
  GL_MAX_SAMPLES : Z;
  GL_MAX_RENDERBUFFER_SIZE : Z;
  next_name : GLuint;
  renderbuffer_binding : GLuint;
  storage : list (GLuint * (GLsizei * GLenum * GLsizei * GLsizei)) }.

Record renderbuffer : Type := Build_renderbuffer {
  m_object : GLuint;
  m_width : GLsizei;
  m_height : GLsizei }.

(** [glBindRenderbuffer( GL_RENDERBUFFER, n )] *)
Definition glBindRenderbuffer (n : GLuint) (g : context) : context :=
  Build_context (GL_MAX_SAMPLES g) (GL_MAX_RENDERBUFFER_SIZE g)
    (next_name g) n (storage g).

(** [glRenderbufferStorageMultisample] on the bound renderbuffer. *)
Definition glRenderbufferStorageMultisample
    (samples : GLsizei) (internal_format : GLenum)
    (the_width the_height : GLsizei) (g : context) : context :=
  Build_context (GL_MAX_SAMPLES g) (GL_MAX_RENDERBUFFER_SIZE g)
    (next_name g) (renderbuffer_binding g)
    ((renderbuffer_binding g,
      (samples, internal_format, the_width, the_height)) :: storage g).

(** [glGenRenderbuffers( 1, &name )] *)
Definition gen_renderbuffers (g : context) : GLuint * context :=
  (next_name g,
   Build_context (GL_MAX_SAMPLES g) (GL_MAX_RENDERBUFFER_SIZE g)
     (next_name g + 1) (renderbuffer_binding g) (storage g)).

Definition name (r : renderbuffer) : GLuint := m_object r.

Definition width (r : renderbuffer) : GLsizei := m_width r.

Definition height (r : renderbuffer) : GLsizei := m_width r.

Definition bind (r : renderbuffer) (g : context) : context :=
  glBindRenderbuffer (m_object r) g.

Definition unbind (g : context) : context := glBindRenderbuffer 0 g.

(** The constructor with multi-sampling.  A failed [assert] ends the
    program: the result is [None]. *)
Definition renderbuffer_multisample
    (samples : GLsizei) (internal_format : GLenum)
    (the_width the_height : GLsizei) (g : context)
    : option (renderbuffer * context) :=
  let '(n, g) := gen_renderbuffers g in
  let this := Build_renderbuffer n the_width the_height in
  let max_samples := GL_MAX_SAMPLES g in
  let max_renderbuffer_size := GL_MAX_RENDERBUFFER_SIZE g in
  if negb (samples <=? max_samples) then None
  else if negb (the_width <=? max_renderbuffer_size) then None
  else if negb (the_height <=? max_renderbuffer_size) then None
  else
    let g := bind this g in
    let g :=
      glRenderbufferStorageMultisample samples internal_format the_width
        the_height g in
    let g := unbind g in
    Some (this, g).

(** The constructor without multi-sampling delegates with [samples = 0]. *)
Definition renderbuffer_new
    (internal_format : GLenum) (the_width the_height : GLsizei) (g : context)
    : option (renderbuffer * context) :=
  renderbuffer_multisample 0 internal_format the_width the_height g.

End Renderbuffer.

(** ** [gls::buffer<Target, Usage>]

    The buffer object keeps a handle and the size it asked the GL for.
    The GL side is the part of the OpenGL state the class touches: the
    next name [glGenBuffers] hands out, the buffer bound to each target,
    the data store behind each name, the arguments [glDeleteBuffers] was
    called with, and the errors raised.  As in the GL, a command that
    raises an error has no other effect, and [check_gl_error] only reports
    it.  A byte of a data store that was allocated and never written is
    undefined: [None].

    Sizes and offsets are the mathematical integers, and a size, which is
    a template parameter in the source, is an integer.  In the source
    [GLintptr] and [GLsizeiptr] are [ptrdiff_t], taken here as 64 bits
    wide; every size is cast to [GLsizeiptr] and added to an offset in
    that type.  The functions below are the source on the calls in which
    every offset, every size and every such sum is [representable], so
    that no cast changes a value and no sum overflows; the statements
    about them assume it wherever a bound by [m_size] does not already
    give it. *)

Module Buffer.

Local Open Scope Z_scope.

Definition GLuint : Type := Z.
Definition GLenum : Type := Z.
Definition GLintptr : Type := Z.
Definition GLsizeiptr : Type := Z.

(** The values of [GLintptr] and [GLsizeiptr]. *)
Definition representable (x : Z) : Prop := - 2 ^ 63 <= x < 2 ^ 63.

Definition GL_COPY_READ_BUFFER : GLenum := 36662.
Definition GL_COPY_WRITE_BUFFER : GLenum := 36663.

Inductive gl_error : Type :=
  | GL_INVALID_VALUE
  | GL_INVALID_OPERATION.

Definition cell : Type := option Byte.byte.

(** Client memory from an address onward. *)
Definition pointer : Type := nat -> Byte.byte.

Definition read (p : pointer) (n : Z) : list cell :=
  map (fun i => Some (p i)) (seq 0 (Z.to_nat n)).

Definition undefined (n : Z) : list cell := repeat None (Z.to_nat n).

Record gl : Type := Build_gl {
  next_name : GLuint;
  bound : list (GLenum * GLuint);
  stores : list (GLuint * list cell);
  deleted : list GLuint;
  errors : list gl_error }.

(** The buffer bound to a target; zero when none is. *)
Definition binding (target : GLenum) (g : gl) : GLuint :=
  match find (fun p => fst p =? target) (bound g) with
  | Some p => snd p
  | None => 0
  end.

(** The data store of a buffer; empty until one is allocated. *)
Definition contents (n : GLuint) (g : gl) : list cell :=
  match find (fun p => fst p =? n) (stores g) with
  | Some p => snd p
  | None => []
  end.

Definition size_of (n : GLuint) (g : gl) : Z :=
  Z.of_nat (length (contents n g)).

Definition set_contents (n : GLuint) (s : list cell) (g : gl) : gl :=
  Build_gl (next_name g) (bound g) ((n, s) :: stores g) (deleted g)
    (errors g).

Definition raise (e : gl_error) (g : gl) : gl :=
  Build_gl (next_name g) (bound g) (stores g) (deleted g) (errors g ++ [e]).

(** [new] written over [old] from position [offset] on. *)
Definition overwrite (offset : Z) (new old : list cell) : list cell :=
  firstn (Z.to_nat offset) old ++ new
    ++ skipn (Z.to_nat offset + length new) old.

(** [glGenBuffers( 1, &name )] *)
Definition glGenBuffers (g : gl) : GLuint * gl :=
  (next_name g,
   Build_gl (next_name g + 1) (bound g) (stores g) (deleted g) (errors g)).

(** [glDeleteBuffers( 1, &name )]: zero is ignored; the data store of any
    other name goes, and the name is unbound wherever it is bound. *)
Definition glDeleteBuffers (n : GLuint) (g : gl) : gl :=
  if n =? 0 then
    Build_gl (next_name g) (bound g) (stores g) (deleted g ++ [n]) (errors g)
  else
    Build_gl (next_name g)
      (map (fun p => if snd p =? n then (fst p, 0) else p) (bound g))
      (filter (fun p => negb (fst p =? n)) (stores g))
      (deleted g ++ [n]) (errors g).

Definition glBindBuffer (target : GLenum) (n : GLuint) (g : gl) : gl :=
  Build_gl (next_name g) ((target, n) :: bound g) (stores g) (deleted g)
    (errors g).

(** [glBufferData( target, size, data, usage )]: a new data store for the
    buffer bound to [target]; the usage is a hint. *)
Definition glBufferData (target : GLenum) (size : GLsizeiptr)
    (data : option pointer) (g : gl) : gl :=
  if size <? 0 then raise GL_INVALID_VALUE g
  else if binding target g =? 0 then raise GL_INVALID_OPERATION g
  else
    set_contents (binding target g)
      (match data with
       | Some p => read p size
       | None => undefined size
       end) g.

Definition glBufferSubData (target : GLenum) (offset : GLintptr)
    (size : GLsizeiptr) (data : pointer) (g : gl) : gl :=
  if (offset <? 0) || (size <? 0)
     || (size_of (binding target g) g <? offset + size)
  then raise GL_INVALID_VALUE g
  else if binding target g =? 0 then raise GL_INVALID_OPERATION g
  else
    set_contents (binding target g)
      (overwrite offset (read data size) (contents (binding target g) g)) g.

Definition glCopyBufferSubData (readtarget writetarget : GLenum)
    (readoffset writeoffset : GLintptr) (size : GLsizeiptr) (g : gl) : gl :=
  let r := binding readtarget g in
  let w := binding writetarget g in
  if (readoffset <? 0) || (writeoffset <? 0) || (size <? 0)
     || (size_of r g <? readoffset + size)
     || (size_of w g <? writeoffset + size)
     || ((r =? w) && (readoffset <? writeoffset + size)
           && (writeoffset <? readoffset + size))
  then raise GL_INVALID_VALUE g
  else if (r =? 0) || (w =? 0) then raise GL_INVALID_OPERATION g
  else
    set_contents w
      (overwrite writeoffset
         (firstn (Z.to_nat size) (skipn (Z.to_nat readoffset) (contents r g)))
         (contents w g)) g.

(** [glGetBufferSubData]: the bytes written to client memory, [None] when
    the command raises an error and writes nothing. *)
Definition glGetBufferSubData (target : GLenum) (offset : GLintptr)
    (size : GLsizeiptr) (g : gl) : option (list cell) * gl :=
  if (offset <? 0) || (size <? 0)
     || (size_of (binding target g) g <? offset + size)
  then (None, raise GL_INVALID_VALUE g)
  else if binding target g =? 0 then (None, raise GL_INVALID_OPERATION g)
  else
    (Some (firstn (Z.to_nat size)
             (skipn (Z.to_nat offset) (contents (binding target g) g))), g).

(** The class.  A member function takes the object and returns it as the
    call leaves it; the [source] of [copy_sub_data] is an object other
    than [this].  The assertions are compiled in ([NDEBUG] is not
    defined), and a failed [assert] ends the program.  [data], [sub_data]
    and [copy_sub_data] call one another, so they carry the depth of calls
    still allowed; two are enough. *)
Inductive result (A : Type) : Type :=
  | Returned (a : A)
  | Assertion_failed
  | Out_of_fuel.

Arguments Returned {A} a.
Arguments Assertion_failed {A}.
Arguments Out_of_fuel {A}.

Definition M (A : Type) : Type := gl -> result (A * gl).

Definition ret {A : Type} (a : A) : M A := fun g => Returned (a, g).

Definition and_then {A B : Type} (m : M A) (k : A -> M B) : M B :=
  fun g => match m g with
           | Returned (a, g') => k a g'
           | Assertion_failed => Assertion_failed
           | Out_of_fuel => Out_of_fuel
           end.

Notation "x <- m ;; k" := (and_then m (fun x => k))
  (at level 61, m at next level, right associativity).
Notation "m ;;; k" := (and_then m (fun _ => k))
  (at level 61, right associativity).

Definition call (f : gl -> gl) : M unit := fun g => Returned (tt, f g).

Definition assert (b : bool) : M unit :=
  fun g => if b then Returned (tt, g) else Assertion_failed.

Definition out_of_fuel {A : Type} : M A := fun _ => Out_of_fuel.

Record buffer : Type := Build_buffer {
  m_object : GLuint;
  m_size : GLsizeiptr }.

Definition name (this : buffer) : GLuint := m_object this.

Definition size (this : buffer) : GLsizeiptr := m_size this.

(** [buffer new_buffer;] *)
Definition default_construct : M buffer :=
  fun g => let '(n, g) := glGenBuffers g in Returned (Build_buffer n 0, g).

(** [~buffer()] *)
Definition destroy (this : buffer) : M unit :=
  call (glDeleteBuffers (m_object this)).

(** The move constructor the compiler generates: the handle is moved (the
    new one takes the name and leaves zero), the size is copied.  The
    result is the new object and what is left of [other]. *)
Definition move_construct (other : buffer) : buffer * buffer :=
  (Build_buffer (m_object other) (m_size other),
   Build_buffer 0 (m_size other)).

(** The move assignment the compiler generates: the handles exchange
    their names, the size is copied. *)
Definition move_assign (this other : buffer) : buffer * buffer :=
  (Build_buffer (m_object other) (m_size other),
   Build_buffer (m_object this) (m_size other)).

(** [std::swap( a, b )] *)
Definition swap (a b : buffer) : M (buffer * buffer) :=
  let '(tmp, a) := move_construct a in
  let '(a, b) := move_assign a b in
  let '(b, tmp) := move_assign b tmp in
  destroy tmp ;;;
  ret (a, b).

Section Target.

Variable Target : GLenum.

(** The buffer type is a template over its target and a usage hint; the
    hint does not change what the GL does. *)
Definition bind (this : buffer) : M unit :=
  call (glBindBuffer Target (m_object this)).

Definition unbind : M unit := call (glBindBuffer Target 0).

Fixpoint data (fuel : nat) (data_size : Z) (data_ptr : option pointer)
    (this : buffer) : M buffer :=
  match fuel with
  | O => out_of_fuel
  | S fuel =>
      assert (0 <=? data_size) ;;;
      let this := Build_buffer (m_object this) data_size in
      bind this ;;;
      call (glBufferData Target (m_size this) data_ptr) ;;;
      this <- match data_ptr with
              | Some p => sub_data fuel 0 (m_size this) p this
              | None => ret this
              end ;;
      unbind ;;;
      ret this
  end

with sub_data (fuel : nat) (offset : GLintptr) (data_size : Z)
    (data_ptr : pointer) (this : buffer) : M buffer :=
  match fuel with
  | O => out_of_fuel
  | S fuel =>
      this <- (if m_size this <? offset + data_size then
                 new_buffer <- default_construct ;;
                 new_buffer <- data fuel (offset + data_size) None
                                 new_buffer ;;
                 new_buffer <- copy_sub_data fuel this 0 0 (m_size this)
                                 new_buffer ;;
                 swapped <- swap this new_buffer ;;
                 destroy (snd swapped) ;;;
                 ret (fst swapped)
               else ret this) ;;
      bind this ;;;
      call (glBufferSubData Target offset data_size data_ptr) ;;;
      unbind ;;;
      ret this
  end

with copy_sub_data (fuel : nat) (source : buffer)
    (readoffset writeoffset : GLintptr) (data_size : Z) (this : buffer)
    : M buffer :=
  match fuel with
  | O => out_of_fuel
  | S fuel =>
      assert (0 <? data_size) ;;;
      assert (readoffset + data_size <=? size source) ;;;
      this <- (if m_size this <? writeoffset + data_size then
                 new_buffer <- default_construct ;;
                 new_buffer <- data fuel (writeoffset + data_size) None
                                 new_buffer ;;
                 new_buffer <- (if negb (m_size this =? 0) then
                                  copy_sub_data fuel this 0 0 (m_size this)
                                    new_buffer
                                else ret new_buffer) ;;
                 swapped <- swap this new_buffer ;;
                 destroy (snd swapped) ;;;
                 ret (fst swapped)
               else ret this) ;;
      call (glBindBuffer GL_COPY_READ_BUFFER (name source)) ;;;
      call (glBindBuffer GL_COPY_WRITE_BUFFER (name this)) ;;;
      call (glCopyBufferSubData GL_COPY_READ_BUFFER GL_COPY_WRITE_BUFFER
              readoffset writeoffset data_size) ;;;
      call (glBindBuffer GL_COPY_READ_BUFFER 0) ;;;
      call (glBindBuffer GL_COPY_WRITE_BUFFER 0) ;;;
      ret this
  end.

(** [get_sub_data]: the bytes the GL writes to [data_ptr], if any. *)
Definition get_sub_data (offset : GLintptr) (data_size : Z) (this : buffer)
    : M (option (list cell)) :=
  assert (offset + data_size <=? m_size this) ;;;
  bind this ;;;
  got <- (fun g => Returned (glGetBufferSubData Target offset data_size g)) ;;
  unbind ;;;
  ret got.

End Target.

(** What a call does to the sizes of the data stores. *)
Definition keeps_sizes (g g' : gl) : Prop :=
  (forall m, size_of m g' = size_of m g) /\ next_name g' = next_name g.

(** The object and the GL agree: the handle holds a name the GL has
    handed out, and [m_size] is the size of its data store. *)
Definition mirrors (b : buffer) (g : gl) : Prop :=
  0 < m_object b < next_name g /\ size_of (m_object b) g = m_size b.

Definition mirrors_after (r : result (buffer * gl)) : Prop :=
  match r with
  | Returned (b, g) => mirrors b g
  | Assertion_failed => True
  | Out_of_fuel => False
  end.

End Buffer.

(** ** [gls::query<Target>]

    The query object talks to the GL through four commands; what it sends
    is recorded as a list of calls, oldest first.  What the GL answers (is
    the result available, and what is it) is not decided by the program:
    the answer is an argument of the function that asks. *)

Module Query.

Local Open Scope Z_scope.

Definition GLuint : Type := Z.
Definition GLint : Type := Z.

Definition GL_FALSE : GLuint := 0.
Definition GL_TRUE : GLuint := 1.

Inductive gl_call : Type :=
  | glBeginQuery (id : GLuint)
  | glEndQuery
  | glGetQueryObjectuiv_GL_QUERY_RESULT_AVAILABLE (id : GLuint)
      (answer : GLuint)
  | glGetQueryObjectiv_GL_QUERY_RESULT (id : GLuint)
  | callable.

Record query : Type := Build_query {
  m_object : GLuint;
  m_waiting : bool }.

(** A query as its constructor leaves it: the name [generated] by
    [glGenQueries], and [m_waiting = false]. *)
Definition query_new (generated : GLuint) : query :=
  Build_query generated false.

Definition name (q : query) : GLuint := m_object q.

(** [run( callable )] *)
Definition run (q : query) : list gl_call * query :=
  if m_waiting q then ([callable], q)
  else
    let q := Build_query (m_object q) true in
    ([glBeginQuery (m_object q); callable; glEndQuery], q).

(** [begin()] *)
Definition begin (q : query) : list gl_call * query :=
  if m_waiting q then ([], q)
  else
    let q := Build_query (m_object q) true in
    ([glBeginQuery (m_object q)], q).

(** [end()] *)
Definition end_ (q : query) : list gl_call * query := ([glEndQuery], q).

(** [ready()]; [result_ready] is what the GL writes into the local of
    that name, or zero, its initial value, when the GL writes nothing. *)
Definition ready (result_ready : GLuint) (q : query)
    : bool * list gl_call * query :=
  (result_ready =? GL_TRUE,
   [glGetQueryObjectuiv_GL_QUERY_RESULT_AVAILABLE (name q) result_ready],
   Build_query (m_object q) (result_ready =? GL_FALSE)).

(** [poll_result( result )]; [value] is the result the GL holds, and
    [result] the content of the variable passed by reference.  The
    function returns its return value and the new content of the
    variable. *)
Definition poll_result (result_ready : GLuint) (value : GLint)
    (result : GLint) (q : query) : (bool * GLint) * list gl_call * query :=
  let '(stop, asked, q) :=
    if m_waiting q then
      let '(r, calls, q) := ready result_ready q in (negb r, calls, q)
    else (false, [], q) in
  if stop then ((false, result), asked, q)
  else
    ((true, value),
     asked ++ [glGetQueryObjectiv_GL_QUERY_RESULT (name q)], q).

(** Programs that use one query object. *)
Inductive command : Type :=
  | Run
  | Begin
  | End_
  | Poll_result (result_ready : GLuint) (value : GLint) (result : GLint).

Definition perform (k : command) (q : query) : list gl_call * query :=
  match k with
  | Run => run q
  | Begin => begin q
  | End_ => end_ q
  | Poll_result result_ready value result =>
      let '(_, calls, q) := poll_result result_ready value result q in
      (calls, q)
  end.

Fixpoint performs (ks : list command) (q : query) : list gl_call * query :=
  match ks with
  | [] => ([], q)
  | k :: ks =>
      let '(calls, q) := perform k q in
      let '(more, q) := performs ks q in
      (calls ++ more, q)
  end.

(** Reading a list of calls: [in_flight] tells whether a query has been
    begun whose result the GL has not yet reported available.  A
    [glBeginQuery] while one is in flight would discard it. *)
Fixpoint never_restarted (in_flight : bool) (calls : list gl_call) : bool :=
  match calls with
  | [] => true
  | glBeginQuery _ :: calls => negb in_flight && never_restarted true calls
  | glGetQueryObjectuiv_GL_QUERY_RESULT_AVAILABLE _ answer :: calls =>
      never_restarted (in_flight && (answer =? GL_FALSE)) calls
  | _ :: calls => never_restarted in_flight calls
  end.

(** Whether a query is in flight after a list of calls. *)
Fixpoint in_flight_after (in_flight : bool) (calls : list gl_call) : bool :=
  match calls with
  | [] => in_flight
  | glBeginQuery _ :: calls => in_flight_after true calls
  | glGetQueryObjectuiv_GL_QUERY_RESULT_AVAILABLE _ answer :: calls =>
      in_flight_after (in_flight && (answer =? GL_FALSE)) calls
  | _ :: calls => in_flight_after in_flight calls
  end.

(** [bracketed open calls]: every [glEndQuery] closes a [glBeginQuery],
    none is begun inside another, and at the end none is left open. *)
Fixpoint bracketed (open : bool) (calls : list gl_call) : bool :=
  match calls with
  | [] => negb open
  | glBeginQuery _ :: calls => negb open && bracketed true calls
  | glEndQuery :: calls => open && bracketed false calls
  | _ :: calls => bracketed open calls
  end.

Definition uses_run_only (k : command) : bool :=
  match k with
  | Begin | End_ => false
  | _ => true
  end.

End Query.

(** ** [gls::texture<Target>]

    The texture object remembers the extent of the last image it was
    given and checks sub-image updates against it.  The extents and
    offsets are template parameters in the source, and integers here.
    [image_1d], [image_2d] and [image_3d] store each extent cast to
    [GLsizei], a signed integer of 32 bits.  [sub_image_1d],
    [sub_image_2d] and [sub_image_3d] first assert that the sum of an
    offset and an extent, formed in the types of the two arguments, is
    less than the stored extent, and then hand the GL the offsets cast to
    [GLint] and the extents cast to [GLsizei].  The model reads the
    assertion over the integers.  That is what the source computes,
    whatever integer types the arguments have, when the offset, the
    extent and their sum are in the range of [extent] and the stored
    extent is too: then no conversion changes a value and no sum wraps
    around; the statements about it assume this.  The calls to the GL are
    recorded, oldest first, without the pointer to the pixels; a failed
    [assert] ends the program, which is the result [None]. *)

Module Texture.

Local Open Scope Z_scope.

Definition GLuint : Type := Z.
Definition GLint : Type := Z.
Definition GLsizei : Type := Z.
Definition GLenum : Type := Z.

(** [static_cast<GLsizei>] and [static_cast<GLint>] of an integer: the
    value modulo 2^32 that a signed integer of 32 bits holds. *)
Definition to_GLsizei (x : Z) : GLsizei := (x + 2 ^ 31) mod 2 ^ 32 - 2 ^ 31.

Definition to_GLint (x : Z) : GLint := (x + 2 ^ 31) mod 2 ^ 32 - 2 ^ 31.

(** The values of [GLsizei] that are not negative. *)
Definition extent (x : Z) : Prop := 0 <= x < 2 ^ 31.

Inductive gl_call : Type :=
  | glBindTexture (id : GLuint)
  | glTexImage1D (level internal_format : GLint) (width : GLsizei)
      (format type : GLenum)
  | glTexImage2D (level internal_format : GLint) (width height : GLsizei)
      (format type : GLenum)
  | glTexImage3D (level internal_format : GLint)
      (width height depth : GLsizei) (format type : GLenum)
  | glTexSubImage1D (level xoffset : GLint) (width : GLsizei)
      (format type : GLenum)
  | glTexSubImage2D (level xoffset yoffset : GLint) (width height : GLsizei)
      (format type : GLenum)
  | glTexSubImage3D (level xoffset yoffset zoffset : GLint)
      (width height depth : GLsizei) (format type : GLenum).

Record texture : Type := Build_texture {
  m_object : GLuint;
  m_width : GLsizei;
  m_height : GLsizei;
  m_depth : GLsizei }.

Definition name (t : texture) : GLuint := m_object t.
Definition width (t : texture) : GLsizei := m_width t.
Definition height (t : texture) : GLsizei := m_height t.
Definition depth (t : texture) : GLsizei := m_depth t.

Definition bind (t : texture) : list gl_call := [glBindTexture (m_object t)].
Definition unbind : list gl_call := [glBindTexture 0].

Definition image_1d (level internal_format : GLint) (the_width : Z)
    (format type : GLenum) (t : texture) : list gl_call * texture :=
  let t :=
    Build_texture (m_object t) (to_GLsizei the_width) (m_height t)
      (m_depth t) in
  (bind t
     ++ [glTexImage1D level internal_format (m_width t) format type]
     ++ unbind, t).

Definition image_2d (level internal_format : GLint) (the_width the_height : Z)
    (format type : GLenum) (t : texture) : list gl_call * texture :=
  let t :=
    Build_texture (m_object t) (to_GLsizei the_width) (m_height t)
      (m_depth t) in
  let t :=
    Build_texture (m_object t) (m_width t) (to_GLsizei the_height)
      (m_depth t) in
  (bind t
     ++ [glTexImage2D level internal_format (m_width t) (m_height t) format
           type]
     ++ unbind, t).

Definition image_3d (level internal_format : GLint)
    (the_width the_height the_depth : Z) (format type : GLenum) (t : texture)
    : list gl_call * texture :=
  let t :=
    Build_texture (m_object t) (to_GLsizei the_width) (m_height t)
      (m_depth t) in
  let t :=
    Build_texture (m_object t) (m_width t) (to_GLsizei the_height)
      (m_depth t) in
  let t :=
    Build_texture (m_object t) (m_width t) (m_height t)
      (to_GLsizei the_depth) in
  (bind t
     ++ [glTexImage3D level internal_format (m_width t) (m_height t)
           (m_depth t) format type]
     ++ unbind, t).

Definition sub_image_1d (level : GLint) (xoffset the_width : Z)
    (format type : GLenum) (t : texture) : option (list gl_call * texture) :=
  if negb (xoffset + the_width <? m_width t) then None
  else
    Some (bind t
            ++ [glTexSubImage1D level (to_GLint xoffset)
                  (to_GLsizei the_width) format type]
            ++ unbind, t).

Definition sub_image_2d (level : GLint)
    (xoffset yoffset the_width the_height : Z) (format type : GLenum)
    (t : texture) : option (list gl_call * texture) :=
  if negb (xoffset + the_width <? m_width t) then None
  else if negb (yoffset + the_height <? m_height t) then None
  else
    Some (bind t
            ++ [glTexSubImage2D level (to_GLint xoffset) (to_GLint yoffset)
                  (to_GLsizei the_width) (to_GLsizei the_height) format type]
            ++ unbind, t).

Definition sub_image_3d (level : GLint)
    (xoffset yoffset zoffset the_width the_height the_depth : Z)
    (format type : GLenum) (t : texture) : option (list gl_call * texture) :=
  if negb (xoffset + the_width <? m_width t) then None
  else if negb (yoffset + the_height <? m_height t) then None
  else if negb (zoffset + the_depth <? m_depth t) then None
  else
    Some (bind t
            ++ [glTexSubImage3D level (to_GLint xoffset) (to_GLint yoffset)
                  (to_GLint zoffset) (to_GLsizei the_width)
                  (to_GLsizei the_height) (to_GLsizei the_depth) format type]
            ++ unbind, t).

End Texture.

(** * Properties of the camera *)

Module CameraFacts.

Import Camera.
Local Open Scope R_scope.

(** ** Equality tests *)

Lemma value_eq_true (x y : R) : value_eq x y = true <-> x = y.
Proof.
  unfold value_eq. destruct (Req_dec_T x y) as [e | n].
  - tauto.
  - split; [discriminate | contradiction].
Qed.


Lemma vector_eq_true (v w : vector_type) : vector_eq v w = true <-> v = w.
Proof.
  unfold vector_eq. rewrite !andb_true_iff, !value_eq_true.
  destruct v as [a b c], w as [a' b' c']; simpl. split.
  - intros [[-> ->] ->]. reflexivity.
  - intros e. injection e as -> -> ->. auto.
Qed.


(** ** The setters *)









(** ** Lazy recomputation *)

(** Evaluation of [update] on a camera whose flags are known, without
    unfolding any operation on the reals. *)
Ltac run_update :=
  cbv beta iota zeta delta
    [update update_projection update_view update_matrix
     assign_projection assign_view assign_matrix
     assign_projection_dirty assign_view_dirty assign_matrix_dirty
     m_projection m_view m_matrix m_position m_direction m_up
     m_fov m_aspect m_near m_far
     m_projection_dirty m_view_dirty m_matrix_dirty fst snd app].

Ltac by_flags c :=
  destruct c as [p v m po d u f a n fa [|] [|] [|]]; run_update.


Lemma update_flags (c : camera) :
  m_projection_dirty (fst (update c)) = false /\
  m_view_dirty (fst (update c)) = false /\
  m_matrix_dirty (fst (update c)) = false.
Proof. by_flags c; auto. Qed.

Lemma update_projection_value (c : camera) :
  m_projection (fst (update c)) =
  if m_projection_dirty c then
    mat (1 / (m_aspect c * tan (m_fov c / 2))) 0 0 0
        0 (1 / tan (m_fov c / 2)) 0 0
        0 0 (- (m_far c + m_near c) / (m_far c - m_near c)) (-1)
        0 0 (- (2 * m_far c * m_near c) / (m_far c - m_near c)) 0
  else m_projection c.
Proof. by_flags c; reflexivity. Qed.

Lemma update_view_value (c : camera) :
  m_view (fst (update c)) =
  if m_view_dirty c then
    let d := m_direction c in
    let s := vector_normalize (vector_cross (m_direction c) (m_up c)) in
    let u := vector_cross s d in
    matrix_mult
      (mat (vec0 s) (vec0 u) (- vec0 d) 0
           (vec1 s) (vec1 u) (- vec1 d) 0
           (vec2 s) (vec2 u) (- vec2 d) 0
           0 0 0 1)
      (mat 1 0 0 0
           0 1 0 0
           0 0 1 0
           (- vec0 (m_position c)) (- vec1 (m_position c))
           (- vec2 (m_position c)) 1)
  else m_view c.
Proof. by_flags c; reflexivity. Qed.

Lemma update_matrix_value (c : camera) :
  m_matrix (fst (update c)) =
  if m_matrix_dirty c then
    matrix_mult (m_projection (fst (update c))) (m_view (fst (update c)))
  else m_matrix c.
Proof. by_flags c; reflexivity. Qed.

Lemma get_view_update (c : camera) :
  get_view c =
  Build_query (m_view (fst (update c))) (fst (update c)) (snd (update c)).
Proof. unfold get_view. now destruct (update c). Qed.

Lemma get_projection_update (c : camera) :
  get_projection c =
  Build_query (m_projection (fst (update c))) (fst (update c))
    (snd (update c)).
Proof. unfold get_projection. now destruct (update c). Qed.

Lemma get_matrix_update (c : camera) :
  get_matrix c =
  Build_query (m_matrix (fst (update c))) (fst (update c)) (snd (update c)).
Proof. unfold get_matrix. now destruct (update c). Qed.

Lemma query_after (q : camera -> query) (c : camera) :
  In q queries -> after (q c) = fst (update c).
Proof.
  intros [<- | [<- | [<- | []]]];
    [rewrite get_view_update | rewrite get_projection_update
    | rewrite get_matrix_update]; reflexivity.
Qed.


(** ** Vectors and quaternions *)

Lemma vec_eq (a b c a' b' c' : R) :
  a = a' -> b = b' -> c = c' -> vec a b c = vec a' b' c'.
Proof. intros -> -> ->. reflexivity. Qed.

Lemma quat_eq (a b c d a' b' c' d' : R) :
  a = a' -> b = b' -> c = c' -> d = d' -> quat a b c d = quat a' b' c' d'.
Proof. intros -> -> -> ->. reflexivity. Qed.

Lemma vector_length_squared (v : vector_type) :
  vector_length v = sqrt (squared_length v).
Proof. reflexivity. Qed.



Lemma normalize_of_unit (v : vector_type) :
  squared_length v = 1 -> vector_normalize v = v.
Proof.
  intros H. unfold vector_normalize. cbv zeta.
  rewrite vector_length_squared, H, sqrt_1. destruct v as [a b c]. simpl.
  apply vec_eq; field.
Qed.

(** ** Movement *)

Lemma set_position_position (v : vector_type) (c : camera) :
  m_position (set_position v c) = v.
Proof.
  unfold set_position. destruct (vector_eq (m_position c) v) eqn:E.
  - now apply vector_eq_true.
  - reflexivity.
Qed.

Lemma set_position_orientation (v : vector_type) (c : camera) :
  m_direction (set_position v c) = m_direction c /\
  m_up (set_position v c) = m_up c.
Proof.
  unfold set_position. destruct (vector_eq (m_position c) v); split;
    reflexivity.
Qed.

(** What [move_relative] does to the position, for every camera and
    offset: the first component of the offset is a distance against the
    right vector, the second a distance along the up vector and the third
    a distance against the direction.  The orientation is not touched. *)
Lemma move_relative_position (offset : vector_type) (c : camera) :
  let right := vector_normalize (vector_cross (m_direction c) (m_up c)) in
  m_position (move_relative offset c) =
    vec (vec0 (m_position c) - vec0 offset * vec0 right
         + vec1 offset * vec0 (m_up c) - vec2 offset * vec0 (m_direction c))
        (vec1 (m_position c) - vec0 offset * vec1 right
         + vec1 offset * vec1 (m_up c) - vec2 offset * vec1 (m_direction c))
        (vec2 (m_position c) - vec0 offset * vec2 right
         + vec1 offset * vec2 (m_up c) - vec2 offset * vec2 (m_direction c))
  /\ m_direction (move_relative offset c) = m_direction c
  /\ m_up (move_relative offset c) = m_up c.
Proof.
  intros right. unfold move_relative, move. cbv zeta.
  split; [| apply set_position_orientation].
  rewrite set_position_position. cbn [vec0 vec1 vec2]. fold right.
  apply vec_eq; ring.
Qed.

Lemma default_right_vector (p0 v0 m0 : matrix_type) :
  let c := camera_default p0 v0 m0 in
  vector_normalize (vector_cross (m_direction c) (m_up c)) = vec 1 0 0.
Proof.
  cbv zeta. cbn [camera_default m_direction m_up].
  replace (vector_cross (vec 0 0 (-1)) (vec 0 1 0)) with (vec 1 0 0)
    by (unfold vector_cross; cbn [vec0 vec1 vec2]; apply vec_eq; ring).
  apply normalize_of_unit. unfold squared_length. cbn [vec0 vec1 vec2]. ring.
Qed.

(** C1, evaluated.  On a default-constructed camera, which faces
    (0, 0, -1) with up vector (0, 1, 0), the right vector is (1, 0, 0).
    [move_relative] with the offset (1, 0, 0) moves the camera from the
    origin to (-1, 0, 0), one unit to the left, whereas an offset whose
    first component is a distance to the right would move it to
    (1, 0, 0). *)
Theorem move_relative_first_component_is_leftward (p0 v0 m0 : matrix_type) :
  let c := camera_default p0 v0 m0 in
  vector_normalize (vector_cross (get_direction c) (get_up c)) = vec 1 0 0 /\
  get_position (move_relative (vec 1 0 0) c) = vec (-1) 0 0 /\
  move_relative_expected (vec 1 0 0) c = vec 1 0 0 /\
  get_position (move_relative (vec 1 0 0) c)
    <> move_relative_expected (vec 1 0 0) c.
Proof.
  intros c. pose proof (default_right_vector p0 v0 m0) as R.
  cbv zeta in R. fold c in R.
  assert (A : get_position (move_relative (vec 1 0 0) c) = vec (-1) 0 0).
  { unfold get_position.
    destruct (move_relative_position (vec 1 0 0) c) as [-> _].
    rewrite R. subst c. cbn [camera_default m_position m_direction m_up
      vec0 vec1 vec2]. apply vec_eq; ring. }
  assert (B : move_relative_expected (vec 1 0 0) c = vec 1 0 0).
  { unfold move_relative_expected. cbv zeta. rewrite R. subst c.
    cbn [camera_default m_position m_direction m_up vec0 vec1 vec2].
    apply vec_eq; ring. }
  split; [exact R |]. split; [exact A |]. split; [exact B |].
  rewrite A, B. intros E. injection E as E. lra.
Qed.

(** ** The projection matrix *)

(** The polynomial bounds of the library on sine and cosine, written
    out. *)
Lemma INR_fact_step (n : nat) (f k : R) :
  INR (fact n) = f -> INR (S n) = k -> INR (fact (S n)) = k * f.
Proof. intros <- <-. rewrite fact_simpl. apply mult_INR. Qed.

Lemma INR_fact_values :
  INR (fact 0) = 1 /\ INR (fact 1) = 1 /\ INR (fact 2) = 2 /\
  INR (fact 3) = 6 /\ INR (fact 4) = 24 /\ INR (fact 5) = 120 /\
  INR (fact 6) = 720 /\ INR (fact 7) = 5040 /\ INR (fact 8) = 40320 /\
  INR (fact 9) = 362880.
Proof.
  assert (F0 : INR (fact 0) = 1) by reflexivity.
  pose proof (INR_fact_step 0 _ _ F0 (INR_IZR_INZ 1)) as F1.
  pose proof (INR_fact_step 1 _ _ F1 (INR_IZR_INZ 2)) as F2.
  pose proof (INR_fact_step 2 _ _ F2 (INR_IZR_INZ 3)) as F3.
  pose proof (INR_fact_step 3 _ _ F3 (INR_IZR_INZ 4)) as F4.
  pose proof (INR_fact_step 4 _ _ F4 (INR_IZR_INZ 5)) as F5.
  pose proof (INR_fact_step 5 _ _ F5 (INR_IZR_INZ 6)) as F6.
  pose proof (INR_fact_step 6 _ _ F6 (INR_IZR_INZ 7)) as F7.
  pose proof (INR_fact_step 7 _ _ F7 (INR_IZR_INZ 8)) as F8.
  pose proof (INR_fact_step 8 _ _ F8 (INR_IZR_INZ 9)) as F9.
  cbn [Z.of_nat Pos.of_succ_nat Pos.succ] in *.
  repeat split; lra.
Qed.

Lemma sin_cos_polynomials (a : R) :
  sin_lb a = a - a ^ 3 / 6 + a ^ 5 / 120 - a ^ 7 / 5040 /\
  sin_ub a = a - a ^ 3 / 6 + a ^ 5 / 120 - a ^ 7 / 5040 + a ^ 9 / 362880 /\
  cos_lb a = 1 - a ^ 2 / 2 + a ^ 4 / 24 - a ^ 6 / 720 /\
  cos_ub a = 1 - a ^ 2 / 2 + a ^ 4 / 24 - a ^ 6 / 720 + a ^ 8 / 40320.
Proof.
  destruct INR_fact_values
    as (F0 & F1 & F2 & F3 & F4 & F5 & F6 & F7 & F8 & F9).
  unfold sin_lb, sin_ub, cos_lb, cos_ub, sin_approx, cos_approx, sin_term,
    cos_term.
  cbn [sum_f_R0 Nat.mul Nat.add].
  rewrite F0, F1, F2, F3, F4, F5, F6, F7, F8, F9.
  repeat split; field.
Qed.

Lemma cotangent_within (c s e : R) :
  0 < s -> (1 - e) * s <= c -> c <= (1 + e) * s -> Rabs (c / s - 1) <= e.
Proof.
  intros S L U. apply Rabs_le.
  replace (c / s - 1) with ((c - s) / s) by (field; lra).
  split.
  - apply Rmult_le_reg_r with s; [exact S |].
    replace ((c - s) / s * s) with (c - s) by (field; lra). lra.
  - apply Rmult_le_reg_r with s; [exact S |].
    replace ((c - s) / s * s) with (c - s) by (field; lra). lra.
Qed.

(** A quarter of the constant [pi] of the camera is close enough to a
    quarter of the number pi for sine and cosine to agree within 1e-5. *)
Lemma quarter_pi_bounds :
  let a := pi / 2 / 2 in
  0 < sin a /\ 0 < cos a /\
  (1 - 1 / 100000) * sin a <= cos a /\ cos a <= (1 + 1 / 100000) * sin a.
Proof.
  intros a.
  assert (Ea : a = 314159265359 / 400000000000) by (unfold a, pi; lra).
  pose proof PI2_3_2 as P.
  assert (A0 : 0 <= a) by lra.
  assert (A1 : a <= PI) by lra.
  assert (A2 : - PI / 2 <= a) by lra.
  assert (A3 : a <= PI / 2) by lra.
  pose proof (SIN a A0 A1) as [Sl Su].
  pose proof (COS a A2 A3) as [Cl Cu].
  destruct (sin_cos_polynomials a) as (E1 & E2 & E3 & E4).
  rewrite E1 in Sl. rewrite E2 in Su. rewrite E3 in Cl. rewrite E4 in Cu.
  clear E1 E2 E3 E4.
  set (s := sin a) in *. set (c := cos a) in *.
  rewrite Ea in Sl, Su, Cl, Cu.
  repeat split; lra.
Qed.

Lemma cotangent_quarter_pi : Rabs (1 / tan (pi / 2 / 2) - 1) <= 1 / 100000.
Proof.
  destruct quarter_pi_bounds as (S & C & L & U). cbv zeta in *.
  unfold tan.
  replace (1 / (sin (pi / 2 / 2) / cos (pi / 2 / 2)))
    with (cos (pi / 2 / 2) / sin (pi / 2 / 2)) by (field; lra).
  now apply cotangent_within.
Qed.

(** C6.  A camera constructed with a field of view of pi/2, aspect ratio
    1, near distance 0.1 and far distance 100 returns from
    [get_projection] a matrix whose elements 0 and 5 are 1: exactly (and
    so within 1e-5) when pi is the number pi, and within 1e-5 when pi is
    the constant [pi] of the camera, 3.14159265359. *)
Theorem projection_of_right_angle (p0 v0 m0 : matrix_type) :
  (let c := camera_projection p0 v0 m0 (PI / 2) 1 (1 / 10) 100 in
   let m := returned (get_projection c) in
   mat0 m = 1 /\ mat5 m = 1 /\
   Rabs (mat0 m - 1) <= 1 / 100000 /\ Rabs (mat5 m - 1) <= 1 / 100000) /\
  (let c := camera_projection p0 v0 m0 (pi / 2) 1 (1 / 10) 100 in
   let m := returned (get_projection c) in
   Rabs (mat0 m - 1) <= 1 / 100000 /\ Rabs (mat5 m - 1) <= 1 / 100000).
Proof.
  split.
  - intros c m.
    assert (E : mat0 m = 1 /\ mat5 m = 1).
    { subst m c. rewrite get_projection_update. cbn [returned].
      rewrite update_projection_value.
      cbn [camera_projection m_projection_dirty m_aspect m_fov m_far m_near
           mat0 mat5].
      replace (PI / 2 / 2) with (PI / 4) by field.
      rewrite tan_PI4. split; field. }
    destruct E as [-> ->].
    replace (1 - 1) with 0 by ring. rewrite Rabs_R0.
    split; [reflexivity |]. split; [reflexivity |]. split; lra.
  - intros c m. subst m c. rewrite get_projection_update. cbn [returned].
    rewrite update_projection_value.
    cbn [camera_projection m_projection_dirty m_aspect m_fov m_far m_near
         mat0 mat5].
    rewrite Rmult_1_l. split; exact cotangent_quarter_pi.
Qed.

(** ** Orientation *)

Lemma taitbryan_members (yaw pitch roll : R) (c : camera) :
  m_direction (set_orientation_taitbryan yaw pitch roll c) =
    taitbryan_direction yaw pitch /\
  m_up (set_orientation_taitbryan yaw pitch roll c) =
    taitbryan_up yaw pitch roll.
Proof. split; reflexivity. Qed.

Lemma quaternion_normalize_of_unit (q : quaternion_type) :
  squared_norm q = 1 -> quaternion_normalize q = q.
Proof.
  intros H. unfold quaternion_normalize, quaternion_length. cbv zeta.
  fold (squared_norm q). rewrite H, sqrt_1. destruct q as [a b c d]. simpl.
  apply quat_eq; field.
Qed.

Lemma vector_part_pure (v : vector_type) :
  vector_part (quat (vec0 v) (vec1 v) (vec2 v) 0) = v.
Proof. now destruct v. Qed.

Lemma sandwich_identity (v : quaternion_type) : sandwich (quat 0 0 0 1) v = v.
Proof.
  destruct v as [a b c d].
  unfold sandwich, quaternion_multiply, quaternion_conjugate. simpl.
  apply quat_eq; ring.
Qed.

Lemma axis_angle_zero (n : vector_type) : axis_angle n 0 = quat 0 0 0 1.
Proof.
  unfold axis_angle. replace (0 / 2) with 0 by field.
  rewrite sin_0, cos_0. apply quat_eq; ring.
Qed.

(** The yaw block. *)
Lemma yaw_sandwich (s k : R) :
  sandwich (quat 0 s 0 k) (quat 0 0 (-1) 0) =
  quat (- (2 * s * k)) 0 (s * s - k * k) 0.
Proof.
  unfold sandwich, quaternion_multiply, quaternion_conjugate. simpl.
  apply quat_eq; ring.
Qed.

Lemma taitbryan_yawed_value (yaw : R) :
  let s := sin (- yaw / 2) in
  let k := cos (- yaw / 2) in
  taitbryan_yawed yaw = quat (- (2 * s * k)) 0 (s * s - k * k) 0.
Proof.
  intros s k. unfold taitbryan_yawed. fold s k. rewrite yaw_sandwich.
  apply quaternion_normalize_of_unit.
  pose proof (sin2_cos2 (- yaw / 2)) as T. unfold Rsqr in T. fold s k in T.
  unfold squared_norm. simpl.
  replace (- (2 * s * k) * - (2 * s * k) + 0 * 0
           + (s * s - k * k) * (s * s - k * k) + 0 * 0)
    with ((s * s + k * k) * (s * s + k * k)) by ring.
  rewrite T. ring.
Qed.

(** Zero angles. *)
Lemma taitbryan_yawed_zero : taitbryan_yawed 0 = quat 0 0 (-1) 0.
Proof.
  pose proof (taitbryan_yawed_value 0) as E. cbv zeta in E. rewrite E.
  replace (- 0 / 2) with 0 by field. rewrite sin_0, cos_0.
  apply quat_eq; ring.
Qed.

Lemma taitbryan_right_zero : taitbryan_right 0 = vec (-1) 0 0.
Proof.
  unfold taitbryan_right. rewrite taitbryan_yawed_zero.
  replace (vector_cross (vec 0 1 0) (vector_part (quat 0 0 (-1) 0)))
    with (vec (-1) 0 0)
    by (unfold vector_cross, vector_part; cbn [vec0 vec1 vec2 quat0 quat1
          quat2]; apply vec_eq; ring).
  apply normalize_of_unit. unfold squared_length. cbn [vec0 vec1 vec2]. ring.
Qed.

Lemma taitbryan_direction_zero : taitbryan_direction 0 0 = vec 0 0 (-1).
Proof.
  unfold taitbryan_direction.
  rewrite axis_angle_zero, sandwich_identity, taitbryan_yawed_zero.
  apply normalize_of_unit. unfold squared_length, vector_part.
  cbn [vec0 vec1 vec2 quat0 quat1 quat2]. ring.
Qed.

Lemma taitbryan_up_zero : taitbryan_up 0 0 0 = vec 0 1 0.
Proof.
  unfold taitbryan_up. cbv zeta.
  rewrite axis_angle_zero, sandwich_identity, vector_part_pure.
  rewrite taitbryan_direction_zero, taitbryan_right_zero.
  replace (vector_cross (vec 0 0 (-1)) (vec (-1) 0 0)) with (vec 0 1 0)
    by (unfold vector_cross; cbn [vec0 vec1 vec2]; apply vec_eq; ring).
  assert (U : squared_length (vec 0 1 0) = 1)
    by (unfold squared_length; cbn [vec0 vec1 vec2]; ring).
  rewrite (normalize_of_unit _ U). exact (normalize_of_unit _ U).
Qed.

(** C5.  On any camera, [set_orientation_taitbryan 0 0 0] stores the
    direction (0, 0, -1) and the up vector (0, 1, 0). *)
Theorem taitbryan_zero_is_reference_frame (c : camera) :
  get_direction (set_orientation_taitbryan 0 0 0 c) = vec 0 0 (-1) /\
  get_up (set_orientation_taitbryan 0 0 0 c) = vec 0 1 0.
Proof.
  unfold get_direction, get_up.
  destruct (taitbryan_members 0 0 0 c) as [-> ->].
  split; [apply taitbryan_direction_zero | apply taitbryan_up_zero].
Qed.

(** ** Unit length of the stored orientation *)






(** ** The theorems at concrete cameras *)


End CameraFacts.

(** * Properties of the camera in every arithmetic *)

Module CameraTFacts.

Import Scalar CameraT.

Local Open Scope scalar_scope.

Section Over.

Context {A : arithmetic} {L : library A}.

(** [matrix_mult] computes the product of the specification, element by
    element and sum by sum. *)
Lemma matrix_mult_product (m n : matrix_type A) :
  matrix_mult m n = product m n.
Proof. reflexivity. Qed.

Ltac run_update :=
  cbv beta iota zeta delta
    [update update_projection update_view update_matrix
     projection_of view_of
     assign_projection assign_view assign_matrix
     assign_projection_dirty assign_view_dirty assign_matrix_dirty
     m_projection m_view m_matrix m_position m_direction m_up
     m_fov m_aspect m_near m_far
     m_projection_dirty m_view_dirty m_matrix_dirty fst snd app].

Ltac by_flags c :=
  destruct c as [p v m po d u f a n fa [|] [|] [|]]; run_update.

Lemma trace_of_update (c : camera A) :
  snd (update c)
  = (if m_projection_dirty c then [projection_recomputed] else [])
    ++ (if m_view_dirty c then [view_recomputed] else [])
    ++ (if m_matrix_dirty c then [matrix_recomputed] else []).
Proof.
  by_flags c; reflexivity.
Qed.

Lemma flags_after_update (c : camera A) :
  m_projection_dirty (fst (update c)) = false /\
  m_view_dirty (fst (update c)) = false /\
  m_matrix_dirty (fst (update c)) = false.
Proof.
  by_flags c; repeat split.
Qed.

Lemma projection_after_update (c : camera A) :
  m_projection (fst (update c))
  = if m_projection_dirty c then projection_of c else m_projection c.
Proof.
  by_flags c; reflexivity.
Qed.

Lemma view_after_update (c : camera A) :
  m_view (fst (update c))
  = if m_view_dirty c then view_of c else m_view c.
Proof.
  by_flags c; reflexivity.
Qed.

Lemma matrix_after_update (c : camera A) :
  m_matrix (fst (update c))
  = if m_matrix_dirty c then
      product (m_projection (fst (update c))) (m_view (fst (update c)))
    else m_matrix c.
Proof.
  transitivity
    (if m_matrix_dirty c then
       matrix_mult (m_projection (fst (update c))) (m_view (fst (update c)))
     else m_matrix c).
  - by_flags c; reflexivity.
  - destruct (m_matrix_dirty c); [apply matrix_mult_product | reflexivity].
Qed.

Lemma update_parameters (c : camera A) :
  m_position (fst (update c)) = m_position c /\
  m_direction (fst (update c)) = m_direction c /\
  m_up (fst (update c)) = m_up c /\
  m_fov (fst (update c)) = m_fov c /\
  m_aspect (fst (update c)) = m_aspect c /\
  m_near (fst (update c)) = m_near c /\
  m_far (fst (update c)) = m_far c.
Proof.
  by_flags c; repeat split.
Qed.

Lemma update_of_clean (c : camera A) :
  m_projection_dirty c = false -> m_view_dirty c = false ->
  m_matrix_dirty c = false -> update c = (c, []).
Proof.
  destruct c as [p v m po d u f a n fr pd vd md]. cbn.
  intros -> -> ->. reflexivity.
Qed.

Lemma update_twice (c : camera A) :
  update (fst (update c)) = (fst (update c), []).
Proof.
  destruct (flags_after_update c) as (P & V & M). now apply update_of_clean.
Qed.

Lemma get_view_runs_update (c : camera A) :
  get_view c
  = Build_query (m_view (fst (update c))) (fst (update c)) (snd (update c)).
Proof. unfold get_view. now destruct (update c). Qed.

Lemma get_projection_runs_update (c : camera A) :
  get_projection c
  = Build_query (m_projection (fst (update c))) (fst (update c))
      (snd (update c)).
Proof. unfold get_projection. now destruct (update c). Qed.

Lemma get_matrix_runs_update (c : camera A) :
  get_matrix c
  = Build_query (m_matrix (fst (update c))) (fst (update c))
      (snd (update c)).
Proof. unfold get_matrix. now destruct (update c). Qed.

Lemma after_query (q : camera A -> query A) (c : camera A) :
  In q queries -> after (q c) = fst (update c).
Proof.
  intros [<- | [<- | [<- | []]]];
    [rewrite get_view_runs_update | rewrite get_projection_runs_update
    | rewrite get_matrix_runs_update]; reflexivity.
Qed.

Lemma recomputed_by_query (q : camera A -> query A) (c : camera A) :
  In q queries -> recomputed (q c) = snd (update c).
Proof.
  intros [<- | [<- | [<- | []]]];
    [rewrite get_view_runs_update | rewrite get_projection_runs_update
    | rewrite get_matrix_runs_update]; reflexivity.
Qed.

Lemma query_returned (q : camera A -> query A) (c : camera A) :
  In q queries ->
  returned (q c) = m_view (fst (update c)) \/
  returned (q c) = m_projection (fst (update c)) \/
  returned (q c) = m_matrix (fst (update c)).
Proof.
  intros [<- | [<- | [<- | []]]];
    [rewrite get_view_runs_update | rewrite get_projection_runs_update
    | rewrite get_matrix_runs_update]; cbn [returned]; auto.
Qed.

(** The two cases of [set_fov]. *)
Lemma set_fov_branches (x : scalar A) (c : camera A) :
  ((m_fov c == x) = true -> set_fov x c = c) /\
  ((m_fov c == x) = false ->
   set_fov x c
   = Build_camera (m_projection c) (m_view c) (m_matrix c) (m_position c)
       (m_direction c) (m_up c) x (m_aspect c) (m_near c) (m_far c)
       true (m_view_dirty c) true).
Proof. unfold set_fov. split; intros ->; reflexivity. Qed.

(** ** The caches are never stale *)

Lemma projection_of_parameters (c c' : camera A) :
  m_fov c' = m_fov c -> m_aspect c' = m_aspect c ->
  m_near c' = m_near c -> m_far c' = m_far c ->
  projection_of c' = projection_of c.
Proof. unfold projection_of. intros -> -> -> ->. reflexivity. Qed.

Lemma view_of_parameters (c c' : camera A) :
  m_position c' = m_position c -> m_direction c' = m_direction c ->
  m_up c' = m_up c -> view_of c' = view_of c.
Proof. unfold view_of. intros -> -> ->. reflexivity. Qed.

Lemma current_dirty (c : camera A) :
  m_projection_dirty c = true -> m_view_dirty c = true ->
  m_matrix_dirty c = true -> current c.
Proof.
  intros P V M. unfold current. rewrite P, V, M.
  split; [discriminate | split; discriminate].
Qed.

Lemma stays_current_update (c : camera A) : current c -> current (fst (update c)).
Proof.
  intros (P & V & M).
  destruct (update_parameters c) as (Ep & Ed & Eu & Ef & Ea & En & Er).
  assert (EP : projection_of (fst (update c)) = projection_of c)
    by now apply projection_of_parameters.
  assert (EV : view_of (fst (update c)) = view_of c)
    by now apply view_of_parameters.
  destruct (flags_after_update c) as (Fp & Fv & Fm).
  split; [| split].
  - intros _. rewrite EP, projection_after_update.
    destruct (m_projection_dirty c); [reflexivity | now apply P].
  - intros _. rewrite EV, view_after_update.
    destruct (m_view_dirty c); [reflexivity | now apply V].
  - intros _. split; [exact Fp | split; [exact Fv |]].
    rewrite matrix_after_update.
    destruct (m_matrix_dirty c) eqn:D; [symmetry; apply matrix_mult_product |].
    destruct (M eq_refl) as (Dp & Dv & E).
    rewrite projection_after_update, view_after_update, Dp, Dv. exact E.
Qed.

Lemma stays_current_after_projection_change (c c' : camera A) :
  current c ->
  m_projection_dirty c' = true -> m_matrix_dirty c' = true ->
  m_view_dirty c' = m_view_dirty c -> m_view c' = m_view c ->
  m_position c' = m_position c -> m_direction c' = m_direction c ->
  m_up c' = m_up c -> current c'.
Proof.
  intros (_ & V & _) Dp Dm Dv Ev Ep Ed Eu.
  split; [| split].
  - rewrite Dp. discriminate.
  - rewrite Dv, Ev, (view_of_parameters c c' Ep Ed Eu). exact V.
  - rewrite Dm. discriminate.
Qed.

Lemma stays_current_after_view_change (c c' : camera A) :
  current c ->
  m_view_dirty c' = true -> m_matrix_dirty c' = true ->
  m_projection_dirty c' = m_projection_dirty c ->
  m_projection c' = m_projection c ->
  m_fov c' = m_fov c -> m_aspect c' = m_aspect c ->
  m_near c' = m_near c -> m_far c' = m_far c -> current c'.
Proof.
  intros (P & _ & _) Dv Dm Dp Ep Ef Ea En Er.
  split; [| split].
  - rewrite Dp, Ep, (projection_of_parameters c c' Ef Ea En Er). exact P.
  - rewrite Dv. discriminate.
  - rewrite Dm. discriminate.
Qed.

Lemma stays_current_set_position (v : vector_type A) (c : camera A) :
  current c -> current (set_position v c).
Proof.
  intros H. unfold set_position.
  destruct (vector_eq (m_position c) v); [exact H |].
  apply (stays_current_after_view_change c); auto.
Qed.

Lemma stays_current_exec (c : camera A) (k : call A) :
  current c -> current (exec c k).
Proof.
  intros H. destruct k; cbn [exec].
  - unfold set_fov. destruct (m_fov c == fov); [exact H |].
    apply (stays_current_after_projection_change c); auto.
  - unfold set_aspect. destruct (m_aspect c == aspect); [exact H |].
    apply (stays_current_after_projection_change c); auto.
  - unfold set_near_distance.
    destruct (m_near c == near_distance); [exact H |].
    apply (stays_current_after_projection_change c); auto.
  - unfold set_far_distance.
    destruct (m_far c == far_distance); [exact H |].
    apply (stays_current_after_projection_change c); auto.
  - now apply stays_current_set_position.
  - unfold set_direction. cbv zeta.
    destruct (vector_eq (m_direction c) (vector_normalize direction));
      [exact H |].
    apply (stays_current_after_view_change c); auto.
  - unfold set_up. cbv zeta.
    destruct (vector_eq (m_up c) (vector_normalize up)); [exact H |].
    apply (stays_current_after_view_change c); auto.
  - unfold move. now apply stays_current_set_position.
  - unfold move_relative, move. cbv zeta. now apply stays_current_set_position.
  - apply (stays_current_after_view_change c); auto.
  - apply (stays_current_after_view_change c); auto.
  - apply (stays_current_after_view_change c); auto.
  - rewrite get_view_runs_update. now apply stays_current_update.
  - rewrite get_projection_runs_update. now apply stays_current_update.
  - rewrite get_matrix_runs_update. now apply stays_current_update.
Qed.

Lemma reachable_is_current (p0 v0 m0 : matrix_type A) (k : construction A)
    (ks : list (call A)) :
  current (run (construct p0 v0 m0 k) ks).
Proof.
  unfold run.
  assert (S : forall l c, current c -> current (fold_left exec l c)).
  { induction l as [| x l IH]; intros c H; cbn [fold_left]; [exact H |].
    apply IH. now apply stays_current_exec. }
  apply S. destruct k; apply current_dirty; reflexivity.
Qed.

(** What a query leaves behind on a camera whose clean caches are
    current. *)
Lemma updated_is_current (c : camera A) :
  current c ->
  m_projection (fst (update c)) = projection_of c /\
  m_view (fst (update c)) = view_of c /\
  m_matrix (fst (update c))
  = product (m_projection (fst (update c))) (m_view (fst (update c))).
Proof.
  intros H. destruct (stays_current_update c H) as (P & V & M).
  destruct (flags_after_update c) as (Fp & Fv & Fm).
  destruct (update_parameters c) as (Ep & Ed & Eu & Ef & Ea & En & Er).
  split; [| split].
  - rewrite (P Fp). now apply projection_of_parameters.
  - rewrite (V Fv). now apply view_of_parameters.
  - destruct (M Fm) as (_ & _ & ->). apply matrix_mult_product.
Qed.

(** ** The orientation is normalised on every write *)








(** C3, amended.  Every matrix query runs [update], and [update]
    recomputes the projection matrix exactly when the projection-dirty
    flag is set, the view matrix exactly when the view-dirty flag is set
    and the combined matrix exactly when the matrix-dirty flag is set, in
    this order; each flag is clear afterwards, a recomputed matrix is the
    matrix of the stored parameters, a recomputed combined matrix is the
    product of the projection and view matrices as the same call leaves
    them, and a matrix whose flag was clear is left as it was.  Hence,
    when [set_fov x] changes the field of view, the next query recomputes
    the projection from [x]; if [x == x], a second [set_fov x] changes
    nothing and the query after it recomputes nothing; if not (a NaN), the
    second [set_fov x] marks the projection and the combined matrix
    again.  This holds in every arithmetic. *)
Theorem recomputation_follows_the_flags (c : camera A) (x : scalar A) :
  let c' := fst (update c) in
  let t := snd (update c) in
  (get_projection c = Build_query (m_projection c') c' t /\
   get_view c = Build_query (m_view c') c' t /\
   get_matrix c = Build_query (m_matrix c') c' t) /\
  ((In projection_recomputed t <-> m_projection_dirty c = true) /\
   m_projection c'
   = (if m_projection_dirty c then projection_of c else m_projection c) /\
   m_projection_dirty c' = false) /\
  ((In view_recomputed t <-> m_view_dirty c = true) /\
   m_view c' = (if m_view_dirty c then view_of c else m_view c) /\
   m_view_dirty c' = false) /\
  ((In matrix_recomputed t <-> m_matrix_dirty c = true) /\
   m_matrix c'
   = (if m_matrix_dirty c then product (m_projection c') (m_view c')
      else m_matrix c) /\
   m_matrix_dirty c' = false) /\
  t = (if m_projection_dirty c then [projection_recomputed] else [])
      ++ (if m_view_dirty c then [view_recomputed] else [])
      ++ (if m_matrix_dirty c then [matrix_recomputed] else []) /\
  (forall q1 q2 : camera A -> query A, In q1 queries -> In q2 queries ->
   (m_fov c == x) = false ->
   let c1 := after (q1 (set_fov x c)) in
   In projection_recomputed (recomputed (q1 (set_fov x c))) /\
   m_fov c1 = x /\
   m_projection c1 = projection_of c1 /\
   ((x == x) = true ->
    set_fov x c1 = c1 /\ recomputed (q2 (set_fov x c1)) = []) /\
   ((x == x) = false ->
    recomputed (q2 (set_fov x c1))
    = [projection_recomputed; matrix_recomputed])).
Proof.
  intros c' t. subst c' t.
  destruct (flags_after_update c) as (P & V & M).
  split; [| split; [| split; [| split; [| split]]]].
  - now rewrite get_projection_runs_update, get_view_runs_update, get_matrix_runs_update.
  - split; [| split; [apply projection_after_update | exact P]].
    rewrite trace_of_update.
    destruct (m_projection_dirty c), (m_view_dirty c), (m_matrix_dirty c);
      simpl; intuition congruence.
  - split; [| split; [apply view_after_update | exact V]].
    rewrite trace_of_update.
    destruct (m_projection_dirty c), (m_view_dirty c), (m_matrix_dirty c);
      simpl; intuition congruence.
  - split; [| split; [apply matrix_after_update | exact M]].
    rewrite trace_of_update.
    destruct (m_projection_dirty c), (m_view_dirty c), (m_matrix_dirty c);
      simpl; intuition congruence.
  - apply trace_of_update.
  - intros q1 q2 I1 I2 N c1. subst c1.
    rewrite (after_query q1 _ I1), (recomputed_by_query q1 _ I1).
    destruct (set_fov_branches x c) as [_ S]. specialize (S N).
    set (s := set_fov x c) in *.
    assert (Ds : m_projection_dirty s = true) by now rewrite S.
    assert (Fs : m_fov s = x) by now rewrite S.
    destruct (flags_after_update s) as (Ps & Vs & Ms).
    destruct (update_parameters s) as (_ & _ & _ & Ef & Ea & En & Er).
    split; [| split; [| split; [| split]]].
    + rewrite trace_of_update, Ds. now left.
    + now rewrite Ef.
    + rewrite projection_after_update, Ds.
      symmetry. now apply projection_of_parameters.
    + intros R.
      destruct (set_fov_branches x (fst (update s))) as [E _].
      rewrite Ef, Fs in E. specialize (E R).
      split; [exact E |].
      rewrite E, (recomputed_by_query q2 _ I2).
      now rewrite update_twice.
    + intros R.
      destruct (set_fov_branches x (fst (update s))) as [_ E].
      rewrite Ef, Fs in E. specialize (E R).
      rewrite (recomputed_by_query q2 _ I2), trace_of_update, E.
      cbn [m_projection_dirty m_view_dirty m_matrix_dirty].
      now rewrite Vs.
Qed.

(** C4, amended.  On a camera obtained from a constructor by any
    sequence of public calls, in every arithmetic, the matrix returned by
    [get_matrix] is element by element the value of the product of the
    matrix returned by [get_projection] and the matrix returned by
    [get_view]: the element in row [r] and column [c] is the sum over
    [k = 0, 1, 2, 3] of the products of the element of the projection in
    row [r], column [k] and the element of the view in row [k], column
    [c], added in this order.  This holds when the three are asked of the
    same camera, and when they are asked one after the other in either
    order. *)
Theorem matrix_is_the_product_of_projection_and_view
    (p0 v0 m0 : matrix_type A) (k : construction A) (ks : list (call A)) :
  let c := run (construct p0 v0 m0 k) ks in
  let projection := returned (get_projection c) in
  let view := returned (get_view c) in
  returned (get_matrix c) = product projection view /\
  (forall row column : nat, (row < 4)%nat -> (column < 4)%nat ->
   entry (returned (get_matrix c)) row column
   = entry projection row 0 * entry view 0 column
     + entry projection row 1 * entry view 1 column
     + entry projection row 2 * entry view 2 column
     + entry projection row 3 * entry view 3 column) /\
  (let q1 := get_matrix c in
   let q2 := get_projection (after q1) in
   let q3 := get_view (after q2) in
   returned q1 = product (returned q2) (returned q3)) /\
  (let q1 := get_projection c in
   let q2 := get_view (after q1) in
   let q3 := get_matrix (after q2) in
   returned q3 = product (returned q1) (returned q2)).
Proof.
  intros c projection view. subst projection view. cbv zeta.
  rewrite !get_matrix_runs_update, !get_projection_runs_update, !get_view_runs_update.
  cbn [returned after]. repeat (rewrite update_twice; cbn [fst]).
  destruct (updated_is_current c (reachable_is_current p0 v0 m0 k ks))
    as (_ & _ & H).
  fold c in H. split; [exact H | split; [| split; exact H]].
  intros row column Hr Hc. rewrite H.
  destruct row as [| [| [| [| row]]]]; try lia;
    destruct column as [| [| [| [| column]]]]; try lia; reflexivity.
Qed.


(** C10.  On a camera obtained from a constructor by any sequence of
    public calls, in every arithmetic, each of [get_view],
    [get_projection] and [get_matrix] leaves the camera as [update]
    leaves it, whichever matrix was asked for: the three flags are clear,
    the cached projection matrix is the projection matrix of the stored
    field of view, aspect ratio and plane distances, the cached view
    matrix is the view matrix of the stored position, direction and up
    vector, the cached combined matrix is the product of the two cached
    matrices, and the parameters are as they were.  A further query of
    any of the three matrices recomputes nothing, leaves the camera as it
    is and returns the cached matrix. *)
Theorem one_query_brings_all_up_to_date (p0 v0 m0 : matrix_type A)
    (k : construction A) (ks : list (call A)) :
  let c := run (construct p0 v0 m0 k) ks in
  Forall (fun q : camera A -> query A =>
    let c' := after (q c) in
    c' = fst (update c) /\
    recomputed (q c)
    = (if m_projection_dirty c then [projection_recomputed] else [])
      ++ (if m_view_dirty c then [view_recomputed] else [])
      ++ (if m_matrix_dirty c then [matrix_recomputed] else []) /\
    (m_projection_dirty c' = false /\ m_view_dirty c' = false /\
     m_matrix_dirty c' = false) /\
    m_projection c' = projection_of c /\
    m_view c' = view_of c /\
    m_matrix c' = product (m_projection c') (m_view c') /\
    (m_position c' = m_position c /\ m_direction c' = m_direction c /\
     m_up c' = m_up c /\ m_fov c' = m_fov c /\ m_aspect c' = m_aspect c /\
     m_near c' = m_near c /\ m_far c' = m_far c) /\
    Forall (fun q' : camera A -> query A =>
      recomputed (q' c') = [] /\ after (q' c') = c') queries /\
    returned (get_projection c') = m_projection c' /\
    returned (get_view c') = m_view c' /\
    returned (get_matrix c') = m_matrix c') queries.
Proof.
  intros c. apply Forall_forall. intros q I. cbv zeta.
  rewrite (after_query q c I), (recomputed_by_query q c I).
  destruct (updated_is_current c (reachable_is_current p0 v0 m0 k ks))
    as (HP & HV & HM).
  fold c in HP, HV, HM.
  split; [reflexivity |].
  split; [apply trace_of_update |].
  split; [apply flags_after_update |].
  split; [exact HP |]. split; [exact HV |]. split; [exact HM |].
  split; [apply update_parameters |].
  split.
  - apply Forall_forall. intros q' I'.
    rewrite (after_query q' _ I'), (recomputed_by_query q' _ I').
    rewrite update_twice. split; reflexivity.
  - rewrite get_projection_runs_update, get_view_runs_update, get_matrix_runs_update.
    cbn [returned]. rewrite update_twice. cbn [fst].
    split; [reflexivity | split; reflexivity].
Qed.

End Over.

(** ** At the real numbers *)

Lemma real_equal_true (x y : R) : x = y -> real_equal x y = true.
Proof. intros E. unfold real_equal. now destruct (Req_dec_T x y). Qed.

Lemma real_equal_false (x y : R) : x <> y -> real_equal x y = false.
Proof. intros E. unfold real_equal. now destruct (Req_dec_T x y). Qed.

Lemma recomputation_follows_the_flags_witness :
  let c :=
    after
      (get_matrix
         (camera_default (A := reals) matrix_zero matrix_zero matrix_zero)) in
  let c1 := after (get_projection (set_fov (A := reals) 1%R c)) in
  recomputed (get_view c) = [] /\
  In projection_recomputed
    (recomputed (get_projection (set_fov (A := reals) 1%R c))) /\
  m_fov c1 = 1%R /\
  set_fov (A := reals) 1%R c1 = c1 /\
  recomputed (get_matrix (set_fov (A := reals) 1%R c1)) = [].
Proof.
  intros c c1.
  destruct (recomputation_follows_the_flags c 1%R)
    as (_ & _ & _ & _ & T & H).
  destruct (H get_projection get_matrix) as (H1 & H2 & _ & H3 & _).
  - right. left. reflexivity.
  - right. right. left. reflexivity.
  - unfold c. rewrite get_matrix_runs_update. cbn [after].
    destruct (update_parameters
                (camera_default (A := reals) matrix_zero matrix_zero
                   matrix_zero)) as (_ & _ & _ & -> & _).
    cbn [camera_default m_fov]. apply real_equal_false.
    cbn [pi of_int reals times divide]. lra.
  - split.
    + rewrite get_view_runs_update. cbn [recomputed]. rewrite T.
      unfold c. rewrite get_matrix_runs_update. cbn [after].
      destruct (flags_after_update
                  (camera_default (A := reals) matrix_zero matrix_zero
                     matrix_zero)) as (-> & -> & ->).
      reflexivity.
    + split; [exact H1 |]. split; [exact H2 |].
      apply H3. now apply real_equal_true.
Defined.

(** ** On doubles *)

Import PrimFloat CameraDouble.

(** C3, refuted as stated.  On a default-constructed [camera<double>],
    [set_fov] with a NaN changes the stored field of view, the query
    after it recomputes the projection, and the query after a second
    [set_fov] with the same NaN recomputes again, whatever the library
    functions return: the comparison [m_fov == fov] of a NaN with itself
    is false. *)
Lemma second_set_fov_of_nan_recomputes :
  ~ exists L : library binary64,
      let c :=
        camera_default (A := binary64) matrix_zero matrix_zero matrix_zero in
      let c1 := after (get_projection (set_fov (A := binary64) nan c)) in
      recomputed (get_projection (set_fov (A := binary64) nan c1)) = [].
Proof. intros [L H]. vm_compute in H. discriminate. Qed.

(** C4, refuted as stated.  On a [camera<double>] constructed with equal
    near and far distances, the element 10 of the matrix [get_matrix]
    returns is not within the tolerance of the element 10 of the product
    of the matrices [get_projection] and [get_view] return, whatever the
    library functions return: both are NaN, the sum of minus infinity
    times one and minus infinity times zero. *)
Lemma matrix_of_equal_planes_is_not_a_number :
  ~ exists L : library binary64,
      let c :=
        camera_projection (A := binary64) matrix_zero matrix_zero matrix_zero
          (pi * of_int 90 / of_int 180)%scalar one one one in
      within tolerance
        (mat10 (returned (get_matrix c)))
        (mat10 (product (returned (get_projection c))
                  (returned (get_view c)))) = true.
Proof. intros [L H]. vm_compute in H. discriminate. Qed.


End CameraTFacts.

(** * Further properties of the camera in every arithmetic *)

Module CameraTGeometry.

Import Scalar CameraT CameraTFacts.

Local Open Scope scalar_scope.

Import PrimFloat CameraDouble.

(** X1.  [matrix_mult] is the product of 4x4 matrices stored by columns,
    in every arithmetic: the element of the result in row [r] and column
    [c] is the sum over [k = 0, 1, 2, 3] of the products of the element of
    the left factor in row [r], column [k] and the element of the right
    factor in row [k], column [c], added in this order.  On doubles the
    product is not associative: the scalings by 0.1, 0.2 and 0.3 multiply
    to different matrices in the two groupings. *)
Theorem matrix_mult_is_a_product :
  (forall (A : arithmetic) (m n : matrix_type A),
   matrix_mult m n = product m n /\
   forall row column : nat, (row < 4)%nat -> (column < 4)%nat ->
   entry (matrix_mult m n) row column
   = (entry m row 0 * entry n 0 column + entry m row 1 * entry n 1 column
      + entry m row 2 * entry n 2 column
      + entry m row 3 * entry n 3 column)%scalar) /\
  (let a := scaling 0x1.999999999999ap-4 in
   let b := scaling 0x1.999999999999ap-3 in
   let c := scaling 0x1.3333333333333p-2 in
   matrix_mult (matrix_mult a b) c <> matrix_mult a (matrix_mult b c) /\
   PrimFloat.eqb (mat0 (matrix_mult (matrix_mult a b) c))
     (mat0 (matrix_mult a (matrix_mult b c))) = false)%float.
Proof.
  split.
  - intros A m n. split; [reflexivity |].
    intros row column Hr Hc.
    destruct row as [| [| [| [| row]]]]; try lia;
      destruct column as [| [| [| [| column]]]]; try lia; reflexivity.
  - cbv zeta.
    assert (F : PrimFloat.eqb
                  (mat0 (matrix_mult
                           (matrix_mult (scaling 0x1.999999999999ap-4)
                              (scaling 0x1.999999999999ap-3))
                           (scaling 0x1.3333333333333p-2)))
                  (mat0 (matrix_mult (scaling 0x1.999999999999ap-4)
                           (matrix_mult (scaling 0x1.999999999999ap-3)
                              (scaling 0x1.3333333333333p-2)))) = false)
      by (vm_compute; reflexivity).
    split; [| exact F].
    intros E. rewrite E in F. vm_compute in F. discriminate.
Qed.

(** X6.  [move] is [set_position] with the sum of the stored position
    and the offset, element by element, in every arithmetic: if the sum
    compares equal to the stored position nothing changes, not even a
    flag, and otherwise the sum is stored and the view and the combined
    matrix are marked stale; orientation, projection parameters and
    caches are left alone.  On doubles a move by an offset other than
    zero can change nothing: from the position (1, 0, 0), after a query,
    a move by (2^-60, 0, 0) returns the camera as it was, whatever the
    library functions return. *)
Theorem move_adds_offsets :
  (forall (A : arithmetic) (c : camera A) (offset : vector_type A),
   let sum :=
     vec (vec0 (m_position c) + vec0 offset)
         (vec1 (m_position c) + vec1 offset)
         (vec2 (m_position c) + vec2 offset) in
   (vector_eq (m_position c) sum = true -> move offset c = c) /\
   (vector_eq (m_position c) sum = false ->
    move offset c
    = Build_camera (m_projection c) (m_view c) (m_matrix c) sum
        (m_direction c) (m_up c) (m_fov c) (m_aspect c) (m_near c)
        (m_far c) (m_projection_dirty c) true true)) /\
  (forall L : library binary64,
   let c :=
     after
       (get_matrix
          (set_position (vector 1 0 0)
             (camera_default matrix_zero matrix_zero matrix_zero))) in
   get_position c = vector 1 0 0 /\
   move (vector 0x1p-60 0 0) c = c /\
   m_view_dirty (move (vector 0x1p-60 0 0) c) = false /\
   m_view_dirty (move (vector 0x1p-50 0 0) c) = true)%float.
Proof.
  split.
  - intros A c offset sum. unfold move. fold sum. unfold set_position.
    split; intros ->; [reflexivity |]. now destruct c.
  - intros L. vm_compute. repeat split.
Qed.

(** X13.  [set_orientation_taitbryan] is absolute, in every arithmetic:
    the direction and the up vector it stores depend on the three angles
    only, not on what the camera held before; the position, the
    projection parameters, the caches and the projection-dirty flag are
    left alone, and the view and the combined matrix are marked stale
    without any comparison. *)
Theorem taitbryan_discards_the_orientation (A : arithmetic)
    (L : library A) (yaw pitch roll : scalar A) (c c' : camera A) :
  let r := set_orientation_taitbryan yaw pitch roll c in
  let r' := set_orientation_taitbryan yaw pitch roll c' in
  (m_direction r = m_direction r' /\ m_up r = m_up r') /\
  (m_position r = m_position c /\ m_fov r = m_fov c /\
   m_aspect r = m_aspect c /\ m_near r = m_near c /\ m_far r = m_far c) /\
  (m_projection r = m_projection c /\ m_view r = m_view c /\
   m_matrix r = m_matrix c) /\
  (m_projection_dirty r = m_projection_dirty c /\
   m_view_dirty r = true /\ m_matrix_dirty r = true).
Proof.
  destruct c, c'. cbv zeta. repeat split.
Qed.



End CameraTGeometry.

(** * Properties of the resource handle *)

Module ObjectFacts.

Import Object.
Local Open Scope Z_scope.

(** ** Lists updated in place *)

Lemma update_at_middle {A : Type} (l1 l2 : list A) (a x : A) :
  update_at (length l1) x (l1 ++ a :: l2) = l1 ++ x :: l2.
Proof. induction l1 as [| h t IH]; simpl; [reflexivity | now rewrite IH]. Qed.

Lemma nth_error_middle {A : Type} (l1 l2 : list A) (a : A) :
  nth_error (l1 ++ a :: l2) (length l1) = Some a.
Proof. induction l1 as [| h t IH]; simpl; [reflexivity | exact IH]. Qed.

Lemma update_at_length {A : Type} (i : nat) (x : A) (l : list A) :
  length (update_at i x l) = length l.
Proof.
  revert i. induction l as [| h t IH]; intros [| i]; simpl; auto.
Qed.

Lemma nth_error_update_at_same {A : Type} (i : nat) (x a : A) (l : list A) :
  nth_error l i = Some a -> nth_error (update_at i x l) i = Some x.
Proof.
  revert i. induction l as [| h t IH]; intros [| i]; simpl; try discriminate.
  - reflexivity.
  - apply IH.
Qed.

Lemma nth_error_update_at_other {A : Type} (i j : nat) (x : A) (l : list A) :
  i <> j -> nth_error (update_at i x l) j = nth_error l j.
Proof.
  revert i j. induction l as [| h t IH]; intros [| i] [| j] N; simpl;
    try reflexivity.
  - now elim N.
  - apply IH. congruence.
Qed.

Lemma live_names_app (l1 l2 : list (option GLuint)) :
  live_names (l1 ++ l2) = live_names l1 ++ live_names l2.
Proof.
  induction l1 as [| [n |] t IH]; simpl; [reflexivity | now rewrite IH
                                         | exact IH].
Qed.

Lemma live_names_store (i : nat) (old new : GLuint)
    (l : list (option GLuint)) :
  nth_error l i = Some (Some old) ->
  Permutation (old :: live_names (update_at i (Some new) l))
    (new :: live_names l).
Proof.
  intros H. destruct (nth_error_split l i H) as (l1 & l2 & -> & <-).
  rewrite update_at_middle, !live_names_app. simpl.
  rewrite <- !Permutation_middle. apply perm_swap.
Qed.

Lemma live_names_release (i : nat) (old : GLuint)
    (l : list (option GLuint)) :
  nth_error l i = Some (Some old) ->
  Permutation (old :: live_names (update_at i None l)) (live_names l).
Proof.
  intros H. destruct (nth_error_split l i H) as (l1 & l2 & -> & <-).
  rewrite update_at_middle, !live_names_app. simpl.
  apply Permutation_middle.
Qed.

(** ** Liveness *)

Lemma alive_liveness (s : state) (i : nat) :
  alive s i = nth i (liveness s) false.
Proof.
  unfold alive, liveness. destruct s as [l d]. simpl. revert i.
  induction l as [| [n |] t IH]; intros [| i]; simpl; auto.
Qed.

Lemma alive_load (s : state) (i : nat) :
  alive s i = true -> exists n, nth_error (objects s) i = Some (Some n).
Proof.
  unfold alive. destruct (nth_error (objects s) i) as [[n |] |];
    try discriminate. intros _. now exists n.
Qed.

Lemma liveness_update_some (i : nat) (old new : GLuint)
    (l : list (option GLuint)) (d d' : list GLuint) :
  nth_error l i = Some (Some old) ->
  liveness (Build_state (update_at i (Some new) l) d') =
  liveness (Build_state l d).
Proof.
  intros H. destruct (nth_error_split l i H) as (l1 & l2 & -> & <-).
  unfold liveness. simpl. rewrite update_at_middle, !map_app. reflexivity.
Qed.

Lemma liveness_update_none (i : nat) (old : GLuint)
    (l : list (option GLuint)) (d d' : list GLuint) :
  nth_error l i = Some (Some old) ->
  liveness (Build_state (update_at i None l) d') =
  update_at i false (liveness (Build_state l d)).
Proof.
  intros H. destruct (nth_error_split l i H) as (l1 & l2 & -> & <-).
  unfold liveness. simpl. rewrite update_at_middle, !map_app. simpl.
  rewrite <- (length_map
    (fun o : option GLuint => match o with Some _ => true | None => false end)
    l1).
  now rewrite update_at_middle.
Qed.

(** ** The operations, one by one *)

(** [std::swap] on the names of two live handles: afterwards each holds
    what the other held, no other handle has changed, no handle was
    created or has ended, and the [Deleter] was not called. *)
Lemma swap_exchanges (s : state) (this other : nat) (a b : GLuint) :
  nth_error (objects s) this = Some (Some a) ->
  nth_error (objects s) other = Some (Some b) ->
  exists s',
    swap this other s = Some (tt, s') /\
    nth_error (objects s') this = Some (Some b) /\
    nth_error (objects s') other = Some (Some a) /\
    (forall j, j <> this -> j <> other ->
       nth_error (objects s') j = nth_error (objects s) j) /\
    deleted s' = deleted s /\
    liveness s' = liveness s /\
    Permutation (live_names (objects s')) (live_names (objects s)).
Proof.
  intros Ha Hb. destruct s as [l d]. simpl in Ha, Hb.
  set (l1 := update_at this (Some b) l).
  assert (H1 : nth_error l1 other = Some (Some b)).
  { destruct (Nat.eq_dec this other) as [-> | N].
    - apply (nth_error_update_at_same _ _ _ _ Ha).
    - unfold l1. now rewrite nth_error_update_at_other. }
  exists (Build_state (update_at other (Some a) l1) d).
  split; [| split; [| split; [| split; [| split; [| split]]]]].
  - unfold swap, bind, load, store. cbn [objects deleted].
    rewrite Ha. cbn [objects deleted]. rewrite Hb. cbn [objects deleted].
    rewrite Ha. cbn [objects deleted]. fold l1. rewrite H1. reflexivity.
  - simpl. destruct (Nat.eq_dec this other) as [-> | N].
    + rewrite (nth_error_update_at_same _ _ _ _ H1).
      rewrite Ha in Hb. congruence.
    + rewrite nth_error_update_at_other by congruence.
      apply (nth_error_update_at_same _ _ _ _ Ha).
  - simpl. apply (nth_error_update_at_same _ _ _ _ H1).
  - simpl. intros j Nt No. unfold l1.
    rewrite !nth_error_update_at_other by congruence. reflexivity.
  - reflexivity.
  - rewrite (liveness_update_some _ _ _ _ d d H1). unfold l1.
    apply (liveness_update_some _ _ _ _ d d Ha).
  - simpl. apply (Permutation_cons_inv (a := b)).
    transitivity (a :: live_names l1).
    + apply (live_names_store _ _ _ _ H1).
    + apply (live_names_store _ _ _ _ Ha).
Qed.

Lemma held_load (s : state) (this : nat) (n : GLuint) :
  held s this = Some n <-> nth_error (objects s) this = Some (Some n).
Proof.
  unfold held, name, load.
  destruct (nth_error (objects s) this) as [[m |] |]; simpl;
    split; intros E; try discriminate; congruence.
Qed.

(** Move-assignment is the swap. *)
Lemma move_assign_exchanges (s : state) (this other : nat) (a b : GLuint) :
  held s this = Some a -> held s other = Some b ->
  exists s',
    move_assign this other s = Some (tt, s') /\
    held s' this = Some b /\ held s' other = Some a /\
    deleted s' = deleted s.
Proof.
  intros Ha Hb. apply held_load in Ha, Hb.
  destruct (swap_exchanges s this other a b Ha Hb)
    as (s' & E & Ht & Ho & _ & D & _).
  exists s'. rewrite !held_load. auto.
Qed.

(** Move-construction: the new handle takes the name, the source is left
    with zero, and the [Deleter] is not called. *)
Lemma move_construct_takes (s : state) (other : nat) (b : GLuint) :
  nth_error (objects s) other = Some (Some b) ->
  exists s',
    move_construct other s = Some (length (objects s), s') /\
    nth_error (objects s') (length (objects s)) = Some (Some b) /\
    nth_error (objects s') other = Some (Some 0) /\
    deleted s' = deleted s /\
    liveness s' = liveness s ++ [true] /\
    Permutation (live_names (objects s')) (0 :: live_names (objects s)).
Proof.
  intros Hb. destruct s as [l d]. cbn [objects deleted] in *.
  set (s1 := Build_state (l ++ [@Some GLuint 0]) d).
  assert (L : (other < length l)%nat)
    by (apply nth_error_Some; rewrite Hb; discriminate).
  assert (H0 : nth_error (objects s1) (length l) = Some (Some 0))
    by apply nth_error_middle.
  assert (H1 : nth_error (objects s1) other = Some (Some b))
    by (cbn [s1 objects]; now rewrite nth_error_app1).
  destruct (swap_exchanges s1 (length l) other 0 b H0 H1)
    as (s' & E & Ht & Ho & _ & D & Lv & P).
  exists s'. split; [| split; [| split; [| split; [| split]]]].
  - unfold move_construct, bind, allocate, ret. cbn [objects deleted].
    unfold s1 in E. now rewrite E.
  - exact Ht.
  - exact Ho.
  - exact D.
  - rewrite Lv. unfold liveness, s1. cbn [objects]. now rewrite map_app.
  - rewrite P. cbn [s1 objects]. rewrite live_names_app. simpl.
    symmetry. apply Permutation_cons_append.
Qed.

(** The destructor calls the [Deleter] once, with the name held. *)
Lemma destroy_deletes (s : state) (this : nat) (n : GLuint) :
  nth_error (objects s) this = Some (Some n) ->
  destroy this s =
  Some (tt, Build_state (update_at this None (objects s)) (deleted s ++ [n])).
Proof.
  intros H. unfold destroy, bind, load, Deleter, release.
  rewrite H. cbn [objects deleted]. now rewrite H.
Qed.

Lemma destroy_names (l : list (option GLuint)) (d : list GLuint)
    (this : nat) (n : GLuint) :
  nth_error l this = Some (Some n) ->
  Permutation (names (Build_state (update_at this None l) (d ++ [n])))
    (names (Build_state l d)).
Proof.
  intros H. unfold names. cbn [objects deleted].
  rewrite <- (live_names_release _ _ _ H).
  rewrite app_assoc, <- Permutation_cons_append. reflexivity.
Qed.

(** ** Sequences of operations *)

Lemma step_names (o : op) (s : state) :
  well_formed [o] (liveness s) = true ->
  exists s',
    step o s = Some (tt, s') /\
    (forall os, well_formed (o :: os) (liveness s) = true ->
                well_formed os (liveness s') = true) /\
    exists k, Permutation (names s') (repeat 0 k ++ names s).
Proof.
  destruct o as [other | this other | this]; cbn [well_formed];
    rewrite <- ?alive_liveness, ?andb_true_r.
  - intros A. destruct (alive_load _ _ A) as [b Hb].
    destruct (move_construct_takes s other b Hb)
      as (s' & E & _ & _ & D & Lv & P).
    exists s'. split; [| split].
    + unfold step, bind, ret. now rewrite E.
    + intros os W. apply andb_true_iff in W. rewrite Lv. apply W.
    + exists 1%nat. unfold names. rewrite P, D. reflexivity.
  - intros A. apply andb_true_iff in A. destruct A as [At Ao].
    destruct (alive_load _ _ At) as [a Ha].
    destruct (alive_load _ _ Ao) as [b Hb].
    destruct (swap_exchanges s this other a b Ha Hb)
      as (s' & E & _ & _ & _ & D & Lv & P).
    exists s'. split; [| split].
    + exact E.
    + intros os W. apply andb_true_iff in W. rewrite Lv. apply W.
    + exists 0%nat. unfold names. rewrite P, D. reflexivity.
  - intros A. destruct (alive_load _ _ A) as [n Hn].
    exists (Build_state (update_at this None (objects s)) (deleted s ++ [n])).
    split; [| split].
    + now apply destroy_deletes.
    + intros os W. apply andb_true_iff in W.
      rewrite (liveness_update_none _ _ _ (deleted s) _ Hn).
      destruct s. apply W.
    + exists 0%nat. destruct s as [l d]. now apply destroy_names.
Qed.

Lemma steps_names (os : list op) (s : state) :
  well_formed os (liveness s) = true ->
  exists s' k,
    steps os s = Some (tt, s') /\
    Permutation (names s') (repeat 0 k ++ names s).
Proof.
  revert s. induction os as [| o os IH]; intros s W.
  - exists s, 0%nat. split; reflexivity.
  - assert (W1 : well_formed [o] (liveness s) = true).
    { destruct o; cbn [well_formed] in *;
        apply andb_true_iff in W; destruct W as [W _];
        now rewrite W. }
    destruct (step_names o s W1) as (s1 & E & Next & k1 & P1).
    destruct (IH s1 (Next os W)) as (s' & k & E' & P).
    exists s', (k + k1)%nat. split.
    + cbn [steps]. unfold bind. now rewrite E.
    + rewrite P, P1, repeat_app, app_assoc. reflexivity.
Qed.

Lemma firstn_middle {A : Type} (l1 l2 : list A) :
  firstn (length l1) (l1 ++ l2) = l1.
Proof. induction l1 as [| h t IH]; simpl; [now destruct l2 | now rewrite IH]. Qed.

Lemma skipn_middle {A : Type} (l1 l2 : list A) :
  skipn (length l1) (l1 ++ l2) = l2.
Proof. induction l1 as [| h t IH]; simpl; [reflexivity | exact IH]. Qed.

Lemma firstn_succ_middle {A : Type} (l1 l2 : list A) (x : A) :
  firstn (S (length l1)) (l1 ++ x :: l2) = l1 ++ [x].
Proof.
  induction l1 as [| h t IH].
  - reflexivity.
  - cbn [length app].
    change (firstn (S (S (length t))) (h :: t ++ x :: l2))
      with (h :: firstn (S (length t)) (t ++ x :: l2)).
    now rewrite IH.
Qed.

Lemma skipn_succ_middle {A : Type} (l1 l2 : list A) (x : A) :
  skipn (S (length l1)) (l1 ++ x :: l2) = l2.
Proof. induction l1 as [| h t IH]; simpl; [reflexivity | exact IH]. Qed.

(** The final destruction calls the [Deleter] with the name of each live
    handle, the handle constructed last first, and leaves no handle
    alive. *)
Lemma destroy_first_spec (n : nat) (s : state) :
  (n <= length (objects s))%nat ->
  exists s',
    destroy_first n s = Some (tt, s') /\
    live_names (objects s') = live_names (skipn n (objects s)) /\
    deleted s' = deleted s ++ rev (live_names (firstn n (objects s))).
Proof.
  revert s. induction n as [| i IH]; intros s L.
  - exists s. cbn [destroy_first ret firstn skipn live_names rev].
    now rewrite app_nil_r.
  - destruct (nth_error (objects s) i) as [x |] eqn:H;
      [| apply nth_error_None in H; lia].
    destruct (nth_error_split _ _ H) as (l1 & l2 & El & Ei).
    destruct s as [l d]. cbn [objects deleted] in *. subst l i.
    cbn [destroy_first]. unfold bind at 1. unfold destroy_if_alive, alive.
    cbn [objects]. rewrite nth_error_middle. destruct x as [m |].
    + rewrite (destroy_deletes (Build_state (l1 ++ Some m :: l2) d)
                 (length l1) m H).
      cbn [objects deleted]. rewrite update_at_middle.
      destruct (IH (Build_state (l1 ++ None :: l2) (d ++ [m])))
        as (s' & E & Lv & D).
      { cbn [objects]. rewrite !length_app in *. simpl in *. lia. }
      exists s'. split; [exact E | split].
      * rewrite Lv. cbn [objects].
        now rewrite skipn_middle, skipn_succ_middle.
      * rewrite D. cbn [objects deleted].
        rewrite firstn_middle, firstn_succ_middle, live_names_app.
        simpl. rewrite rev_app_distr, <- app_assoc. reflexivity.
    + destruct (IH (Build_state (l1 ++ None :: l2) d)) as (s' & E & Lv & D).
      { cbn [objects]. rewrite !length_app in *. simpl in *. lia. }
      exists s'. split; [exact E | split].
      * rewrite Lv. cbn [objects].
        now rewrite skipn_middle, skipn_succ_middle.
      * rewrite D. cbn [objects deleted].
        rewrite firstn_middle, firstn_succ_middle, live_names_app.
        simpl. now rewrite app_nil_r.
Qed.

Lemma destroy_all_spec (s : state) :
  exists s',
    destroy_all s = Some (tt, s') /\
    live_names (objects s') = [] /\
    deleted s' = deleted s ++ rev (live_names (objects s)).
Proof.
  destruct (destroy_first_spec (length (objects s)) s (le_n _))
    as (s' & E & Lv & D).
  exists s'. rewrite skipn_all in Lv. rewrite firstn_all in D. auto.
Qed.

(** ** The whole lifetime of a chain of handles *)

Lemma lifetime_deleted (generated : GLuint) (os : list op) :
  well_formed os [true] = true ->
  exists s k,
    lifetime generated os initial = Some (tt, s) /\
    live_names (objects s) = [] /\
    Permutation (deleted s) (repeat 0 k ++ [generated]).
Proof.
  intros W.
  set (s0 := Build_state [Some generated] []).
  destruct (steps_names os s0 W) as (s1 & k & E1 & P1).
  destruct (destroy_all_spec s1) as (s & E & Lv & D).
  exists s, k. split; [| split].
  - unfold lifetime, bind, default_construct, allocate.
    cbn [initial objects deleted app length]. fold s0. now rewrite E1.
  - exact Lv.
  - rewrite D. transitivity (names s1); [| exact P1]. unfold names.
    rewrite Permutation_app_comm. apply Permutation_app_tail.
    symmetry. apply Permutation_rev.
Qed.

(** C2, refuted as stated.  Construct a handle with the name 42,
    move-construct a second handle from it, then move-assign the first
    handle to the second: the first handle is the one moved from, and
    [name()] returns 42 for it, not zero. *)
Lemma moved_from_handle_holds_the_name :
  (default_construct 42 ;;;
   move_construct 0%nat ;;;
   move_assign 1%nat 0%nat ;;;
   name 0%nat) initial
  = Some (42, Build_state [Some 42; Some 0] []).
Proof. reflexivity. Qed.

(** C2, amended.  Take one constructed handle whose generated name is
    not zero and any sequence of move-constructions, move-assignments and
    destructions applied to handles that are alive; destroy every handle
    left.  The run is defined, the [Deleter] has been called with the
    generated name exactly once, every other call of the [Deleter] had
    the argument zero, and no handle is left alive.  Move-assignment
    exchanges the names of the two handles and does not call the
    [Deleter]: the handle moved from holds what the target held, which
    need not be zero.  Move-construction gives the new handle the name of
    the source, leaves the source with zero and does not call the
    [Deleter]. *)
Theorem name_deleted_exactly_once (generated : GLuint) (os : list op) :
  generated <> 0 ->
  well_formed os [true] = true ->
  (exists s,
     lifetime generated os initial = Some (tt, s) /\
     count_occ Z.eq_dec (deleted s) generated = 1%nat /\
     (forall n, In n (deleted s) -> n = generated \/ n = 0) /\
     live_names (objects s) = []) /\
  (forall s this other a b,
     held s this = Some a -> held s other = Some b ->
     exists s',
       move_assign this other s = Some (tt, s') /\
       held s' this = Some b /\ held s' other = Some a /\
       deleted s' = deleted s) /\
  (forall s other b,
     held s other = Some b ->
     exists this s',
       move_construct other s = Some (this, s') /\
       held s' this = Some b /\ held s' other = Some 0 /\
       deleted s' = deleted s).
Proof.
  intros G W. split; [| split].
  - destruct (lifetime_deleted generated os W) as (s & k & E & Lv & P).
    exists s. split; [exact E | split; [| split; [| exact Lv]]].
    + rewrite (proj1 (Permutation_count_occ Z.eq_dec _ _) P).
      rewrite count_occ_app, count_occ_repeat_neq by exact G.
      simpl. destruct (Z.eq_dec generated generated); [reflexivity |].
      congruence.
    + intros n I. apply (Permutation_in _ P) in I.
      apply in_app_or in I. destruct I as [I | [I | []]].
      * right. exact (repeat_spec _ _ _ I).
      * left. now symmetry.
  - intros s this other a b. apply move_assign_exchanges.
  - intros s other b H. apply held_load in H.
    destruct (move_construct_takes s other b H)
      as (s' & E & Ht & Ho & D & _).
    exists (length (objects s)), s'. rewrite !held_load. auto.
Qed.

Lemma name_deleted_exactly_once_witness :
  exists s,
    lifetime 42
      [Move_construct 0; Move_assign 1 0; Move_construct 0; Destroy 1;
       Move_assign 2 0] initial = Some (tt, s) /\
    count_occ Z.eq_dec (deleted s) 42 = 1%nat /\
    (forall n, In n (deleted s) -> n = 42 \/ n = 0) /\
    live_names (objects s) = [].
Proof.
  refine (proj1 (name_deleted_exactly_once 42 _ _ _)).
  - discriminate.
  - reflexivity.
Defined.

End ObjectFacts.

(** * Properties of the renderbuffer *)

Module RenderbufferFacts.

Import Renderbuffer.
Local Open Scope Z_scope.

Lemma renderbuffer_multisample_result
    (samples internal_format the_width the_height : Z) (g : context)
    (r : renderbuffer) (g' : context) :
  renderbuffer_multisample samples internal_format the_width the_height g
    = Some (r, g') ->
  r = Build_renderbuffer (next_name g) the_width the_height.
Proof.
  unfold renderbuffer_multisample, gen_renderbuffers.
  cbn [GL_MAX_SAMPLES GL_MAX_RENDERBUFFER_SIZE].
  destruct (samples <=? GL_MAX_SAMPLES g); [| discriminate].
  destruct (the_width <=? GL_MAX_RENDERBUFFER_SIZE g); [| discriminate].
  destruct (the_height <=? GL_MAX_RENDERBUFFER_SIZE g); [| discriminate].
  cbn [negb]. intros E. now injection E as <- _.
Qed.

Lemma renderbuffer_multisample_defined
    (samples internal_format the_width the_height : Z) (g : context) :
  samples <= GL_MAX_SAMPLES g ->
  the_width <= GL_MAX_RENDERBUFFER_SIZE g ->
  the_height <= GL_MAX_RENDERBUFFER_SIZE g ->
  exists r g',
    renderbuffer_multisample samples internal_format the_width the_height g
      = Some (r, g').
Proof.
  intros S W H. unfold renderbuffer_multisample, gen_renderbuffers.
  cbn [GL_MAX_SAMPLES GL_MAX_RENDERBUFFER_SIZE].
  apply Z.leb_le in S, W, H. rewrite S, W, H. cbn [negb]. eauto.
Qed.

(** C9.  Both constructors succeed when the assertions on the limits of
    the GL hold, and for every renderbuffer either of them constructs with
    the width [the_width] and the height [the_height], [width()] returns
    [the_width] and [height()] returns [the_width] as well: the member
    [m_width], not the member [m_height], which holds [the_height]. *)
Theorem height_returns_width
    (samples internal_format the_width the_height : Z) (g : context) :
  (samples <= GL_MAX_SAMPLES g ->
   the_width <= GL_MAX_RENDERBUFFER_SIZE g ->
   the_height <= GL_MAX_RENDERBUFFER_SIZE g ->
   exists r g',
     renderbuffer_multisample samples internal_format the_width the_height g
       = Some (r, g')) /\
  (forall r g',
     renderbuffer_multisample samples internal_format the_width the_height g
       = Some (r, g') ->
     width r = the_width /\ height r = the_width /\
     height r = m_width r /\ m_height r = the_height) /\
  (0 <= GL_MAX_SAMPLES g ->
   the_width <= GL_MAX_RENDERBUFFER_SIZE g ->
   the_height <= GL_MAX_RENDERBUFFER_SIZE g ->
   exists r g',
     renderbuffer_new internal_format the_width the_height g = Some (r, g')) /\
  (forall r g',
     renderbuffer_new internal_format the_width the_height g = Some (r, g') ->
     width r = the_width /\ height r = the_width /\
     height r = m_width r /\ m_height r = the_height).
Proof.
  split; [| split; [| split]].
  - apply renderbuffer_multisample_defined.
  - intros r g' E. apply renderbuffer_multisample_result in E. subst r.
    repeat split.
  - apply renderbuffer_multisample_defined.
  - intros r g' E. apply renderbuffer_multisample_result in E. subst r.
    repeat split.
Qed.

(** A 640 by 480 renderbuffer reports a height of 640. *)
Lemma height_returns_width_witness :
  let g := Build_context 8 16384 1 0 [] in
  exists r g',
    renderbuffer_new 6402 640 480 g = Some (r, g') /\
    width r = 640 /\ height r = 640 /\ m_height r = 480.
Proof.
  intros g.
  destruct (height_returns_width 0 6402 640 480 g) as (_ & _ & D & V).
  destruct D as (r & g' & E); [discriminate | discriminate | discriminate |].
  exists r, g'. split; [exact E |].
  destruct (V r g' E) as (Hw & Hh & _ & Hm). auto.
Defined.

End RenderbufferFacts.

(** * Further properties of the camera *)

Module CameraGeometry.

Import Camera CameraFacts.
Local Open Scope R_scope.

(** ** The caches are never stale *)

Lemma update_keeps_parameters (c : camera) :
  m_position (fst (update c)) = m_position c /\
  m_direction (fst (update c)) = m_direction c /\
  m_up (fst (update c)) = m_up c /\
  m_fov (fst (update c)) = m_fov c /\
  m_aspect (fst (update c)) = m_aspect c /\
  m_near (fst (update c)) = m_near c /\
  m_far (fst (update c)) = m_far c.
Proof. by_flags c; repeat (split; [reflexivity |]); reflexivity. Qed.

Lemma projection_of_ext (c c' : camera) :
  m_fov c' = m_fov c -> m_aspect c' = m_aspect c ->
  m_near c' = m_near c -> m_far c' = m_far c ->
  projection_of c' = projection_of c.
Proof. unfold projection_of. intros -> -> -> ->. reflexivity. Qed.

Lemma view_of_ext (c c' : camera) :
  m_position c' = m_position c -> m_direction c' = m_direction c ->
  m_up c' = m_up c -> view_of c' = view_of c.
Proof. unfold view_of. intros -> -> ->. reflexivity. Qed.

Lemma update_projection_of (c : camera) :
  m_projection (fst (update c)) =
  if m_projection_dirty c then projection_of c else m_projection c.
Proof. apply update_projection_value. Qed.

Lemma update_view_of (c : camera) :
  m_view (fst (update c)) =
  if m_view_dirty c then view_of c else m_view c.
Proof. apply update_view_value. Qed.

Lemma current_update (c : camera) : current c -> current (fst (update c)).
Proof.
  intros (P & V & M).
  destruct (update_keeps_parameters c) as (Ep & Ed & Eu & Ef & Ea & En & Er).
  assert (EP : projection_of (fst (update c)) = projection_of c)
    by now apply projection_of_ext.
  assert (EV : view_of (fst (update c)) = view_of c)
    by now apply view_of_ext.
  assert (HP : m_projection (fst (update c)) = projection_of c).
  { rewrite update_projection_of.
    destruct (m_projection_dirty c); [reflexivity | now apply P]. }
  assert (HV : m_view (fst (update c)) = view_of c).
  { rewrite update_view_of.
    destruct (m_view_dirty c); [reflexivity | now apply V]. }
  destruct (update_flags c) as (Fp & Fv & Fm).
  split; [| split].
  - intros _. now rewrite EP.
  - intros _. now rewrite EV.
  - intros _. split; [exact Fp | split; [exact Fv |]].
    rewrite EP, EV, update_matrix_value, HP, HV.
    destruct (m_matrix_dirty c) eqn:D; [reflexivity |].
    now destruct (M eq_refl) as (_ & _ & ->).
Qed.

Lemma current_after_projection_change (c c' : camera) :
  current c ->
  m_projection_dirty c' = true -> m_matrix_dirty c' = true ->
  m_view_dirty c' = m_view_dirty c -> m_view c' = m_view c ->
  m_position c' = m_position c -> m_direction c' = m_direction c ->
  m_up c' = m_up c -> current c'.
Proof.
  intros (_ & V & _) Dp Dm Dv Ev Ep Ed Eu.
  split; [| split].
  - rewrite Dp. discriminate.
  - rewrite Dv, Ev, (view_of_ext c c' Ep Ed Eu). exact V.
  - rewrite Dm. discriminate.
Qed.

Lemma current_after_view_change (c c' : camera) :
  current c ->
  m_view_dirty c' = true -> m_matrix_dirty c' = true ->
  m_projection_dirty c' = m_projection_dirty c ->
  m_projection c' = m_projection c ->
  m_fov c' = m_fov c -> m_aspect c' = m_aspect c ->
  m_near c' = m_near c -> m_far c' = m_far c -> current c'.
Proof.
  intros (P & _ & _) Dv Dm Dp Ep Ef Ea En Er.
  split; [| split].
  - rewrite Dp, Ep, (projection_of_ext c c' Ef Ea En Er). exact P.
  - rewrite Dv. discriminate.
  - rewrite Dm. discriminate.
Qed.

Lemma current_set_position (v : vector_type) (c : camera) :
  current c -> current (set_position v c).
Proof.
  intros H. unfold set_position.
  destruct (vector_eq (m_position c) v); [exact H |].
  apply (current_after_view_change c); auto.
Qed.

Lemma current_exec (c : camera) (k : call) : current c -> current (exec c k).
Proof.
  intros H. destruct k; cbn [exec].
  - unfold set_fov. destruct (value_eq (m_fov c) fov); [exact H |].
    apply (current_after_projection_change c); auto.
  - unfold set_aspect. destruct (value_eq (m_aspect c) aspect); [exact H |].
    apply (current_after_projection_change c); auto.
  - unfold set_near_distance.
    destruct (value_eq (m_near c) near_distance); [exact H |].
    apply (current_after_projection_change c); auto.
  - unfold set_far_distance.
    destruct (value_eq (m_far c) far_distance); [exact H |].
    apply (current_after_projection_change c); auto.
  - now apply current_set_position.
  - unfold set_direction. cbv zeta.
    destruct (vector_eq (m_direction c) (vector_normalize direction));
      [exact H |].
    apply (current_after_view_change c); auto.
  - unfold set_up. cbv zeta.
    destruct (vector_eq (m_up c) (vector_normalize up)); [exact H |].
    apply (current_after_view_change c); auto.
  - unfold move. now apply current_set_position.
  - unfold move_relative, move. cbv zeta. now apply current_set_position.
  - apply (current_after_view_change c); auto.
  - apply (current_after_view_change c); auto.
  - apply (current_after_view_change c); auto.
  - rewrite get_view_update. now apply current_update.
  - rewrite get_projection_update. now apply current_update.
  - rewrite get_matrix_update. now apply current_update.
Qed.

Lemma current_reachable (p0 v0 m0 : matrix_type) (k : construction)
    (ks : list call) :
  current (run (construct p0 v0 m0 k) ks).
Proof.
  unfold run.
  assert (I : forall c, m_projection_dirty c = true ->
                        m_view_dirty c = true -> m_matrix_dirty c = true ->
                        current c).
  { intros c P V M. unfold current. rewrite P, V, M.
    repeat split; discriminate. }
  assert (S : forall l c, current c -> current (fold_left exec l c)).
  { induction l as [| x l IH]; intros c H; cbn [fold_left]; [exact H |].
    apply IH. now apply current_exec. }
  apply S. destruct k; apply I; reflexivity.
Qed.

(** X2.  On a camera obtained from a constructor by any sequence of
    public calls, the matrix a query returns is never stale:
    [get_projection] returns the projection matrix of the current field
    of view, aspect ratio and plane distances, [get_view] the view matrix
    of the current position, direction and up vector, and [get_matrix]
    their product; and a query changes none of the seven parameters. *)
Theorem queries_return_current_matrices (p0 v0 m0 : matrix_type)
    (k : construction) (ks : list call) :
  let c := run (construct p0 v0 m0 k) ks in
  returned (get_projection c) = projection_of c /\
  returned (get_view c) = view_of c /\
  returned (get_matrix c) = matrix_mult (projection_of c) (view_of c) /\
  Forall (fun q : camera -> query =>
    get_fov (after (q c)) = get_fov c /\
    get_aspect (after (q c)) = get_aspect c /\
    get_near_distance (after (q c)) = get_near_distance c /\
    get_far_distance (after (q c)) = get_far_distance c /\
    get_position (after (q c)) = get_position c /\
    get_direction (after (q c)) = get_direction c /\
    get_up (after (q c)) = get_up c) queries.
Proof.
  intros c.
  pose proof (current_update c (current_reachable p0 v0 m0 k ks))
    as (P & V & M).
  destruct (update_flags c) as (Fp & Fv & Fm).
  destruct (update_keeps_parameters c) as (Ep & Ed & Eu & Ef & Ea & En & Er).
  assert (EP : projection_of (fst (update c)) = projection_of c)
    by now apply projection_of_ext.
  assert (EV : view_of (fst (update c)) = view_of c)
    by now apply view_of_ext.
  rewrite get_projection_update, get_view_update, get_matrix_update.
  cbn [returned].
  split; [rewrite (P Fp); exact EP |].
  split; [rewrite (V Fv); exact EV |].
  split; [destruct (M Fm) as (_ & _ & ->); now rewrite EP, EV |].
  apply Forall_forall. intros q I. rewrite (query_after q c I).
  unfold get_fov, get_aspect, get_near_distance, get_far_distance,
    get_position, get_direction, get_up.
  rewrite Ep, Ed, Eu, Ef, Ea, En, Er. now repeat split.
Qed.

(** ** Only the stale half is recomputed *)





(** ** Rotation *)






End CameraGeometry.

(** * Further properties of the resource handle and the fence *)

Module Ownership.

Import Object ObjectFacts.
Local Open Scope Z_scope.

Lemma step_liveness (o : op) (s s' : state) :
  well_formed [o] (liveness s) = true ->
  step o s = Some (tt, s') ->
  liveness s' = liveness_after o (liveness s).
Proof.
  destruct o as [other | this other | this]; cbn [well_formed liveness_after];
    rewrite <- ?alive_liveness, ?andb_true_r.
  - intros A E. destruct (alive_load _ _ A) as [b Hb].
    destruct (move_construct_takes s other b Hb)
      as (s1 & E1 & _ & _ & _ & Lv & _).
    unfold step, bind, ret in E. rewrite E1 in E. now injection E as <-.
  - intros A E. apply andb_true_iff in A. destruct A as [At Ao].
    destruct (alive_load _ _ At) as [a Ha].
    destruct (alive_load _ _ Ao) as [b Hb].
    destruct (swap_exchanges s this other a b Ha Hb)
      as (s1 & E1 & _ & _ & _ & _ & Lv & _).
    unfold step, move_assign in E. rewrite E1 in E. now injection E as <-.
  - intros A E. destruct (alive_load _ _ A) as [n Hn].
    unfold step in E. rewrite (destroy_deletes s this n Hn) in E.
    injection E as <-.
    rewrite (liveness_update_none _ _ _ (deleted s) _ Hn). now destruct s.
Qed.

Lemma allocate_names (n : GLuint) (s : state) :
  exists s',
    allocate n s = Some (length (objects s), s') /\
    liveness s' = liveness s ++ [true] /\
    Permutation (names s') (n :: names s).
Proof.
  exists (Build_state (objects s ++ [Some n]) (deleted s)).
  split; [reflexivity |]. split.
  - unfold liveness. cbn [objects]. now rewrite map_app.
  - unfold names. cbn [objects deleted]. rewrite live_names_app. simpl.
    rewrite <- app_assoc. simpl. symmetry. apply Permutation_middle.
Qed.

Lemma insert_names (this : nat) (created : GLuint) (s : state) :
  nth this (liveness s) false = true ->
  exists s',
    insert this created s = Some (tt, s') /\
    liveness s' = liveness s /\
    Permutation (names s') (created :: names s).
Proof.
  rewrite <- alive_liveness. intros A. destruct (alive_load _ _ A) as [n Hn].
  exists (Build_state (update_at this (Some created) (objects s))
            (deleted s ++ [n])).
  split; [| split].
  - unfold insert, bind, load, Deleter, store. rewrite Hn.
    cbn [objects deleted]. now rewrite Hn.
  - rewrite (liveness_update_some _ _ _ _ (deleted s) _ Hn). now destruct s.
  - unfold names. cbn [objects deleted].
    rewrite app_assoc, <- Permutation_cons_append.
    apply (Permutation_app_tail (deleted s)
             (live_names_store this n created (objects s) Hn)).
Qed.

Lemma perform_names (k : command) (s : state) :
  proper [k] (liveness s) = true ->
  exists s',
    perform k s = Some (tt, s') /\
    (forall ks, proper (k :: ks) (liveness s) = true ->
                proper ks (liveness s') = true) /\
    exists z, Permutation (names s') (repeat 0 z ++ handed_out [k] ++ names s).
Proof.
  destruct k as [g | | this g | o]; cbn [proper handed_out app];
    rewrite ?andb_true_r.
  - intros _. destruct (allocate_names g s) as (s' & E & Lv & P).
    exists s'. split; [| split].
    + unfold perform, default_construct, bind, ret. now rewrite E.
    + intros ks W. now rewrite Lv.
    + exists 0%nat. exact P.
  - intros _. destruct (allocate_names 0 s) as (s' & E & Lv & P).
    exists s'. split; [| split].
    + unfold perform, sync_construct, bind, ret. now rewrite E.
    + intros ks W. now rewrite Lv.
    + exists 1%nat. exact P.
  - intros A. destruct (insert_names this g s A) as (s' & E & Lv & P).
    exists s'. split; [| split].
    + exact E.
    + intros ks W. apply andb_true_iff in W. rewrite Lv. apply W.
    + exists 0%nat. exact P.
  - intros W1. destruct (step_names o s W1) as (s' & E & _ & z & P).
    exists s'. split; [| split].
    + exact E.
    + intros ks W. apply andb_true_iff in W.
      rewrite (step_liveness o s s' W1 E). apply W.
    + exists z. exact P.
Qed.

Lemma proper_head (k : command) (ks : list command) (live : list bool) :
  proper (k :: ks) live = true -> proper [k] live = true.
Proof.
  destruct k; cbn [proper]; rewrite ?andb_true_r; try reflexivity;
    intros W; apply andb_true_iff in W; apply W.
Qed.

Lemma handed_out_cons (k : command) (ks : list command) :
  handed_out (k :: ks) = handed_out [k] ++ handed_out ks.
Proof. destruct k; reflexivity. Qed.

Lemma shuffle {A : Type} (a b c d e : list A) :
  Permutation (a ++ b ++ c ++ d ++ e) ((a ++ c) ++ (d ++ b) ++ e).
Proof.
  rewrite <- !app_assoc. apply Permutation_app_head.
  rewrite (Permutation_app_swap_app b c). apply Permutation_app_head.
  apply Permutation_app_swap_app.
Qed.

Lemma performs_names (ks : list command) (s : state) :
  proper ks (liveness s) = true ->
  exists s' z,
    performs ks s = Some (tt, s') /\
    Permutation (names s') (repeat 0 z ++ handed_out ks ++ names s).
Proof.
  revert s. induction ks as [| k ks IH]; intros s W.
  - exists s, 0%nat. split; reflexivity.
  - destruct (perform_names k s (proper_head k ks _ W))
      as (s1 & E & Next & z1 & P1).
    destruct (IH s1 (Next ks W)) as (s' & z & E' & P).
    exists s', (z + z1)%nat. split.
    + cbn [performs]. unfold bind. now rewrite E.
    + rewrite P, P1, (handed_out_cons k ks), repeat_app.
      apply shuffle.
Qed.

Lemma count_occ_zeros (z : nat) (n : GLuint) (l : list GLuint) :
  n <> 0 ->
  count_occ Z.eq_dec (repeat 0 z ++ l) n = count_occ Z.eq_dec l n.
Proof.
  intros N. rewrite count_occ_app, count_occ_repeat_neq by exact N.
  reflexivity.
Qed.

(** X16.  In a program that constructs any number of handles and fences,
    inserts fences, moves and destroys, always on live handles, and at
    the end destroys every handle left, the run is defined, no handle is
    left alive, and the [Deleter] has been called with every name other
    than zero exactly as often as the GL handed that name out: once, for
    names that are handed out once. *)
Theorem every_name_is_deleted_once (ks : list command) :
  proper ks [] = true ->
  exists s,
    (performs ks ;;; destroy_all) initial = Some (tt, s) /\
    live_names (objects s) = [] /\
    forall n, n <> 0 ->
      count_occ Z.eq_dec (deleted s) n
      = count_occ Z.eq_dec (handed_out ks) n.
Proof.
  intros W.
  destruct (performs_names ks initial W) as (s1 & z & E1 & P1).
  destruct (destroy_all_spec s1) as (s & E & Lv & D).
  exists s. split; [| split].
  - unfold bind. now rewrite E1.
  - exact Lv.
  - intros n N.
    assert (P : Permutation (deleted s) (names s1)).
    { rewrite D. unfold names. rewrite Permutation_app_comm.
      apply Permutation_app_tail. symmetry. apply Permutation_rev. }
    rewrite (proj1 (Permutation_count_occ Z.eq_dec _ _) P).
    rewrite (proj1 (Permutation_count_occ Z.eq_dec _ _) P1).
    rewrite count_occ_zeros by exact N.
    unfold names. cbn [initial objects deleted live_names app].
    now rewrite app_nil_r.
Qed.

Lemma every_name_is_deleted_once_witness :
  exists s,
    (performs
       [Construct 7; Sync_construct; Apply (Move_construct 0); Insert 1 21;
        Construct 9; Apply (Move_assign 3 2); Insert 1 22;
        Apply (Destroy 0)] ;;; destroy_all) initial = Some (tt, s) /\
    live_names (objects s) = [] /\
    forall n, n <> 0 ->
      count_occ Z.eq_dec (deleted s) n
      = count_occ Z.eq_dec [7; 21; 9; 22] n.
Proof. apply every_name_is_deleted_once. reflexivity. Defined.

Lemma live_names_In (l : list (option GLuint)) (n : GLuint) :
  In (Some n) l -> In n (live_names l).
Proof.
  induction l as [| [m |] t IH]; simpl; intros H.
  - exact H.
  - destruct H as [H | H]; [left; congruence | right; auto].
  - destruct H as [H | H]; [discriminate | auto].
Qed.

Lemma held_twice (l : list (option GLuint)) (i j : nat) (n : GLuint) :
  nth_error l i = Some (Some n) -> nth_error l j = Some (Some n) ->
  i <> j -> (2 <= count_occ Z.eq_dec (live_names l) n)%nat.
Proof.
  intros Hi Hj N.
  destruct (nth_error_split l i Hi) as (l1 & l2 & -> & <-).
  rewrite live_names_app, count_occ_app. simpl.
  destruct (Z.eq_dec n n) as [_ | C]; [| congruence].
  assert (I : In n (live_names l1) \/ In n (live_names l2)).
  { destruct (Nat.lt_ge_cases j (length l1)) as [L | L].
    - left. apply live_names_In. apply (nth_error_In _ j).
      now rewrite nth_error_app1 in Hj.
    - right. apply live_names_In. apply (nth_error_In _ (j - S (length l1))).
      rewrite nth_error_app2 in Hj by lia.
      destruct (j - length l1)%nat as [| d] eqn:Ed; [lia |].
      simpl in Hj. replace (j - S (length l1))%nat with d by lia.
      exact Hj. }
  unfold GLuint in *.
  destruct I as [I | I]; apply (count_occ_In Z.eq_dec) in I; lia.
Qed.

(** X17.  While such a program runs, if the names the GL hands out are
    pairwise distinct, then at every point no two live handles hold the
    same name other than zero, no live handle holds a name the [Deleter]
    has been called with, and the [Deleter] has been called at most once
    with any name other than zero. *)
Theorem names_are_owned_exclusively (ks : list command) :
  proper ks [] = true ->
  NoDup (handed_out ks) ->
  exists s,
    performs ks initial = Some (tt, s) /\
    (forall i j n, n <> 0 ->
       held s i = Some n -> held s j = Some n -> i = j) /\
    (forall i n, n <> 0 -> held s i = Some n -> ~ In n (deleted s)) /\
    (forall n, n <> 0 -> (count_occ Z.eq_dec (deleted s) n <= 1)%nat).
Proof.
  intros W U.
  destruct (performs_names ks initial W) as (s & z & E & P).
  exists s. split; [exact E |].
  assert (C : forall n, n <> 0 ->
            (count_occ Z.eq_dec (live_names (objects s)) n
             + count_occ Z.eq_dec (deleted s) n <= 1)%nat).
  { intros n N. rewrite <- count_occ_app. fold (names s).
    rewrite (proj1 (Permutation_count_occ Z.eq_dec _ _) P).
    rewrite count_occ_zeros by exact N.
    unfold names. cbn [initial objects deleted live_names app].
    rewrite app_nil_r. now apply NoDup_count_occ. }
  split; [| split].
  - intros i j n N Hi Hj. apply held_load in Hi, Hj.
    destruct (Nat.eq_dec i j) as [e | ne]; [exact e | exfalso].
    pose proof (held_twice _ i j n Hi Hj ne) as T. specialize (C n N).
    unfold GLuint in *. lia.
  - intros i n N Hi I. apply held_load in Hi.
    assert (L : In n (live_names (objects s)))
      by (apply live_names_In; now apply (nth_error_In _ i)).
    specialize (C n N). unfold GLuint in *.
    apply (count_occ_In Z.eq_dec) in I, L. lia.
  - intros n N. specialize (C n N). unfold GLuint in *. lia.
Qed.

Lemma names_are_owned_exclusively_witness :
  exists s,
    performs
      [Construct 7; Sync_construct; Apply (Move_construct 0); Insert 1 21;
       Construct 9; Apply (Move_assign 3 2); Insert 1 22; Apply (Destroy 0)]
      initial = Some (tt, s) /\
    (forall i j n, n <> 0 ->
       held s i = Some n -> held s j = Some n -> i = j) /\
    (forall i n, n <> 0 -> held s i = Some n -> ~ In n (deleted s)) /\
    (forall n, n <> 0 -> (count_occ Z.eq_dec (deleted s) n <= 1)%nat).
Proof.
  apply names_are_owned_exclusively.
  - reflexivity.
  - cbn [handed_out]. repeat constructor; simpl; intuition discriminate.
Defined.

End Ownership.

(** * The storage of the renderbuffer *)

Module RenderbufferStorage.

Import Renderbuffer.

Local Open Scope Z_scope.

(** X18.  When the three assertions hold, the constructor takes the next
    name of the GL, allocates storage under that name with the samples,
    format, width and height it was given (the height the GL stores is
    [the_height]), and leaves no renderbuffer bound, whatever was bound
    before.  When one of them fails, so does the constructor.  The
    constructor without multi-sampling asks for zero samples. *)
Theorem constructor_allocates_storage
    (samples internal_format the_width the_height : Z) (g : context) :
  (samples <= GL_MAX_SAMPLES g /\
   the_width <= GL_MAX_RENDERBUFFER_SIZE g /\
   the_height <= GL_MAX_RENDERBUFFER_SIZE g ->
   exists r g',
     renderbuffer_multisample samples internal_format the_width the_height g
     = Some (r, g') /\
     name r = next_name g /\
     storage g'
     = (name r, (samples, internal_format, the_width, the_height))
         :: storage g /\
     renderbuffer_binding g' = 0 /\
     next_name g' = next_name g + 1 /\
     GL_MAX_SAMPLES g' = GL_MAX_SAMPLES g /\
     GL_MAX_RENDERBUFFER_SIZE g' = GL_MAX_RENDERBUFFER_SIZE g) /\
  (GL_MAX_SAMPLES g < samples \/
   GL_MAX_RENDERBUFFER_SIZE g < the_width \/
   GL_MAX_RENDERBUFFER_SIZE g < the_height ->
   renderbuffer_multisample samples internal_format the_width the_height g
   = None) /\
  renderbuffer_new internal_format the_width the_height g
  = renderbuffer_multisample 0 internal_format the_width the_height g.
Proof.
  unfold renderbuffer_new, renderbuffer_multisample, gen_renderbuffers.
  cbn [GL_MAX_SAMPLES GL_MAX_RENDERBUFFER_SIZE].
  split; [| split; [| reflexivity]].
  - intros (S & W & H). apply Z.leb_le in S, W, H. rewrite S, W, H.
    cbn [negb]. eexists. eexists. split; [reflexivity |].
    cbn. repeat split.
  - intros F.
    destruct (Z.leb_spec samples (GL_MAX_SAMPLES g)); cbn [negb];
      [| reflexivity].
    destruct (Z.leb_spec the_width (GL_MAX_RENDERBUFFER_SIZE g));
      cbn [negb]; [| reflexivity].
    destruct (Z.leb_spec the_height (GL_MAX_RENDERBUFFER_SIZE g));
      cbn [negb]; [lia | reflexivity].
Qed.

Lemma constructor_allocates_storage_witness :
  let g := Build_context 8 16384 5 3 [(3, (0, 6402, 64, 64))] in
  exists r g',
    renderbuffer_multisample 4 6402 640 480 g = Some (r, g') /\
    name r = 5 /\
    storage g' = [(5, (4, 6402, 640, 480)); (3, (0, 6402, 64, 64))] /\
    renderbuffer_binding g' = 0.
Proof.
  intros g.
  destruct (constructor_allocates_storage 4 6402 640 480 g) as (A & _).
  destruct A as (r & g' & E & N & S & B & _).
  - cbn. lia.
  - exists r, g'. rewrite N in S. auto.
Defined.

End RenderbufferStorage.

(** * Properties of the buffer *)

Module BufferFacts.

Import Buffer.

Local Open Scope Z_scope.

Lemma binding_glBindBuffer (t' t : GLenum) (n : GLuint) (g : gl) :
  binding t' (glBindBuffer t n g) = if t' =? t then n else binding t' g.
Proof.
  unfold binding, glBindBuffer. cbn [bound find fst snd].
  rewrite (Z.eqb_sym t t'). now destruct (t' =? t).
Qed.

Lemma contents_glBindBuffer (m : GLuint) (t : GLenum) (n : GLuint) (g : gl) :
  contents m (glBindBuffer t n g) = contents m g.
Proof. reflexivity. Qed.

Lemma contents_set_contents (m n : GLuint) (s : list cell) (g : gl) :
  contents m (set_contents n s g) = if m =? n then s else contents m g.
Proof.
  unfold contents, set_contents. cbn [stores find fst snd].
  rewrite (Z.eqb_sym n m). now destruct (m =? n).
Qed.

Lemma binding_set_contents (t : GLenum) (n : GLuint) (s : list cell)
    (g : gl) :
  binding t (set_contents n s g) = binding t g.
Proof. reflexivity. Qed.

Lemma find_filter_other (n m : GLuint) (l : list (GLuint * list cell)) :
  m <> n ->
  find (fun p => fst p =? m) (filter (fun p => negb (fst p =? n)) l)
  = find (fun p => fst p =? m) l.
Proof.
  intros D. induction l as [| [k s] l IH]; [reflexivity |].
  cbn [filter find fst]. destruct (Z.eqb_spec k n) as [E | E]; cbn [negb].
  - subst k. destruct (Z.eqb_spec n m) as [E' | E']; [congruence | exact IH].
  - cbn [find fst]. now rewrite IH.
Qed.

Lemma find_filter_same (n : GLuint) (l : list (GLuint * list cell)) :
  find (fun p => fst p =? n) (filter (fun p => negb (fst p =? n)) l) = None.
Proof.
  induction l as [| [k s] l IH]; [reflexivity |].
  cbn [filter fst]. destruct (Z.eqb_spec k n) as [E | E]; cbn [negb].
  - exact IH.
  - cbn [find fst]. destruct (Z.eqb_spec k n); [contradiction | exact IH].
Qed.

Lemma contents_glDeleteBuffers (m n : GLuint) (g : gl) :
  contents m (glDeleteBuffers n g)
  = if negb (n =? 0) && (m =? n) then [] else contents m g.
Proof.
  unfold glDeleteBuffers, contents.
  destruct (Z.eqb_spec n 0) as [Z0 | Z0]; cbn [negb andb stores];
    [reflexivity |].
  destruct (Z.eqb_spec m n) as [E | E].
  - subst m. now rewrite find_filter_same.
  - now rewrite find_filter_other.
Qed.

Lemma binding_glDeleteBuffers (t : GLenum) (n : GLuint) (g : gl) :
  binding t (glDeleteBuffers n g)
  = if negb (n =? 0) && (binding t g =? n) then 0 else binding t g.
Proof.
  unfold glDeleteBuffers, binding.
  destruct (Z.eqb_spec n 0) as [Z0 | Z0]; cbn [negb andb bound];
    [reflexivity |].
  induction (bound g) as [| [k v] l IH]; cbn [map find fst snd].
  - destruct (Z.eqb_spec 0 n); [congruence | reflexivity].
  - destruct (Z.eqb_spec v n) as [E | E]; cbn [fst snd];
      destruct (Z.eqb_spec k t) as [K | K]; cbn [snd]; try exact IH.
    + subst v. now rewrite Z.eqb_refl.
    + destruct (Z.eqb_spec v n); [contradiction | reflexivity].
Qed.

Lemma length_read (p : pointer) (n : Z) :
  length (read p n) = Z.to_nat n.
Proof. unfold read. now rewrite length_map, length_seq. Qed.

Lemma length_undefined (n : Z) : length (undefined n) = Z.to_nat n.
Proof. apply repeat_length. Qed.

Lemma length_overwrite (offset : Z) (new old : list cell) :
  0 <= offset ->
  (Z.to_nat offset + length new <= length old)%nat ->
  length (overwrite offset new old) = length old.
Proof.
  intros O L. unfold overwrite.
  rewrite !length_app, length_firstn, length_skipn. lia.
Qed.

Lemma glBufferData_allocates (t : GLenum) (n : Z) (d : option pointer)
    (g : gl) :
  0 <= n -> binding t g <> 0 ->
  glBufferData t n d g
  = set_contents (binding t g)
      (match d with Some p => read p n | None => undefined n end) g.
Proof.
  intros N B. unfold glBufferData.
  destruct (Z.ltb_spec n 0); [lia |].
  destruct (Z.eqb_spec (binding t g) 0); [contradiction | reflexivity].
Qed.

Lemma glBufferSubData_writes (t : GLenum) (offset n : Z) (p : pointer)
    (g : gl) :
  0 <= offset -> 0 <= n -> offset + n <= size_of (binding t g) g ->
  binding t g <> 0 ->
  glBufferSubData t offset n p g
  = set_contents (binding t g)
      (overwrite offset (read p n) (contents (binding t g) g)) g.
Proof.
  intros O N L B. unfold glBufferSubData.
  destruct (Z.ltb_spec offset 0); [lia |].
  destruct (Z.ltb_spec n 0); [lia |].
  destruct (Z.ltb_spec (size_of (binding t g) g) (offset + n)); [lia |].
  cbn [orb].
  destruct (Z.eqb_spec (binding t g) 0); [contradiction | reflexivity].
Qed.

Lemma glCopyBufferSubData_copies (rt wt : GLenum) (ro wo n : Z) (g : gl) :
  0 <= ro -> 0 <= wo -> 0 <= n ->
  ro + n <= size_of (binding rt g) g ->
  wo + n <= size_of (binding wt g) g ->
  binding rt g <> 0 -> binding wt g <> 0 ->
  binding rt g <> binding wt g ->
  glCopyBufferSubData rt wt ro wo n g
  = set_contents (binding wt g)
      (overwrite wo
         (firstn (Z.to_nat n)
            (skipn (Z.to_nat ro) (contents (binding rt g) g)))
         (contents (binding wt g) g)) g.
Proof.
  intros RO WO N LR LW BR BW D. unfold glCopyBufferSubData.
  destruct (Z.ltb_spec ro 0); [lia |].
  destruct (Z.ltb_spec wo 0); [lia |].
  destruct (Z.ltb_spec n 0); [lia |].
  destruct (Z.ltb_spec (size_of (binding rt g) g) (ro + n)); [lia |].
  destruct (Z.ltb_spec (size_of (binding wt g) g) (wo + n)); [lia |].
  destruct (Z.eqb_spec (binding rt g) (binding wt g)); [contradiction |].
  cbn [orb andb].
  destruct (Z.eqb_spec (binding rt g) 0); [contradiction |].
  destruct (Z.eqb_spec (binding wt g) 0); [contradiction | reflexivity].
Qed.

(** [data] with a null pointer. *)
Lemma data_null (Target : GLenum) (fuel : nat) (n : Z) (b : buffer)
    (g : gl) :
  0 <= n -> m_object b <> 0 ->
  data Target (S fuel) n None b g
  = Returned
      (Build_buffer (m_object b) n,
       glBindBuffer Target 0
         (set_contents (m_object b) (undefined n)
            (glBindBuffer Target (m_object b) g))).
Proof.
  intros N B. cbn [data]. unfold and_then, assert, bind, unbind, call, ret.
  destruct (Z.leb_spec 0 n); [| lia]. cbn [m_object m_size].
  rewrite glBufferData_allocates;
    rewrite ?binding_glBindBuffer, ?Z.eqb_refl; auto.
Qed.

Lemma size_of_glBindBuffer (m : GLuint) (t : GLenum) (n : GLuint) (g : gl) :
  size_of m (glBindBuffer t n g) = size_of m g.
Proof. reflexivity. Qed.

(** [copy_sub_data] into a buffer that is large enough. *)
Lemma copy_sub_data_fits (Target : GLenum) (fuel : nat) (source : buffer)
    (ro wo n : Z) (b : buffer) (g : gl) :
  0 <= ro -> 0 <= wo -> 0 < n ->
  ro + n <= m_size source -> wo + n <= m_size b ->
  ro + n <= size_of (m_object source) g ->
  wo + n <= size_of (m_object b) g ->
  m_object source <> 0 -> m_object b <> 0 ->
  m_object source <> m_object b ->
  copy_sub_data Target (S fuel) source ro wo n b g
  = Returned
      (b,
       glBindBuffer GL_COPY_WRITE_BUFFER 0
         (glBindBuffer GL_COPY_READ_BUFFER 0
            (set_contents (m_object b)
               (overwrite wo
                  (firstn (Z.to_nat n)
                     (skipn (Z.to_nat ro) (contents (m_object source) g)))
                  (contents (m_object b) g))
               (glBindBuffer GL_COPY_WRITE_BUFFER (m_object b)
                  (glBindBuffer GL_COPY_READ_BUFFER (m_object source) g))))).
Proof.
  intros RO WO N LS LB GS GB S0 B0 D.
  cbn [copy_sub_data]. unfold and_then, assert, call, ret, size, name.
  destruct (Z.ltb_spec 0 n); [| lia].
  destruct (Z.leb_spec (ro + n) (m_size source)); [| lia].
  destruct (Z.ltb_spec (m_size b) (wo + n)); [lia |].
  rewrite glCopyBufferSubData_copies;
    rewrite ?binding_glBindBuffer, ?size_of_glBindBuffer; cbn;
    auto; lia.
Qed.

Lemma firstn_whole (A : Type) (l : list A) (k : nat) :
  k = length l -> firstn k l = l.
Proof. intros ->. apply firstn_all. Qed.

Lemma undefined_split (a b : Z) :
  0 <= a -> 0 <= b -> undefined (a + b) = undefined a ++ undefined b.
Proof.
  intros A B. unfold undefined. rewrite Z2Nat.inj_add by lia.
  apply repeat_app.
Qed.

Lemma skipn_undefined (k n : Z) :
  0 <= k <= n -> skipn (Z.to_nat k) (undefined n) = undefined (n - k).
Proof.
  intros K. replace n with (k + (n - k)) at 1 by lia.
  rewrite undefined_split by lia.
  rewrite skipn_app, length_undefined, Nat.sub_diag, skipn_all2
    by (rewrite length_undefined; lia).
  reflexivity.
Qed.

(** The old content carried over into a larger, fresh data store. *)
Lemma carried_over (old : list cell) (k n : Z) :
  Z.of_nat (length old) = k -> k <= n ->
  overwrite 0 (firstn (Z.to_nat k) (skipn (Z.to_nat 0) old)) (undefined n)
  = old ++ undefined (n - k).
Proof.
  intros L K. unfold overwrite. cbn [Z.to_nat firstn skipn app].
  rewrite firstn_whole by lia.
  replace (0 + length old)%nat with (Z.to_nat k) by lia.
  rewrite skipn_undefined by lia. reflexivity.
Qed.

Lemma default_construct_generates (g : gl) :
  default_construct g
  = Returned (Build_buffer (next_name g) 0, snd (glGenBuffers g)).
Proof. reflexivity. Qed.

Lemma contents_glGenBuffers (m : GLuint) (g : gl) :
  contents m (snd (glGenBuffers g)) = contents m g.
Proof. reflexivity. Qed.

Lemma binding_glGenBuffers (t : GLenum) (g : gl) :
  binding t (snd (glGenBuffers g)) = binding t g.
Proof. reflexivity. Qed.

Lemma deleted_glGenBuffers (g : gl) :
  deleted (snd (glGenBuffers g)) = deleted g.
Proof. reflexivity. Qed.

Lemma errors_glGenBuffers (g : gl) :
  errors (snd (glGenBuffers g)) = errors g.
Proof. reflexivity. Qed.

Lemma next_name_glGenBuffers (g : gl) :
  next_name (snd (glGenBuffers g)) = next_name g + 1.
Proof. reflexivity. Qed.

Lemma overwrite_appends (offset : Z) (new old pad : list cell) :
  Z.to_nat offset = length old -> length new = length pad ->
  overwrite offset new (old ++ pad) = old ++ new.
Proof.
  intros O L. unfold overwrite. rewrite O, L.
  rewrite firstn_app, Nat.sub_diag, firstn_all, app_nil_r.
  rewrite skipn_all2 by (rewrite length_app; lia).
  now rewrite app_nil_r.
Qed.

Lemma deleted_glDeleteBuffers (n : GLuint) (g : gl) :
  deleted (glDeleteBuffers n g) = deleted g ++ [n].
Proof. unfold glDeleteBuffers. now destruct (n =? 0). Qed.

Lemma errors_glDeleteBuffers (n : GLuint) (g : gl) :
  errors (glDeleteBuffers n g) = errors g.
Proof. unfold glDeleteBuffers. now destruct (n =? 0). Qed.

Lemma next_name_glDeleteBuffers (n : GLuint) (g : gl) :
  next_name (glDeleteBuffers n g) = next_name g.
Proof. unfold glDeleteBuffers. now destruct (n =? 0). Qed.

Lemma swap_exchanges_buffers (a b : buffer) (g : gl) :
  swap a b g
  = Returned
      ((Build_buffer (m_object b) (m_size b),
        Build_buffer (m_object a) (m_size a)),
       glDeleteBuffers 0 g).
Proof. reflexivity. Qed.

Lemma size_of_contents (m : GLuint) (g : gl) :
  size_of m g = Z.of_nat (length (contents m g)).
Proof. reflexivity. Qed.

Lemma copy_read_is_not_copy_write :
  (GL_COPY_READ_BUFFER =? GL_COPY_WRITE_BUFFER) = false.
Proof. reflexivity. Qed.

Lemma copy_write_is_not_copy_read :
  (GL_COPY_WRITE_BUFFER =? GL_COPY_READ_BUFFER) = false.
Proof. reflexivity. Qed.

Ltac observe :=
  repeat first
    [ rewrite copy_read_is_not_copy_write
    | rewrite copy_write_is_not_copy_read
    | rewrite contents_glBindBuffer
    | rewrite contents_set_contents
    | rewrite contents_glDeleteBuffers
    | rewrite contents_glGenBuffers
    | rewrite binding_glBindBuffer
    | rewrite binding_set_contents
    | rewrite binding_glDeleteBuffers
    | rewrite binding_glGenBuffers
    | rewrite deleted_glDeleteBuffers
    | rewrite errors_glDeleteBuffers
    | rewrite next_name_glDeleteBuffers
    | rewrite Z.eqb_refl
    | rewrite deleted_glGenBuffers
    | rewrite errors_glGenBuffers
    | rewrite next_name_glGenBuffers
    | progress cbn [deleted errors next_name glBindBuffer set_contents
                    negb andb orb m_object m_size] ].

Ltac decide_names :=
  repeat match goal with
         | |- context [?a =? ?b] =>
             destruct (Z.eqb_spec a b); try lia; cbn [negb andb orb]
         end.

(** X21.  [sub_data] of a range that ends past the end of a buffer that
    is not empty, at an offset and with a size that are not negative and
    whose sum is a value of [GLsizeiptr], replaces the buffer object: the
    object takes the next
    name of the GL, its size is [offset + data_size], the new data store
    holds the old content, then undefined bytes up to the new size, with
    the bytes at the pointer written over the range; the old name is
    deleted (after one deletion of the name zero) and its data store is
    gone.  Writing at the end appends.  No error is raised. *)
Theorem sub_data_past_the_end_reallocates (Target : GLenum) (fuel : nat)
    (offset data_size : Z) (data_ptr : pointer) (b : buffer) (g : gl) :
  0 < m_object b < next_name g ->
  0 < m_size b ->
  size_of (m_object b) g = m_size b ->
  0 <= offset -> 0 <= data_size ->
  representable (offset + data_size) ->
  m_size b < offset + data_size ->
  exists g',
    sub_data Target (S (S fuel)) offset data_size data_ptr b g
    = Returned (Build_buffer (next_name g) (offset + data_size), g') /\
    contents (next_name g) g'
    = overwrite offset (read data_ptr data_size)
        (contents (m_object b) g
           ++ undefined (offset + data_size - m_size b)) /\
    (offset = m_size b ->
     contents (next_name g) g'
     = contents (m_object b) g ++ read data_ptr data_size) /\
    contents (m_object b) g' = [] /\
    deleted g' = deleted g ++ [0; m_object b] /\
    binding Target g' = 0 /\
    errors g' = errors g.
Proof.
  intros [B0 B1] S0 M O N _ G.
  remember (S fuel) as f eqn:F.
  cbn [sub_data]. unfold and_then at 1.
  destruct (Z.ltb_spec (m_size b) (offset + data_size)); [| lia].
  unfold and_then at 1. rewrite default_construct_generates.
  unfold and_then at 1. subst f.
  rewrite data_null by (cbn [m_object]; lia). cbn [m_object].
  unfold and_then at 1.
  rewrite copy_sub_data_fits.
  all: cycle 1. all: cbn [m_object m_size]; try lia.
  - rewrite size_of_contents. observe. decide_names.
    rewrite size_of_contents in M. lia.
  - rewrite size_of_contents. observe. rewrite length_undefined. lia.
  - observe. decide_names.
    rewrite carried_over by (rewrite size_of_contents in M; lia).
    match goal with
    | |- context [and_then _ _ ?s] => set (g3 := s)
    end.
    assert (C3 : contents (next_name g) g3
                 = contents (m_object b) g
                     ++ undefined (offset + data_size - m_size b))
      by (subst g3; observe; reflexivity).
    assert (O3 : contents (m_object b) g3 = contents (m_object b) g)
      by (subst g3; observe; decide_names; reflexivity).
    assert (D3 : deleted g3 = deleted g) by (subst g3; observe; reflexivity).
    assert (E3 : errors g3 = errors g) by (subst g3; observe; reflexivity).
    clearbody g3.
    unfold and_then. rewrite swap_exchanges_buffers. cbn [fst snd].
    unfold destroy, bind, unbind, call, ret. cbn [m_object m_size].
    rewrite size_of_contents in M.
    rewrite glBufferSubData_writes; try lia.
    all: cycle 1.
    + rewrite size_of_contents. observe. decide_names.
      rewrite C3, length_app, length_undefined. lia.
    + observe. lia.
    + eexists. split; [reflexivity |].
      observe. decide_names. rewrite C3, D3, E3, <- app_assoc.
      split; [reflexivity |].
      split; [| split; [reflexivity | split; [reflexivity | split; reflexivity]]].
      intros ->. apply overwrite_appends;
        rewrite ?length_read, ?length_undefined; [lia | f_equal; lia].
Qed.

Lemma sub_data_past_the_end_reallocates_witness :
  let p : pointer := fun _ => Byte.x2a in
  let b := Build_buffer 1 2 in
  let g := Build_gl 2 [] [(1, [Some Byte.x07; Some Byte.x07])] [] [] in
  exists g',
    sub_data 34962 2 3 2 p b g = Returned (Build_buffer 2 5, g') /\
    contents 2 g'
    = [Some Byte.x07; Some Byte.x07; None; Some Byte.x2a; Some Byte.x2a] /\
    contents 1 g' = [] /\
    deleted g' = [0; 1].
Proof.
  intros p b g.
  destruct (sub_data_past_the_end_reallocates 34962 0 3 2 p b g)
    as (g' & R & C & _ & O & D & _);
    [cbn; lia | cbn; lia | reflexivity | lia | lia
    | unfold representable; lia | cbn; lia |].
  exists g'. auto.
Defined.

(** [sub_data] into a buffer that is large enough. *)
Lemma sub_data_fits (Target : GLenum) (fuel : nat) (offset n : Z)
    (p : pointer) (b : buffer) (g : gl) :
  0 <= offset -> 0 <= n -> offset + n <= m_size b ->
  offset + n <= size_of (m_object b) g -> m_object b <> 0 ->
  sub_data Target (S fuel) offset n p b g
  = Returned
      (b,
       glBindBuffer Target 0
         (set_contents (m_object b)
            (overwrite offset (read p n) (contents (m_object b) g))
            (glBindBuffer Target (m_object b) g))).
Proof.
  intros O N L G B. cbn [sub_data].
  unfold and_then, bind, unbind, call, ret.
  destruct (Z.ltb_spec (m_size b) (offset + n)); [lia |].
  rewrite glBufferSubData_writes;
    rewrite ?size_of_glBindBuffer; observe; auto.
Qed.

Lemma overwrite_all (new old : list cell) :
  length new = length old -> overwrite 0 new old = new.
Proof.
  intros L. unfold overwrite. cbn [Z.to_nat firstn app Nat.add].
  rewrite skipn_all2 by lia. apply app_nil_r.
Qed.

(** X19.  [data] with a pointer, on a buffer that holds a name and for a
    size that is not negative and a value of [GLsizeiptr], returns;
    afterwards [size()] is the new size, the name is the same, the data
    store of the name holds exactly the bytes at the pointer, nothing was
    deleted, the GL raised no error and the target is unbound.
    [get_sub_data] of a range inside the buffer then reads these bytes
    back, and of a range that ends past [size()], with an offset, a size
    and their sum values of [GLsizeiptr], it fails its assertion. *)
Theorem data_uploads (Target : GLenum) (fuel : nat) (n : Z) (p : pointer)
    (b : buffer) (g : gl) (offset k : Z) :
  m_object b <> 0 -> 0 <= n -> representable n ->
  exists g',
    data Target (S (S fuel)) n (Some p) b g
    = Returned (Build_buffer (m_object b) n, g') /\
    contents (m_object b) g' = read p n /\
    deleted g' = deleted g /\
    errors g' = errors g /\
    binding Target g' = 0 /\
    (0 <= offset -> 0 <= k -> offset + k <= n ->
     get_sub_data Target offset k (Build_buffer (m_object b) n) g'
     = Returned
         (Some (firstn (Z.to_nat k) (skipn (Z.to_nat offset) (read p n))),
          glBindBuffer Target 0 (glBindBuffer Target (m_object b) g'))) /\
    (representable offset -> representable k ->
     representable (offset + k) -> n < offset + k ->
     get_sub_data Target offset k (Build_buffer (m_object b) n) g'
     = Assertion_failed).
Proof.
  intros B N _. remember (S fuel) as f eqn:F.
  cbn [data]. unfold and_then, assert, bind, unbind, call, ret.
  destruct (Z.leb_spec 0 n); [| lia]. cbn [m_object m_size]. subst f.
  rewrite glBufferData_allocates; observe; auto.
  rewrite sub_data_fits; cbn [m_object m_size];
    rewrite ?size_of_contents; observe; rewrite ?length_read; try lia.
  eexists. split; [reflexivity |]. observe.
  rewrite overwrite_all by reflexivity.
  split; [reflexivity |]. split; [reflexivity |]. split; [reflexivity |].
  split; [reflexivity |]. split.
  - intros O K L. unfold get_sub_data, and_then, assert, bind, unbind, call,
      ret. cbn [m_object m_size].
    destruct (Z.leb_spec (offset + k) n); [| lia].
    unfold glGetBufferSubData. rewrite size_of_contents. observe.
    rewrite length_read.
    destruct (Z.ltb_spec offset 0); [lia |].
    destruct (Z.ltb_spec k 0); [lia |].
    destruct (Z.ltb_spec (Z.of_nat (Z.to_nat n)) (offset + k)); [lia |].
    cbn [orb]. destruct (Z.eqb_spec (m_object b) 0); [contradiction |].
    reflexivity.
  - intros _ _ _ L. unfold get_sub_data, and_then, assert. cbn [m_size].
    destruct (Z.leb_spec (offset + k) n); [lia | reflexivity].
Qed.

Lemma data_uploads_witness :
  let p : pointer := fun i => if Nat.even i then Byte.x2a else Byte.x07 in
  let b := Build_buffer 1 0 in
  let g := Build_gl 2 [] [] [] [] in
  exists g',
    data 34962 2 3 (Some p) b g = Returned (Build_buffer 1 3, g') /\
    contents 1 g' = [Some Byte.x2a; Some Byte.x07; Some Byte.x2a] /\
    deleted g' = [] /\
    errors g' = [] /\
    binding 34962 g' = 0 /\
    get_sub_data 34962 1 2 (Build_buffer 1 3) g'
    = Returned
        (Some [Some Byte.x07; Some Byte.x2a],
         glBindBuffer 34962 0 (glBindBuffer 34962 1 g')) /\
    get_sub_data 34962 2 2 (Build_buffer 1 3) g' = Assertion_failed.
Proof.
  intros p b g.
  destruct (data_uploads 34962 0 3 p b g 1 2)
    as (g' & R & C & D & E & B & G & _);
    [discriminate | lia | unfold representable; lia |].
  destruct (data_uploads 34962 0 3 p b g 2 2)
    as (g'' & R' & _ & _ & _ & _ & _ & F);
    [discriminate | lia | unfold representable; lia |].
  assert (E' : g'' = g') by congruence. subst g''.
  exists g'. repeat (split; [assumption |]). split.
  - apply G; lia.
  - apply F; unfold representable; lia.
Defined.

(** X22.  [sub_data] on a buffer of size zero, with a range that ends
    past zero and an offset, a size and their sum that are values of
    [GLsizeiptr], fails an assertion whatever the state of the GL: to
    carry
    over the old content it calls [copy_sub_data] with the old size,
    zero, and [copy_sub_data] asserts that the size is positive. *)
Theorem sub_data_on_an_empty_buffer_fails (Target : GLenum) (fuel : nat)
    (offset data_size : Z) (data_ptr : pointer) (b : buffer) (g : gl) :
  m_size b = 0 ->
  representable offset -> representable data_size ->
  representable (offset + data_size) ->
  0 < offset + data_size ->
  sub_data Target (S (S fuel)) offset data_size data_ptr b g
  = Assertion_failed.
Proof.
  intros E _ _ _ P. remember (S fuel) as f eqn:F.
  cbn [sub_data]. unfold and_then at 1.
  destruct (Z.ltb_spec (m_size b) (offset + data_size)); [| lia].
  unfold and_then at 1. rewrite default_construct_generates.
  unfold and_then at 1. subst f.
  cbn [data]. unfold and_then at 1. unfold assert at 1.
  destruct (Z.leb_spec 0 (offset + data_size)); [| lia].
  unfold and_then, bind, unbind, call, ret.
  cbn [copy_sub_data]. unfold and_then, assert. rewrite E.
  reflexivity.
Qed.

Lemma sub_data_on_an_empty_buffer_fails_witness :
  sub_data 34962 2 0 4 (fun _ => Byte.x2a) (Build_buffer 1 0)
    (Build_gl 2 [] [] [] []) = Assertion_failed.
Proof.
  apply sub_data_on_an_empty_buffer_fails;
    [reflexivity | unfold representable; lia .. | lia].
Defined.

(** X20.  [sub_data] of a range inside the buffer keeps the name and the
    size: it writes the bytes at the pointer over the range, leaves every
    other byte and every other data store alone, deletes nothing,
    generates no name, raises no error and leaves the target unbound. *)
Theorem sub_data_within_keeps_the_name (Target : GLenum) (fuel : nat)
    (offset data_size : Z) (data_ptr : pointer) (b : buffer) (g : gl) :
  m_object b <> 0 ->
  size_of (m_object b) g = m_size b ->
  0 <= offset -> 0 <= data_size -> offset + data_size <= m_size b ->
  exists g',
    sub_data Target (S fuel) offset data_size data_ptr b g
    = Returned (b, g') /\
    contents (m_object b) g'
    = overwrite offset (read data_ptr data_size) (contents (m_object b) g) /\
    size_of (m_object b) g' = m_size b /\
    (forall n, n <> m_object b -> contents n g' = contents n g) /\
    deleted g' = deleted g /\
    errors g' = errors g /\
    next_name g' = next_name g /\
    binding Target g' = 0.
Proof.
  intros B M O N L.
  rewrite sub_data_fits by (auto; lia).
  eexists. split; [reflexivity |]. rewrite size_of_contents. observe.
  split; [reflexivity |]. split.
  - rewrite length_overwrite; rewrite ?length_read;
      rewrite size_of_contents in M; lia.
  - split; [| split; [reflexivity | split; [reflexivity | split; reflexivity]]].
    intros n D. observe. decide_names. reflexivity.
Qed.

Lemma sub_data_within_keeps_the_name_witness :
  let p : pointer := fun _ => Byte.x2a in
  let b := Build_buffer 1 3 in
  let g := Build_gl 2 [] [(1, [None; None; Some Byte.x07])] [] [] in
  exists g',
    sub_data 34962 1 1 2 p b g = Returned (b, g') /\
    contents 1 g' = [None; Some Byte.x2a; Some Byte.x2a] /\
    deleted g' = [].
Proof.
  intros p b g.
  destruct (sub_data_within_keeps_the_name 34962 0 1 2 p b g)
    as (g' & R & C & _ & _ & D & _);
    [discriminate | reflexivity | lia | lia | cbn; lia |].
  exists g'. auto.
Defined.

(** X23.  [copy_sub_data] into a range that ends past the end of the
    buffer, which may be empty, at offsets that are not negative and with
    the end of the range a value of [GLsizeiptr], replaces the buffer
    object as [sub_data] does: next name, size [writeoffset + data_size], old content carried
    over, the range of the source copied to [writeoffset]; the source is
    unchanged, the old name is deleted, both copy targets are left
    unbound and no error is raised. *)
Theorem copy_sub_data_past_the_end_reallocates (Target : GLenum)
    (fuel : nat) (source : buffer) (readoffset writeoffset data_size : Z)
    (b : buffer) (g : gl) :
  0 < m_object b < next_name g ->
  0 < m_object source < next_name g ->
  m_object source <> m_object b ->
  size_of (m_object b) g = m_size b ->
  size_of (m_object source) g = m_size source ->
  0 <= readoffset -> 0 <= writeoffset -> 0 < data_size ->
  readoffset + data_size <= m_size source ->
  representable (writeoffset + data_size) ->
  m_size b < writeoffset + data_size ->
  exists g',
    copy_sub_data Target (S (S fuel)) source readoffset writeoffset
      data_size b g
    = Returned (Build_buffer (next_name g) (writeoffset + data_size), g') /\
    contents (next_name g) g'
    = overwrite writeoffset
        (firstn (Z.to_nat data_size)
           (skipn (Z.to_nat readoffset) (contents (m_object source) g)))
        (contents (m_object b) g
           ++ undefined (writeoffset + data_size - m_size b)) /\
    contents (m_object source) g' = contents (m_object source) g /\
    contents (m_object b) g' = [] /\
    deleted g' = deleted g ++ [0; m_object b] /\
    binding GL_COPY_READ_BUFFER g' = 0 /\
    binding GL_COPY_WRITE_BUFFER g' = 0 /\
    errors g' = errors g.
Proof.
  intros [B0 B1] [S0 S1] D M MS RO WO N LS _ G.
  rewrite size_of_contents in M, MS.
  remember (S fuel) as f eqn:F.
  cbn [copy_sub_data]. unfold and_then at 1. unfold assert at 1.
  destruct (Z.ltb_spec 0 data_size); [| lia].
  unfold and_then at 1. unfold assert at 1. unfold size.
  destruct (Z.leb_spec (readoffset + data_size) (m_size source)); [| lia].
  unfold and_then at 1.
  destruct (Z.ltb_spec (m_size b) (writeoffset + data_size)); [| lia].
  unfold and_then at 1. rewrite default_construct_generates.
  unfold and_then at 1. subst f.
  rewrite data_null by (cbn [m_object]; lia). cbn [m_object].
  unfold and_then at 1.
  assert (exists g3,
    (if negb (m_size b =? 0)
     then copy_sub_data Target (S fuel) b 0 0 (m_size b)
            (Build_buffer (next_name g) (writeoffset + data_size))
     else ret (Build_buffer (next_name g) (writeoffset + data_size)))
      (glBindBuffer Target 0
         (set_contents (next_name g) (undefined (writeoffset + data_size))
            (glBindBuffer Target (next_name g) (snd (glGenBuffers g)))))
    = Returned (Build_buffer (next_name g) (writeoffset + data_size), g3) /\
    contents (next_name g) g3
    = contents (m_object b) g
        ++ undefined (writeoffset + data_size - m_size b) /\
    contents (m_object b) g3 = contents (m_object b) g /\
    contents (m_object source) g3 = contents (m_object source) g /\
    deleted g3 = deleted g /\ errors g3 = errors g) as (g3 & R3 & C3 & O3 & SC3 & D3 & E3).
  { destruct (Z.eqb_spec (m_size b) 0) as [E | E]; cbn [negb].
    - eexists. split; [reflexivity |]. observe. decide_names.
      rewrite E in M. destruct (contents (m_object b) g); [| discriminate].
      rewrite E, Z.sub_0_r. repeat split.
    - rewrite copy_sub_data_fits; cbn [m_object m_size];
        rewrite ?size_of_contents; observe; decide_names;
        rewrite ?length_undefined; try lia.
      eexists. split; [reflexivity |]. observe. decide_names.
      rewrite carried_over by lia. repeat split. }
  rewrite R3. clear R3.
  unfold and_then. rewrite swap_exchanges_buffers. cbn [fst snd].
  unfold destroy, call, ret, name. cbn [m_object m_size].
  rewrite glCopyBufferSubData_copies;
    rewrite ?size_of_contents; observe; decide_names;
    rewrite ?C3, ?SC3, ?length_app, ?length_undefined; try lia.
  eexists. split; [reflexivity |]. observe. decide_names.
  rewrite SC3, D3, E3, <- app_assoc. repeat split.
Qed.

Lemma copy_sub_data_past_the_end_reallocates_witness :
  let source := Build_buffer 1 3 in
  let b := Build_buffer 2 0 in
  let g :=
    Build_gl 3 [] [(1, [Some Byte.x01; Some Byte.x02; Some Byte.x03])] []
      [] in
  exists g',
    copy_sub_data 34962 2 source 1 1 2 b g
    = Returned (Build_buffer 3 3, g') /\
    contents 3 g' = [None; Some Byte.x02; Some Byte.x03] /\
    contents 1 g' = [Some Byte.x01; Some Byte.x02; Some Byte.x03] /\
    deleted g' = [0; 2].
Proof.
  intros source b g.
  destruct (copy_sub_data_past_the_end_reallocates 34962 0 source 1 1 2 b g)
    as (g' & R & C & S & _ & D & _);
    try (cbn; lia); try (unfold representable; lia); try reflexivity;
    try discriminate.
  exists g'. auto.
Defined.

(** Only [glBufferData] and [glDeleteBuffers] change the size of a data
    store. *)
Lemma size_of_raise (m : GLuint) (e : gl_error) (g : gl) :
  size_of m (raise e g) = size_of m g.
Proof. reflexivity. Qed.

Lemma size_of_set_contents (m n : GLuint) (s : list cell) (g : gl) :
  size_of m (set_contents n s g)
  = if m =? n then Z.of_nat (length s) else size_of m g.
Proof.
  unfold size_of. rewrite contents_set_contents. now destruct (m =? n).
Qed.

Lemma size_of_glBufferSubData (m : GLuint) (t : GLenum) (offset n : Z)
    (p : pointer) (g : gl) :
  size_of m (glBufferSubData t offset n p g) = size_of m g.
Proof.
  unfold glBufferSubData.
  destruct (Z.ltb_spec offset 0); cbn [orb]; [reflexivity |].
  destruct (Z.ltb_spec n 0); cbn [orb]; [reflexivity |].
  destruct (Z.ltb_spec (size_of (binding t g) g) (offset + n));
    [reflexivity |].
  destruct (binding t g =? 0); [reflexivity |].
  rewrite size_of_set_contents.
  destruct (Z.eqb_spec m (binding t g)) as [-> |]; [| reflexivity].
  unfold size_of in *.
  rewrite length_overwrite; rewrite ?length_read; lia.
Qed.

Lemma length_slice (n ro : Z) (l : list cell) :
  0 <= ro -> 0 <= n -> ro + n <= Z.of_nat (length l) ->
  length (firstn (Z.to_nat n) (skipn (Z.to_nat ro) l)) = Z.to_nat n.
Proof. intros. rewrite length_firstn, length_skipn. lia. Qed.

Lemma size_of_glCopyBufferSubData (m : GLuint) (rt wt : GLenum)
    (ro wo n : Z) (g : gl) :
  size_of m (glCopyBufferSubData rt wt ro wo n g) = size_of m g.
Proof.
  unfold glCopyBufferSubData.
  destruct (Z.ltb_spec ro 0); cbn [orb]; [reflexivity |].
  destruct (Z.ltb_spec wo 0); cbn [orb]; [reflexivity |].
  destruct (Z.ltb_spec n 0); cbn [orb]; [reflexivity |].
  destruct (Z.ltb_spec (size_of (binding rt g) g) (ro + n)); cbn [orb];
    [reflexivity |].
  destruct (Z.ltb_spec (size_of (binding wt g) g) (wo + n)); cbn [orb];
    [reflexivity |].
  match goal with |- context [if ?c then _ else _] => destruct c end;
    [reflexivity |].
  match goal with |- context [if ?c then _ else _] => destruct c end;
    [reflexivity |].
  rewrite size_of_set_contents.
  destruct (Z.eqb_spec m (binding wt g)) as [-> |]; [| reflexivity].
  unfold size_of in *.
  rewrite length_overwrite; rewrite ?length_slice; lia.
Qed.

Lemma next_name_glBufferSubData (t : GLenum) (offset n : Z) (p : pointer)
    (g : gl) :
  next_name (glBufferSubData t offset n p g) = next_name g.
Proof.
  unfold glBufferSubData.
  repeat match goal with
         | |- context [if ?c then _ else _] => destruct c
         end; reflexivity.
Qed.

Lemma next_name_glCopyBufferSubData (rt wt : GLenum) (ro wo n : Z)
    (g : gl) :
  next_name (glCopyBufferSubData rt wt ro wo n g) = next_name g.
Proof.
  unfold glCopyBufferSubData.
  repeat match goal with
         | |- context [if ?c then _ else _] => destruct c
         end; reflexivity.
Qed.

Lemma size_of_glDeleteBuffers (m n : GLuint) (g : gl) :
  size_of m (glDeleteBuffers n g)
  = if negb (n =? 0) && (m =? n) then 0 else size_of m g.
Proof.
  unfold size_of. rewrite contents_glDeleteBuffers.
  now destruct (negb (n =? 0) && (m =? n)).
Qed.

Ltac sizes :=
  repeat first
    [ rewrite size_of_glBindBuffer
    | rewrite size_of_glBufferSubData
    | rewrite size_of_glCopyBufferSubData ].

Lemma sub_data_fits_sizes (Target : GLenum) (fuel : nat) (offset n : Z)
    (p : pointer) (b : buffer) (g : gl) :
  offset + n <= m_size b ->
  exists g',
    sub_data Target (S fuel) offset n p b g = Returned (b, g') /\
    keeps_sizes g g'.
Proof.
  intros L. cbn [sub_data]. unfold and_then, bind, unbind, call, ret.
  destruct (Z.ltb_spec (m_size b) (offset + n)); [lia |].
  eexists. split; [reflexivity |]. split.
  - intros m. sizes. reflexivity.
  - cbn [glBindBuffer next_name]. rewrite next_name_glBufferSubData.
    reflexivity.
Qed.

Lemma copy_sub_data_fits_sizes (Target : GLenum) (fuel : nat)
    (source : buffer) (ro wo n : Z) (b : buffer) (g : gl) :
  wo + n <= m_size b ->
  copy_sub_data Target (S fuel) source ro wo n b g = Assertion_failed \/
  exists g',
    copy_sub_data Target (S fuel) source ro wo n b g = Returned (b, g') /\
    keeps_sizes g g'.
Proof.
  intros L. cbn [copy_sub_data]. unfold and_then, assert, call, ret.
  destruct (0 <? n); [| now left].
  destruct (ro + n <=? size source); [| now left].
  destruct (Z.ltb_spec (m_size b) (wo + n)); [lia |].
  right. eexists. split; [reflexivity |]. split.
  - intros m. sizes. reflexivity.
  - cbn [glBindBuffer next_name]. rewrite next_name_glCopyBufferSubData.
    reflexivity.
Qed.

Lemma data_null_sizes (Target : GLenum) (fuel : nat) (n : Z) (b : buffer)
    (g : gl) :
  0 <= n -> m_object b <> 0 ->
  exists g',
    data Target (S fuel) n None b g
    = Returned (Build_buffer (m_object b) n, g') /\
    (forall m, size_of m g' = if m =? m_object b then n else size_of m g) /\
    next_name g' = next_name g.
Proof.
  intros N B. rewrite data_null by assumption.
  eexists. split; [reflexivity |]. split; [| reflexivity].
  intros m. rewrite size_of_glBindBuffer, size_of_set_contents.
  rewrite length_undefined, size_of_glBindBuffer.
  destruct (m =? m_object b); [lia | reflexivity].
Qed.

Lemma size_of_nonneg (m : GLuint) (g : gl) : 0 <= size_of m g.
Proof. unfold size_of. lia. Qed.

(** The reallocation both [sub_data] and [copy_sub_data] start with. *)
Lemma reallocation_sizes (Target : GLenum) (fuel : nat) (n : Z)
    (carry : bool) (b : buffer) (g : gl) :
  mirrors b g -> m_size b < n ->
  let r :=
    (new_buffer <- default_construct ;;
     new_buffer <- data Target (S fuel) n None new_buffer ;;
     new_buffer <- (if carry then
                      copy_sub_data Target (S fuel) b 0 0 (m_size b)
                        new_buffer
                    else ret new_buffer) ;;
     swapped <- swap b new_buffer ;;
     destroy (snd swapped) ;;;
     ret (fst swapped)) g in
  r = Assertion_failed \/
  exists g',
    r = Returned (Build_buffer (next_name g) n, g') /\
    size_of (next_name g) g' = n /\
    next_name g' = next_name g + 1.
Proof.
  intros [[B0 B1] M] G r. subst r.
  pose proof (size_of_nonneg (m_object b) g) as P.
  unfold and_then. rewrite default_construct_generates.
  destruct (data_null_sizes Target fuel n (Build_buffer (next_name g) 0)
              (snd (glGenBuffers g)))
    as (g2 & R2 & Z2 & N2); [lia | cbn [m_object]; lia |].
  rewrite R2. clear R2. cbn [m_object] in *.
  rewrite next_name_glGenBuffers in N2.
  assert (C : (if carry then
                 copy_sub_data Target (S fuel) b 0 0 (m_size b)
                   (Build_buffer (next_name g) n)
               else ret (Build_buffer (next_name g) n)) g2
              = Assertion_failed \/
              exists g3,
                (if carry then
                   copy_sub_data Target (S fuel) b 0 0 (m_size b)
                     (Build_buffer (next_name g) n)
                 else ret (Build_buffer (next_name g) n)) g2
                = Returned (Build_buffer (next_name g) n, g3) /\
                keeps_sizes g2 g3).
  { destruct carry.
    - apply copy_sub_data_fits_sizes. cbn [m_size]. lia.
    - right. exists g2. split; [reflexivity |]. split; auto. }
  destruct C as [C | (g3 & C & K3 & N3)]; rewrite C; [now left |].
  right. rewrite swap_exchanges_buffers. cbn [fst snd].
  unfold destroy, call, ret. cbn [m_object m_size].
  eexists. split; [reflexivity |]. split.
  - rewrite !size_of_glDeleteBuffers, K3, Z2, Z.eqb_refl.
    decide_names; reflexivity.
  - rewrite !next_name_glDeleteBuffers. lia.
Qed.

(** X24.  If the object holds a name the GL handed out and [size()] is
    the size of the data store of that name, then [data], [sub_data] and
    [copy_sub_data], for all offsets and sizes that are values of
    [GLsizeiptr] together with the sums the function forms of them, and
    for [copy_sub_data] from another buffer object, either fail an
    assertion or return with the object and the GL in agreement again;
    and they never call one another more than two deep. *)
Theorem size_mirrors_the_data_store (Target : GLenum) (fuel : nat)
    (b source : buffer) (g : gl) (n offset readoffset writeoffset : Z)
    (p : pointer) (data_ptr : option pointer) :
  mirrors b g ->
  (representable n ->
   mirrors_after (data Target (S (S fuel)) n data_ptr b g)) /\
  (representable offset -> representable n -> representable (offset + n) ->
   mirrors_after (sub_data Target (S (S fuel)) offset n p b g)) /\
  (m_object source <> m_object b ->
   representable readoffset -> representable writeoffset ->
   representable n -> representable (readoffset + n) ->
   representable (writeoffset + n) ->
   mirrors_after
     (copy_sub_data Target (S (S fuel)) source readoffset writeoffset n b
        g)).
Proof.
  intros Mb. pose proof Mb as [[B0 B1] M].
  pose proof (size_of_nonneg (m_object b) g) as P.
  split; [intros _ | split; [intros _ _ _ | intros _ _ _ _ _ _]].
  - remember (S fuel) as f eqn:F. cbn [data].
    unfold and_then at 1. unfold assert at 1.
    destruct (Z.leb_spec 0 n); [| exact I].
    unfold and_then, bind, unbind, call, ret. cbn [m_object m_size].
    rewrite glBufferData_allocates by (observe; lia). subst f.
    destruct data_ptr as [q |].
    + match goal with
      | |- context [sub_data _ _ _ _ _ ?b' ?g'] =>
          destruct (sub_data_fits_sizes Target fuel 0 n q b' g')
            as (g2 & R2 & K2 & N2); [cbn [m_size]; lia |]
      end.
      rewrite R2. cbn [mirrors_after]. split; cbn [m_object m_size].
      * cbn [glBindBuffer next_name]. rewrite N2. cbn. lia.
      * rewrite size_of_glBindBuffer, K2, size_of_set_contents.
        observe. rewrite length_read. lia.
    + cbn [mirrors_after]. split; cbn [m_object m_size].
      * cbn. lia.
      * rewrite !size_of_glBindBuffer, size_of_set_contents.
        observe. rewrite length_undefined. lia.
  - remember (S fuel) as f eqn:F. cbn [sub_data]. unfold and_then at 1.
    destruct (Z.ltb_spec (m_size b) (offset + n)) as [G | G].
    + subst f.
      destruct (reallocation_sizes Target fuel (offset + n) true b g Mb G)
        as [R | (g' & R & Z' & N')]; cbv zeta in R; rewrite R;
        [exact I |].
      unfold and_then, bind, unbind, call, ret. cbn [mirrors_after].
      split; cbn [m_object m_size].
      * cbn [glBindBuffer next_name]. rewrite next_name_glBufferSubData.
        cbn. lia.
      * sizes. exact Z'.
    + unfold and_then, bind, unbind, call, ret. cbn [mirrors_after].
      split.
      * cbn [glBindBuffer next_name]. rewrite next_name_glBufferSubData.
        cbn. lia.
      * sizes. exact M.
  - remember (S fuel) as f eqn:F. cbn [copy_sub_data].
    unfold and_then at 1. unfold assert at 1.
    destruct (0 <? n); [| exact I].
    unfold and_then at 1. unfold assert at 1.
    destruct (readoffset + n <=? size source); [| exact I].
    unfold and_then at 1.
    destruct (Z.ltb_spec (m_size b) (writeoffset + n)) as [G | G].
    + subst f.
      destruct (reallocation_sizes Target fuel (writeoffset + n)
                  (negb (m_size b =? 0)) b g Mb G)
        as [R | (g' & R & Z' & N')]; cbv zeta in R; rewrite R;
        [exact I |].
      unfold and_then, call, ret, name. cbn [mirrors_after].
      split; cbn [m_object m_size].
      * cbn [glBindBuffer next_name]. rewrite next_name_glCopyBufferSubData.
        cbn. lia.
      * sizes. exact Z'.
    + unfold and_then, call, ret, name. cbn [mirrors_after]. split.
      * cbn [glBindBuffer next_name]. rewrite next_name_glCopyBufferSubData.
        cbn. lia.
      * sizes. exact M.
Qed.

Lemma size_mirrors_the_data_store_witness :
  let p : pointer := fun _ => Byte.x2a in
  let b := Build_buffer 1 2 in
  let g :=
    Build_gl 3 []
      [(1, [Some Byte.x07; Some Byte.x07]);
       (2, [Some Byte.x01; Some Byte.x02; Some Byte.x03])] [] [] in
  let source := Build_buffer 2 3 in
  mirrors b g /\
  (exists r,
     data 34962 2 2 None b g = Returned r /\ mirrors (fst r) (snd r)) /\
  (exists r,
     sub_data 34962 2 3 2 p b g = Returned r /\ mirrors (fst r) (snd r)) /\
  (exists r,
     copy_sub_data 34962 2 source 0 1 2 b g = Returned r /\
     mirrors (fst r) (snd r)).
Proof.
  intros p b g source.
  assert (M : mirrors b g) by (split; [cbn; lia | reflexivity]).
  destruct (size_mirrors_the_data_store 34962 0 b source g 2 3 0 1 p None M)
    as (D & S & C).
  assert (D' := D ltac:(unfold representable; lia)).
  assert (S' := S ltac:(unfold representable; lia)
                  ltac:(unfold representable; lia)
                  ltac:(unfold representable; lia)).
  assert (C' := C ltac:(discriminate)
                  ltac:(unfold representable; lia)
                  ltac:(unfold representable; lia)
                  ltac:(unfold representable; lia)
                  ltac:(unfold representable; lia)
                  ltac:(unfold representable; lia)).
  clear D S C.
  split; [exact M |].
  split; [| split].
  - destruct (data 34962 2 2 None b g) as [r | |] eqn:E;
      [| vm_compute in E; discriminate ..].
    exists r. destruct r. split; [reflexivity | exact D'].
  - destruct (sub_data 34962 2 3 2 p b g) as [r | |] eqn:E;
      [| vm_compute in E; discriminate ..].
    exists r. destruct r. split; [reflexivity | exact S'].
  - destruct (copy_sub_data 34962 2 source 0 1 2 b g) as [r | |] eqn:E;
      [| vm_compute in E; discriminate ..].
    exists r. destruct r. split; [reflexivity | exact C'].
Defined.

End BufferFacts.

(** * Properties of the query *)

Module QueryFacts.

Import Query.

Local Open Scope Z_scope.

Lemma never_restarted_app (p : bool) (a b : list gl_call) :
  never_restarted p (a ++ b)
  = never_restarted p a && never_restarted (in_flight_after p a) b.
Proof.
  revert p. induction a as [| c a IH]; intros p; [reflexivity |].
  destruct c; cbn [app never_restarted in_flight_after]; rewrite IH;
    try reflexivity.
  now rewrite andb_assoc.
Qed.

Lemma in_flight_after_app (p : bool) (a b : list gl_call) :
  in_flight_after p (a ++ b) = in_flight_after (in_flight_after p a) b.
Proof.
  revert p. induction a as [| c a IH]; intros p; [reflexivity |].
  destruct c; cbn [app in_flight_after]; apply IH.
Qed.

(** [m_waiting] is the object's record of a query in flight. *)
Lemma perform_in_flight (k : command) (q : query) :
  never_restarted (m_waiting q) (fst (perform k q)) = true /\
  in_flight_after (m_waiting q) (fst (perform k q))
  = m_waiting (snd (perform k q)).
Proof.
  destruct q as [n w].
  destruct k as [| | | a v r]; destruct w; cbn; try (split; reflexivity).
  unfold GL_TRUE, GL_FALSE.
  destruct (a =? 1) eqn:E1; destruct (a =? 0) eqn:E0; cbn;
    unfold GL_FALSE; rewrite ?E0; split; reflexivity.
Qed.

Lemma performs_in_flight (ks : list command) (q : query) :
  never_restarted (m_waiting q) (fst (performs ks q)) = true /\
  in_flight_after (m_waiting q) (fst (performs ks q))
  = m_waiting (snd (performs ks q)).
Proof.
  revert q. induction ks as [| k ks IH]; intros q; [split; reflexivity |].
  cbn [performs].
  destruct (perform_in_flight k q) as [N F].
  destruct (perform k q) as [calls q1]. cbn [fst snd] in N, F.
  destruct (IH q1) as [N1 F1].
  destruct (performs ks q1) as [more q2]. cbn [fst snd] in *.
  rewrite never_restarted_app, in_flight_after_app, N, F. auto.
Qed.

Lemma performs_app (ks1 ks2 : list command) (q : query) :
  performs (ks1 ++ ks2) q
  = (fst (performs ks1 q) ++ fst (performs ks2 (snd (performs ks1 q))),
     snd (performs ks2 (snd (performs ks1 q)))).
Proof.
  revert q. induction ks1 as [| k ks1 IH]; intros q.
  - cbn [app performs fst snd]. now destruct (performs ks2 q).
  - cbn [app performs]. destruct (perform k q) as [calls q1].
    rewrite IH. destruct (performs ks1 q1) as [c1 q2]. cbn [fst snd].
    now rewrite app_assoc.
Qed.

Lemma performs_name (ks : list command) (q : query) :
  name (snd (performs ks q)) = name q.
Proof.
  revert q. induction ks as [| k ks IH]; intros q; [reflexivity |].
  cbn [performs].
  assert (N : name (snd (perform k q)) = name q).
  { destruct q as [n w].
    destruct k as [| | | a v r]; destruct w; try reflexivity.
    unfold perform, poll_result, ready. cbn [m_waiting].
    now destruct (negb (a =? GL_TRUE)). }
  destruct (perform k q) as [calls q1]. cbn [snd] in N.
  specialize (IH q1). destruct (performs ks q1) as [more q2].
  cbn [snd] in *. congruence.
Qed.

Lemma bracketed_app (o : bool) (a b : list gl_call) :
  bracketed o a = true -> bracketed o (a ++ b) = bracketed false b.
Proof.
  revert o. induction a as [| c a IH]; intros o H.
  - destruct o; [discriminate | reflexivity].
  - destruct c; cbn [app bracketed] in *; auto.
    + apply andb_true_iff in H as [O H]. rewrite O. now apply IH.
    + apply andb_true_iff in H as [O H]. rewrite O. now apply IH.
Qed.

Lemma perform_bracketed (k : command) (q : query) :
  uses_run_only k = true -> bracketed false (fst (perform k q)) = true.
Proof.
  destruct q as [n w].
  destruct k as [| | | a v r]; destruct w; try discriminate;
    try reflexivity.
  intros _. unfold perform, poll_result, ready. cbn [m_waiting].
  now destruct (negb (a =? GL_TRUE)).
Qed.

Lemma performs_bracketed (ks : list command) (q : query) :
  forallb uses_run_only ks = true ->
  bracketed false (fst (performs ks q)) = true.
Proof.
  revert q. induction ks as [| k ks IH]; intros q H; [reflexivity |].
  cbn [forallb] in H. apply andb_true_iff in H as [K H].
  cbn [performs]. pose proof (perform_bracketed k q K) as B.
  destruct (perform k q) as [calls q1]. cbn [fst] in B.
  specialize (IH q1 H). destruct (performs ks q1) as [more q2].
  cbn [fst] in *. now rewrite (bracketed_app _ _ _ B).
Qed.

(** X25.  In the calls a query object sends to the GL, whatever it is
    asked to do and whatever the GL answers, no [glBeginQuery] follows
    another before the GL has reported the result of the earlier one
    available; the member [m_waiting] tells at every point whether a
    query is in flight, and the name of the object does not change. *)
Theorem queries_are_never_restarted (generated : GLuint)
    (ks : list command) :
  let calls := fst (performs ks (query_new generated)) in
  let q := snd (performs ks (query_new generated)) in
  never_restarted false calls = true /\
  m_waiting q = in_flight_after false calls /\
  name q = generated.
Proof.
  intros calls q. subst calls q.
  destruct (performs_in_flight ks (query_new generated)) as [N F].
  split; [exact N |]. split; [now rewrite <- F |].
  apply performs_name.
Qed.

(** X26.  A program that uses [run] and [poll_result] only sends every
    [glBeginQuery] with its [glEndQuery]; [begin] and [end] do not pair
    up in the same way, because [begin] is skipped while a query is in
    flight and [end] never is: after such a program, [begin(); end();
    begin(); end();] sends a [glEndQuery] that ends nothing. *)
Theorem run_pairs_begin_and_end (generated : GLuint) (ks : list command) :
  forallb uses_run_only ks = true ->
  bracketed false (fst (performs ks (query_new generated))) = true /\
  bracketed false
    (fst (performs (ks ++ [Begin; End_; Begin; End_]) (query_new generated)))
  = false /\
  (forall q, m_waiting q = true ->
     performs [Begin; End_] q = ([glEndQuery], q)).
Proof.
  intros H. split; [now apply performs_bracketed |]. split.
  - rewrite performs_app. cbn [fst].
    rewrite (bracketed_app _ _ _
               (performs_bracketed ks (query_new generated) H)).
    destruct (snd (performs ks (query_new generated))) as [n w].
    now destruct w.
  - intros [n w] W. cbn [m_waiting] in W. now subst w.
Qed.

Lemma run_pairs_begin_and_end_witness :
  bracketed false
    (fst (performs [Run; Poll_result 0 0 0; Run; Poll_result 1 5 0; Run]
            (query_new 3))) = true /\
  bracketed false
    (fst (performs
            ([Run; Poll_result 0 0 0; Run; Poll_result 1 5 0; Run]
               ++ [Begin; End_; Begin; End_]) (query_new 3)))
  = false /\
  (forall q, m_waiting q = true ->
     performs [Begin; End_] q = ([glEndQuery], q)).
Proof. apply run_pairs_begin_and_end. reflexivity. Defined.

(** X27.  What [poll_result] returns is decided by the calls sent so far
    and by the answer of the GL: it returns [false], leaves the variable
    alone and does not read the result exactly when a query is in flight
    and the GL does not answer [GL_TRUE]; otherwise it returns [true] with
    the value the GL holds.  It asks the GL whether the result is
    available only while a query is in flight; so on a query object that
    never began a query it returns [true]. *)
Theorem poll_result_follows_the_calls (generated : GLuint)
    (ks : list command) (result_ready : GLuint) (value result : GLint) :
  let calls := fst (performs ks (query_new generated)) in
  let q := snd (performs ks (query_new generated)) in
  let in_flight := in_flight_after false calls in
  fst (fst (poll_result result_ready value result q))
  = (if in_flight && negb (result_ready =? GL_TRUE) then (false, result)
     else (true, value)) /\
  snd (fst (poll_result result_ready value result q))
  = (if in_flight then
       [glGetQueryObjectuiv_GL_QUERY_RESULT_AVAILABLE generated result_ready]
     else [])
    ++ (if in_flight && negb (result_ready =? GL_TRUE) then []
        else [glGetQueryObjectiv_GL_QUERY_RESULT generated]) /\
  (Forall (fun c => forall n, c <> glBeginQuery n) calls ->
   fst (fst (poll_result result_ready value result q)) = (true, value)).
Proof.
  intros calls q in_flight.
  destruct (performs_in_flight ks (query_new generated)) as [_ F].
  pose proof (performs_name ks (query_new generated)) as N.
  fold q in F, N. fold calls in F. cbn [query_new m_waiting name] in F, N.
  fold in_flight in F.
  assert (P : fst (fst (poll_result result_ready value result q))
              = (if in_flight && negb (result_ready =? GL_TRUE)
                 then (false, result) else (true, value))).
  { destruct q as [n w]. cbn [m_waiting] in F. subst w.
    unfold poll_result, ready. cbn [m_waiting].
    destruct in_flight; cbn [andb]; [| reflexivity].
    now destruct (negb (result_ready =? GL_TRUE)). }
  split; [exact P |]. split.
  - destruct q as [n w]. cbn [m_waiting] in F. cbn [name m_object] in N.
    subst w n. unfold poll_result, ready. cbn [m_waiting name m_object].
    destruct in_flight; cbn [andb]; [| reflexivity].
    now destruct (negb (result_ready =? GL_TRUE)).
  - intros Q. rewrite P.
    assert (I : in_flight = false).
    { unfold in_flight. clear -Q. generalize dependent calls.
      induction calls as [| c t IH]; intros Q; [reflexivity |].
      inversion Q as [| ? ? Hc Ht]; subst.
      destruct c; cbn [in_flight_after andb]; auto.
      now specialize (Hc id). }
    now rewrite I.
Qed.

End QueryFacts.

(** * Properties of the texture *)

Module TextureFacts.

Import Texture.

Local Open Scope Z_scope.

(** A cast keeps a value that is in range. *)
Lemma to_GLsizei_extent (x : Z) : extent x -> to_GLsizei x = x.
Proof.
  unfold extent, to_GLsizei. intros H.
  rewrite Z.mod_small; lia.
Qed.

Lemma to_GLint_extent (x : Z) : extent x -> to_GLint x = x.
Proof. apply to_GLsizei_extent. Qed.

(** X28.  A sub-image update is checked against the extent of the image
    given last, and the check is strict.  For extents and offsets that
    are values of [GLsizei] and not negative, as are the sums of an
    offset and an extent: after [image_2d] with the extent [w] by [h],
    [sub_image_2d] runs exactly for the regions with
    [xoffset + width < w] and [yoffset + height < h], and then binds the
    texture, sends the region unchanged and unbinds.  A region that
    reaches the last column or row fails the assertion, and so does the
    update of the whole image.  The same holds in one and in three
    dimensions. *)
Theorem sub_image_must_stay_inside
    (t : texture) (level internal_format : GLint) (format type : GLenum)
    (w h d : Z) (level' : GLint) (format' type' : GLenum)
    (x y z w' h' d' : Z) :
  extent w -> extent h -> extent d ->
  extent x -> extent w' -> extent (x + w') ->
  extent y -> extent h' -> extent (y + h') ->
  extent z -> extent d' -> extent (z + d') ->
  let t1 := snd (image_1d level internal_format w format type t) in
  let t2 := snd (image_2d level internal_format w h format type t) in
  let t3 := snd (image_3d level internal_format w h d format type t) in
  (width t2 = w /\ height t2 = h /\ name t2 = name t) /\
  (sub_image_1d level' x w' format' type' t1
   = if x + w' <? w then
       Some ([glBindTexture (name t);
              glTexSubImage1D level' x w' format' type';
              glBindTexture 0], t1)
     else None) /\
  (sub_image_2d level' x y w' h' format' type' t2
   = if (x + w' <? w) && (y + h' <? h) then
       Some ([glBindTexture (name t);
              glTexSubImage2D level' x y w' h' format' type';
              glBindTexture 0], t2)
     else None) /\
  (sub_image_3d level' x y z w' h' d' format' type' t3
   = if (x + w' <? w) && (y + h' <? h) && (z + d' <? d) then
       Some ([glBindTexture (name t);
              glTexSubImage3D level' x y z w' h' d' format' type';
              glBindTexture 0], t3)
     else None) /\
  sub_image_1d level' 0 w format' type' t1 = None /\
  sub_image_2d level' 0 0 w h format' type' t2 = None /\
  sub_image_3d level' 0 0 0 w h d format' type' t3 = None /\
  (w' <= w ->
   sub_image_2d level' (w - w') y w' h' format' type' t2 = None) /\
  (h' <= h ->
   sub_image_2d level' x (h - h') w' h' format' type' t2 = None).
Proof.
  intros Ew Eh Ed Ex Ew' Exw Ey Eh' Eyh Ez Ed' Ezd t1 t2 t3.
  subst t1 t2 t3.
  unfold sub_image_1d, sub_image_2d, sub_image_3d, image_1d, image_2d,
    image_3d, width, height, name.
  cbn [snd m_width m_height m_depth m_object bind unbind app].
  rewrite (to_GLsizei_extent w Ew), (to_GLsizei_extent h Eh),
    (to_GLsizei_extent d Ed), (to_GLsizei_extent w' Ew'),
    (to_GLsizei_extent h' Eh'), (to_GLsizei_extent d' Ed'),
    (to_GLint_extent x Ex), (to_GLint_extent y Ey), (to_GLint_extent z Ez).
  replace (0 + w) with w by lia. replace (0 + h) with h by lia.
  replace (0 + d) with d by lia.
  replace (w - w' + w') with w by lia. replace (h - h' + h') with h by lia.
  rewrite !Z.ltb_irrefl. cbn [negb].
  split; [split; [| split]; reflexivity |].
  split; [now destruct (x + w' <? w) |].
  split; [now destruct (x + w' <? w); destruct (y + h' <? h) |].
  split; [now destruct (x + w' <? w); destruct (y + h' <? h);
              destruct (z + d' <? d) |].
  split; [reflexivity |]. split; [reflexivity |]. split; [reflexivity |].
  split; [reflexivity |]. intros _. now destruct (x + w' <? w).
Qed.

Lemma sub_image_must_stay_inside_witness :
  let t := Build_texture 7 0 0 0 in
  let t2 := snd (image_2d 0 6408 4 4 6408 5121 t) in
  (width t2 = 4 /\ height t2 = 4 /\ name t2 = 7) /\
  sub_image_2d 0 1 1 2 2 6408 5121 t2
  = Some ([glBindTexture 7; glTexSubImage2D 0 1 1 2 2 6408 5121;
           glBindTexture 0], t2) /\
  sub_image_2d 0 0 0 4 4 6408 5121 t2 = None /\
  sub_image_2d 0 2 1 2 2 6408 5121 t2 = None.
Proof.
  intros t t2.
  destruct (sub_image_must_stay_inside t 0 6408 6408 5121 4 4 4 0 6408 5121
              1 1 1 2 2 2)
    as (E & _ & S & _ & _ & W & _ & R & _);
    try (unfold extent; lia).
  split; [exact E |]. split; [exact S |]. split; [exact W |].
  apply R. lia.
Defined.

End TextureFacts.
